(** * TreeCorr [binnedcorr2.py]: bin geometry, patch accumulation, covariance

    A shallow embedding of [treecorr/binnedcorr2.py]:
    - [BinnedCorr2.__init__] (the resolution of the binning parameters and
      of the traversal tolerance [b]),
    - [_set_metric] and [_get_minmax_size] (the metric options),
    - [_process_all_auto] / [_process_all_cross] (patched accumulation),
    - [estimate_multi_cov] and the five covariance estimators.

    Python floats are idealised as real numbers ([R]): arithmetic is exact,
    and the operations of Python floats that raise ([/] by zero, [math.log]
    outside its domain) raise in the model as well.  numpy's elementwise
    operations never raise: a division by zero gives a value that is not
    finite ([npfloat]), which every later operation carries along. *)

From Stdlib Require Import String Reals Lra Lia ZArith List Permutation Bool Arith.
Import ListNotations.

Open Scope R_scope.

(** ** Exceptions and the error monad *)

Inductive exn : Type :=
| TypeError (msg : string)
| ValueError (msg : string)
| RuntimeError (msg : string)
| AssertionError
| IndexError
| KeyError (key : nat * nat)
| ZeroDivisionError.

Inductive result (A : Type) : Type :=
| Ok (a : A)
| Raise (e : exn).
Arguments Ok {A} a.
Arguments Raise {A} e.

Definition bind {A B : Type} (m : result A) (f : A -> result B) : result B :=
  match m with
  | Ok a => f a
  | Raise e => Raise e
  end.

Notation "x <- m ;; k" := (bind m (fun x => k))
  (at level 61, m at next level, right associativity).
Notation "' pat <- m ;; k" := (bind m (fun x => match x with pat => k end))
  (at level 61, pat pattern, m at next level, right associativity).

(** [assert cond] / [if not cond: raise e] *)
Definition guard (cond : bool) (e : exn) : result unit :=
  if cond then Ok tt else Raise e.

Fixpoint mapM {A B : Type} (f : A -> result B) (l : list A) : result (list B) :=
  match l with
  | [] => Ok []
  | x :: xs => y <- f x ;; ys <- mapM f xs ;; Ok (y :: ys)
  end.

Definition is_ok {A : Type} (m : result A) : bool :=
  match m with Ok _ => true | Raise _ => false end.

Definition is_error {A : Type} (m : result A) : Prop :=
  exists e, m = Raise e.

(** ** Real-number comparisons as booleans *)

Definition Rltb (x y : R) : bool := if Rlt_dec x y then true else false.
Definition Rleb (x y : R) : bool := if Rle_dec x y then true else false.
Definition Reqb (x y : R) : bool := if Req_dec_T x y then true else false.

(** ** Python float operations that can raise *)

(** [x / y] on Python floats (and ints): [ZeroDivisionError] when [y == 0]. *)
Definition py_div (x y : R) : result R :=
  if Reqb y 0 then Raise ZeroDivisionError else Ok (x / y).

(** [math.log(x)]: [ValueError] outside the domain. *)
Definition math_log (x : R) : result R :=
  if Rltb 0 x then Ok (ln x) else Raise (ValueError "math domain error").

(** [int(math.ceil(x))]: the least integer not below [x]. *)
Definition ceil (x : R) : Z := (- Int_part (- x))%Z.

(** Python's [min(a, b)]: [a] unless [b < a]. *)
Definition py_min (a b : R) : R := if Rltb b a then b else a.


(** ** numpy helpers *)

(** Results of numpy's elementwise [log], which never raises. *)
Inductive xreal : Type :=
| Fin (r : R)
| NegInf
| NaN.

Definition np_log (x : R) : xreal :=
  if Rltb 0 x then Fin (ln x) else if Reqb x 0 then NegInf else NaN.

(** A numpy float in an array of the covariance estimators: a finite
    value, or one that is not finite ([inf], [-inf] or [nan]).  Reals have
    no signed zero, so the sign of an infinity is not determined and the
    three are not told apart. *)
Inductive npfloat : Type :=
| Finite (x : R)
| NonFinite.

(** [x / y] on numpy floats or arrays: never raises; [x / 0] is [inf],
    [-inf] or [nan]. *)
Definition np_div (x y : R) : npfloat :=
  if Reqb y 0 then NonFinite else Finite (x / y).

(** [+], [-] and [*] on numpy floats: an operand that is not finite gives
    a result that is not finite ([inf - inf] and [inf * 0] are [nan]). *)
Definition xadd (a b : npfloat) : npfloat :=
  match a, b with Finite x, Finite y => Finite (x + y) | _, _ => NonFinite end.
Definition xsub (a b : npfloat) : npfloat :=
  match a, b with Finite x, Finite y => Finite (x - y) | _, _ => NonFinite end.
Definition xmul (a b : npfloat) : npfloat :=
  match a, b with Finite x, Finite y => Finite (x * y) | _, _ => NonFinite end.

(** A numpy float divided by a finite number. *)
Definition xdivr (a : npfloat) (y : R) : npfloat :=
  match a with Finite x => np_div x y | NonFinite => NonFinite end.

(** [np.linspace(start, stop, num, endpoint=False)]: [num] samples
    [start + i * step] with [step = (stop - start) / num]. *)
Definition linspace (start stop : R) (num : Z) : result (list R) :=
  if (num <? 0)%Z then
    Raise (ValueError "Number of samples must be non-negative.")
  else
    let step := (stop - start) / IZR num in
    Ok (map (fun i => INR i * step + start) (seq 0 (Z.to_nat num))).

(** * Bin geometry: [BinnedCorr2.__init__] *)

Module Binning.

Inductive bin_type : Type := Log | Linear | TwoD.

Definition bin_type_eqb (x y : bin_type) : bool :=
  match x, y with
  | Log, Log | Linear, Linear | TwoD, TwoD => true
  | _, _ => false
  end.

(** The entries of [self.config] that the constructor reads.  A key that is
    absent from the dict is [None].  [cfg_sep_units] is the value of
    [treecorr.config.get(self.config,'sep_units',str,'radians')]: the size of
    the chosen unit in radians (1 when no [sep_units] is given); that helper
    is not part of this file.  [bin_type] has been checked by the config
    layer, so the last [else] of the constructor is unreachable. *)
Record config : Type := {
  cfg_bin_type : bin_type;
  cfg_nbins : option Z;
  cfg_bin_size : option R;
  cfg_min_sep : option R;
  cfg_max_sep : option R;
  cfg_bin_slop : option R;
  cfg_sep_units : R
}.

(** The attributes after lines 278-318: the missing one is [None]. *)
Record params : Type := {
  p_min_sep : option R;
  p_max_sep : option R;
  p_bin_size : option R;
  p_nbins : option Z
}.

Definition is_none {A : Type} (o : option A) : bool :=
  match o with None => true | Some _ => false end.

(** [self.config[key]] *)
Definition require {A : Type} (o : option A) (e : exn) : result A :=
  match o with Some x => Ok x | None => Raise e end.

(** Arithmetic on an attribute that is [None] raises a [TypeError]. *)
Definition the {A : Type} (o : option A) : result A :=
  require o (TypeError "unsupported operand type(s): 'NoneType'").

(** [self.config.get('min_sep',0)] *)
Definition get_min_sep (cfg : config) : R :=
  match cfg_min_sep cfg with Some x => x | None => 0 end.

Definition missing_min_sep (cfg : config) : bool :=
  is_none (cfg_min_sep cfg) && negb (bin_type_eqb (cfg_bin_type cfg) TwoD).

(** Lines 278-318. *)
Definition read_params (cfg : config) : result params :=
  match cfg_nbins cfg with
  | None =>
      mx <- require (cfg_max_sep cfg) (TypeError "Missing required parameter max_sep") ;;
      _ <- guard (negb (missing_min_sep cfg)) (TypeError "Missing required parameter min_sep") ;;
      bs <- require (cfg_bin_size cfg) (TypeError "Missing required parameter bin_size") ;;
      let mn := get_min_sep cfg in
      _ <- guard (negb (Rleb mx mn)) (ValueError "max_sep must be larger than min_sep") ;;
      Ok {| p_min_sep := Some mn; p_max_sep := Some mx;
            p_bin_size := Some bs; p_nbins := None |}
  | Some nb =>
      match cfg_bin_size cfg with
      | None =>
          mx <- require (cfg_max_sep cfg) (TypeError "Missing required parameter max_sep") ;;
          _ <- guard (negb (missing_min_sep cfg)) (TypeError "Missing required parameter min_sep") ;;
          let mn := get_min_sep cfg in
          _ <- guard (negb (Rleb mx mn)) (ValueError "max_sep must be larger than min_sep") ;;
          Ok {| p_min_sep := Some mn; p_max_sep := Some mx;
                p_bin_size := None; p_nbins := Some nb |}
      | Some bs =>
          match cfg_max_sep cfg with
          | None =>
              _ <- guard (negb (missing_min_sep cfg)) (TypeError "Missing required parameter min_sep") ;;
              let mn := get_min_sep cfg in
              Ok {| p_min_sep := Some mn; p_max_sep := None;
                    p_bin_size := Some bs; p_nbins := Some nb |}
          | Some mx =>
              _ <- guard (negb (bin_type_eqb (cfg_bin_type cfg) TwoD))
                     (TypeError "Only 2 of max_sep, bin_size, nbins are allowed for bin_type='TwoD'.") ;;
              _ <- guard (is_none (cfg_min_sep cfg))
                     (TypeError "Only 3 of min_sep, max_sep, bin_size, nbins are allowed.") ;;
              Ok {| p_min_sep := None; p_max_sep := Some mx;
                    p_bin_size := Some bs; p_nbins := Some nb |}
          end
      end
  end.

(** The arrays of a resolved binning, by bin type. *)
Inductive geometry : Type :=
| GeomLog (logr rnom left_edges right_edges : list R)
| GeomLinear (rnom left_edges right_edges : list R) (logr : list xreal)
| GeomTwoD (dx dy left_edges right_edges bottom_edges top_edges rnom : list (list R))
           (logr : list (list xreal)).

(** What lines 320-397 leave behind: the four parameters, the arrays,
    [_nbins], and the locals [min_log_bin_size] and [max_good_slop]. *)
Record layout : Type := {
  l_nbins : Z;
  l_bin_size : R;
  l_min_sep : R;
  l_max_sep : R;
  l_geom : geometry;
  l__nbins : Z;
  l_min_log_bin_size : R;
  l_max_good_slop : R
}.

(** Lines 321-330: the missing parameter of a Log binning. *)
Definition log_params (p : params) : result (Z * R * R * R) :=
  match p_nbins p with
  | None =>
      mx <- the (p_max_sep p) ;; mn <- the (p_min_sep p) ;; bs0 <- the (p_bin_size p) ;;
      q <- py_div mx mn ;; lg <- math_log q ;; d <- py_div lg bs0 ;;
      let nb := ceil d in
      bs <- py_div lg (IZR nb) ;;
      Ok (nb, bs, mn, mx)
  | Some nb =>
      match p_bin_size p with
      | None =>
          mx <- the (p_max_sep p) ;; mn <- the (p_min_sep p) ;;
          q <- py_div mx mn ;; lg <- math_log q ;;
          bs <- py_div lg (IZR nb) ;;
          Ok (nb, bs, mn, mx)
      | Some bs =>
          match p_max_sep p with
          | None =>
              mn <- the (p_min_sep p) ;;
              Ok (nb, bs, mn, exp (IZR nb * bs) * mn)
          | Some mx =>
              Ok (nb, bs, mx * exp (- IZR nb * bs), mx)
          end
      end
  end.

(** Lines 332-345: the arrays of a Log binning. *)
Definition log_arrays (q : Z * R * R * R) : result layout :=
  let '(nb, bs, mn, mx) := q in
  lin <- linspace 0 (IZR nb * bs) nb ;;
  lmn <- math_log mn ;;
  let logr := map (fun x => x + (lmn + 0.5 * bs)) lin in
  let rnom := map exp logr in
  let half_bin := exp (0.5 * bs) in
  let left_edges := map (fun r => r / half_bin) rnom in
  let right_edges := map (fun r => r * half_bin) rnom in
  max_good_slop <- py_div 0.1 bs ;;
  Ok {| l_nbins := nb; l_bin_size := bs; l_min_sep := mn; l_max_sep := mx;
        l_geom := GeomLog logr rnom left_edges right_edges;
        l__nbins := nb;
        l_min_log_bin_size := bs;
        l_max_good_slop := max_good_slop |}.

(** Lines 320-345. *)
Definition layout_log (p : params) : result layout :=
  q <- log_params p ;; log_arrays q.

(** Lines 347-356: the missing parameter of a Linear binning. *)
Definition linear_params (p : params) : result (Z * R * R * R) :=
  match p_nbins p with
  | None =>
      mx <- the (p_max_sep p) ;; mn <- the (p_min_sep p) ;; bs0 <- the (p_bin_size p) ;;
      d <- py_div (mx - mn) bs0 ;;
      let nb := ceil d in
      bs <- py_div (mx - mn) (IZR nb) ;;
      Ok (nb, bs, mn, mx)
  | Some nb =>
      match p_bin_size p with
      | None =>
          mx <- the (p_max_sep p) ;; mn <- the (p_min_sep p) ;;
          bs <- py_div (mx - mn) (IZR nb) ;;
          Ok (nb, bs, mn, mx)
      | Some bs =>
          match p_max_sep p with
          | None =>
              mn <- the (p_min_sep p) ;;
              Ok (nb, bs, mn, mn + IZR nb * bs)
          | Some mx =>
              Ok (nb, bs, mx - IZR nb * bs, mx)
          end
      end
  end.

(** Lines 358-369: the arrays of a Linear binning. *)
Definition linear_arrays (q : Z * R * R * R) : result layout :=
  let '(nb, bs, mn, mx) := q in
  lin <- linspace mn mx nb ;;
  let rnom := map (fun x => x + 0.5 * bs) lin in
  let left_edges := map (fun r => r - 0.5 * bs) rnom in
  let right_edges := map (fun r => r + 0.5 * bs) rnom in
  let logr := map np_log rnom in
  min_log_bin_size <- py_div bs mx ;;
  max_log_bin_size <- py_div bs (mn + bs / 2) ;;
  max_good_slop <- py_div 0.1 max_log_bin_size ;;
  Ok {| l_nbins := nb; l_bin_size := bs; l_min_sep := mn; l_max_sep := mx;
        l_geom := GeomLinear rnom left_edges right_edges logr;
        l__nbins := nb;
        l_min_log_bin_size := min_log_bin_size;
        l_max_good_slop := max_good_slop |}.

(** Lines 346-369. *)
Definition layout_linear (p : params) : result layout :=
  q <- linear_params p ;; linear_arrays q.

(** [np.log(rnom, out=zeros, where=rnom > 0)] followed by
    [logr[rnom==0.] = -np.inf]. *)
Definition log_where_pos (r : R) : xreal :=
  if Reqb r 0 then NegInf else if Rltb 0 r then Fin (ln r) else Fin 0.

(** Lines 371-377: the missing parameter of a TwoD binning. *)
Definition twod_params (p : params) : result (Z * R * R) :=
  match p_nbins p with
  | None =>
      mx <- the (p_max_sep p) ;; bs0 <- the (p_bin_size p) ;;
      d <- py_div (2 * mx) bs0 ;;
      let nb := ceil d in
      bs <- py_div (2 * mx) (IZR nb) ;;
      Ok (nb, bs, mx)
  | Some nb =>
      match p_bin_size p with
      | None =>
          mx <- the (p_max_sep p) ;;
          bs <- py_div (2 * mx) (IZR nb) ;;
          Ok (nb, bs, mx)
      | Some bs => Ok (nb, bs, IZR nb * bs / 2)
      end
  end.

(** Lines 379-395: the arrays of a TwoD binning; [mn] is [self.min_sep]. *)
Definition twod_arrays (mn : option R) (q : Z * R * R) : result layout :=
  let '(nb, bs, mx) := q in
  lin <- linspace (- mx) mx nb ;;
  let sep := map (fun x => x + 0.5 * bs) lin in
  let dx := map (fun _ => sep) sep in
  let dy := map (fun y => map (fun _ => y) sep) sep in
  let shift (d : R) := map (map (fun x => x + d)) in
  let rnom := map (fun y => map (fun x => sqrt (x ^ 2 + y ^ 2)) sep) sep in
  let logr := map (map log_where_pos) rnom in
  min_log_bin_size <- py_div bs mx ;;
  mn <- the mn ;;
  max_log_bin_size <- py_div bs (mn + bs / 2) ;;
  max_good_slop <- py_div 0.1 max_log_bin_size ;;
  Ok {| l_nbins := nb; l_bin_size := bs; l_min_sep := mn; l_max_sep := mx;
        l_geom := GeomTwoD dx dy (shift (- (0.5 * bs)) dx) (shift (0.5 * bs) dx)
                           (shift (- (0.5 * bs)) dy) (shift (0.5 * bs) dy) rnom logr;
        l__nbins := (nb ^ 2)%Z;
        l_min_log_bin_size := min_log_bin_size;
        l_max_good_slop := max_good_slop |}.

(** Lines 370-395. *)
Definition layout_twod (p : params) : result layout :=
  q <- twod_params p ;; twod_arrays (p_min_sep p) q.

(** The attributes of the constructed object that depend on the binning
    (lines 273-431).  [slop_warning] records which of [logger.warning] and
    [logger.debug] line 425 chose. *)
Record BinnedCorr2 : Type := {
  bin_type_of : bin_type;
  nbins : Z;
  bin_size : R;
  min_sep : R;
  max_sep : R;
  geom : geometry;
  _nbins : Z;
  _log_sep_units : R;
  _min_sep : R;
  _max_sep : R;
  _bin_size : R;
  bin_slop : R;
  b : R;
  slop_warning : bool
}.

Definition is_linear_or_twod (t : bin_type) : bool :=
  match t with Log => false | Linear | TwoD => true end.

(** [treecorr.config.get(self.config,'bin_slop',float,-1.0)] *)
Definition get_bin_slop (cfg : config) : R :=
  match cfg_bin_slop cfg with Some s => s | None => -1 end.

(** Lines 278-397: the four parameters and the arrays. *)
Definition resolve_layout (cfg : config) : result layout :=
  p <- read_params cfg ;;
  match cfg_bin_type cfg with
  | Log => layout_log p
  | Linear => layout_linear p
  | TwoD => layout_twod p
  end.

(** Lines 399-431: natural units, [bin_slop] and [b]. *)
Definition finish (cfg : config) (lsu : R) (l : layout) : BinnedCorr2 :=
  let su := cfg_sep_units cfg in
  let lt := is_linear_or_twod (cfg_bin_type cfg) in
  let min_log_bin_size :=
    if lt then l_min_log_bin_size l * su else l_min_log_bin_size l in
  let slop0 := get_bin_slop cfg in
  let slop := if Rltb slop0 0 then py_min (l_max_good_slop l) 1 else slop0 in
  {| bin_type_of := cfg_bin_type cfg;
     nbins := l_nbins l;
     bin_size := l_bin_size l;
     min_sep := l_min_sep l;
     max_sep := l_max_sep l;
     geom := l_geom l;
     _nbins := l__nbins l;
     _log_sep_units := lsu;
     _min_sep := l_min_sep l * su;
     _max_sep := l_max_sep l * su;
     _bin_size := if lt then l_bin_size l * su else l_bin_size l;
     bin_slop := slop;
     b := min_log_bin_size * slop;
     slop_warning := Rltb (l_max_good_slop l + 0.0001) slop |}.

(** Lines 273-431 of [__init__]. *)
Definition __init__ (cfg : config) : result BinnedCorr2 :=
  lsu <- math_log (cfg_sep_units cfg) ;;
  l <- resolve_layout cfg ;;
  Ok (finish cfg lsu l).

(** How many of the four binning parameters the caller supplied. *)
Definition count_given (cfg : config) : nat :=
  (if is_none (cfg_nbins cfg) then 0 else 1) +
  (if is_none (cfg_bin_size cfg) then 0 else 1) +
  (if is_none (cfg_min_sep cfg) then 0 else 1) +
  (if is_none (cfg_max_sep cfg) then 0 else 1).

(** How many of [nbins], [bin_size], [max_sep] the caller supplied. *)
Definition count_given_twod (cfg : config) : nat :=
  (if is_none (cfg_nbins cfg) then 0 else 1) +
  (if is_none (cfg_bin_size cfg) then 0 else 1) +
  (if is_none (cfg_max_sep cfg) then 0 else 1).

End Binning.

(** * Vectors, matrices and dicts *)

Definition vec : Type := list R.
(** A 2-d array, as the list of its rows. *)
Definition matrix : Type := list (list R).

Definition zeros (n : nat) : vec := repeat 0 n.

Definition zip_with {A B C : Type} (f : A -> B -> C) (u : list A) (v : list B) : list C :=
  map (fun xy => f (fst xy) (snd xy)) (combine u v).

Definition vadd : vec -> vec -> vec := zip_with Rplus.

Definition Rsum (l : list R) : R := fold_right Rplus 0 l.

(** [np.sum(rows, axis=0)] stored into a row of length [n] (the empty sum
    is the zero row).  The rows are expected to have length [n]. *)
Definition sum_rows (n : nat) (rows : list vec) : vec :=
  fold_right vadd (zeros n) rows.

(** [np.diag(v)] *)
Definition np_diag (v : vec) : matrix :=
  map (fun i => map (fun j => if (i =? j)%nat then nth i v 0 else 0)
                    (seq 0 (length v)))
      (seq 0 (length v)).

(** [np.hstack(ms)]: the arrays must have the same number of rows. *)
Definition hstack (ms : list matrix) : result matrix :=
  match ms with
  | [] => Raise (ValueError "need at least one array to concatenate")
  | m :: rest =>
      _ <- guard (forallb (fun m' => (length m' =? length m)%nat) rest)
             (ValueError "all the input array dimensions except for the concatenation axis must match exactly") ;;
      Ok (map (fun i => concat (map (fun m' => nth i m' []) ms)) (seq 0 (length m)))
  end.

(** Arrays of numpy floats, which the elementwise division produces. *)
Definition xvec : Type := list npfloat.
Definition xmatrix : Type := list (list npfloat).

(** An array of finite values. *)
Definition finite (m : matrix) : xmatrix := map (map Finite) m.

(** [u / v], elementwise. *)
Definition vdiv : vec -> vec -> xvec := zip_with np_div.

Definition xvadd : xvec -> xvec -> xvec := zip_with xadd.
Definition xvsub : xvec -> xvec -> xvec := zip_with xsub.
Definition xvmul : xvec -> xvec -> xvec := zip_with xmul.

Definition xsum (l : xvec) : npfloat := fold_right xadd (Finite 0) l.

Definition xsum_rows (n : nat) (rows : xmatrix) : xvec :=
  fold_right xvadd (repeat (Finite 0) n) rows.

(** Column [a] of a 2-d array. *)
Definition col (v : xmatrix) (a : nat) : xvec := map (fun row => nth a row (Finite 0)) v.

Definition dot (u w : xvec) : npfloat := xsum (xvmul u w).

(** [np.mean(v, axis=0)] for an array with [n] columns. *)
Definition col_mean (n : nat) (v : xmatrix) : xvec :=
  map (fun s => xdivr s (INR (length v))) (xsum_rows n v).

(** [v -= vmean] *)
Definition center (v : xmatrix) (vmean : xvec) : xmatrix :=
  map (fun row => xvsub row vmean) v.

(** [v.T.dot(v)] for an array with [n] columns. *)
Definition gram (n : nat) (v : xmatrix) : xmatrix :=
  map (fun a => map (fun b => dot (col v a) (col v b)) (seq 0 n)) (seq 0 n).

(** [(w * v.T).dot(v)] for an array with [n] columns. *)
Definition wgram (n : nat) (w : xvec) (v : xmatrix) : xmatrix :=
  map (fun a => map (fun b => dot (xvmul w (col v a)) (col v b)) (seq 0 n)) (seq 0 n).

Definition scale (f : npfloat) (m : xmatrix) : xmatrix := map (map (xmul f)) m.

(** Entry [(a, b)] of a 2-d array. *)
Definition entry (m : xmatrix) (a b : nat) : npfloat := nth b (nth a m []) (Finite 0).

(** [np.max(l)] on integers. *)
Definition np_max (l : list Z) : result Z :=
  match l with
  | [] => Raise (ValueError "zero-size array to reduction operation maximum which has no identity")
  | x :: xs => Ok (fold_left Z.max xs x)
  end.

(** A patch key [(i, j)]. *)
Definition key : Type := (nat * nat)%type.

Definition key_eqb (k1 k2 : key) : bool :=
  (fst k1 =? fst k2)%nat && (snd k1 =? snd k2)%nat.

(** A Python dict keyed by patch pairs, in insertion order. *)
Definition dict (V : Type) : Type := list (key * V).

Fixpoint dict_get {V : Type} (d : dict V) (k : key) : option V :=
  match d with
  | [] => None
  | (k', v) :: d' => if key_eqb k k' then Some v else dict_get d' k
  end.

(** [d[k] = v]: an existing key keeps its place. *)
Fixpoint dict_set {V : Type} (d : dict V) (k : key) (v : V) : dict V :=
  match d with
  | [] => [(k, v)]
  | (k', v') :: d' =>
      if key_eqb k k' then (k, v) :: d' else (k', v') :: dict_set d' k v
  end.

(** [list(d.keys())] *)
Definition dict_keys {V : Type} (d : dict V) : list key := map fst d.

(** [k in pairs] *)
Definition key_in (k : key) (pairs : list key) : bool := existsb (key_eqb k) pairs.

(** * Covariance estimation *)

Module Cov.

(** What the estimators read from a stored patch result:
    [_getStat()] and [_getWeight()]. *)
Record PatchResult : Type := {
  stat : vec;
  weight : vec
}.

(** What the estimators read from a correlation object. *)
Record Corr : Type := {
  results : dict PatchResult;
  _getStatLen : nat;
  _getWeight : vec;
  _var_num : R;
  num_bootstrap : Z
}.

(** The successive results of [np.random.randint(npatch, size=npatch)]:
    [rng k] is what call number [k] returns. *)
Definition random_source : Type := nat -> list nat.

(** The length of the concatenated statistic vector. *)
Definition total_len (corrs : list Corr) : nat := list_sum (map _getStatLen corrs).

(** One iteration of the loop of [_cov_shot]. *)
Definition shot_vector (c : Corr) : result vec :=
  let w := _getWeight c in
  _ <- guard (length w =? _getStatLen c)%nat IndexError ;;
  Ok (map (fun wk => if Reqb wk 0 then 0 else _var_num c / wk) w).

(** [np.concatenate(vlist)]: an empty list raises. *)
Definition np_concatenate (vlist : list vec) : result vec :=
  match vlist with
  | [] => Raise (ValueError "need at least one array to concatenate")
  | _ => Ok (concat vlist)
  end.

Definition _cov_shot (corrs : list Corr) : result xmatrix :=
  vlist <- mapM shot_vector corrs ;;
  v <- np_concatenate vlist ;;
  Ok (finite (np_diag v)).

(** [corr.results[(j,k)]] *)
Definition lookup (c : Corr) (k : key) : result PatchResult :=
  match dict_get (results c) k with
  | Some pr => Ok pr
  | None => Raise (KeyError k)
  end.

(** One row of [vnum] and of [vdenom]. *)
Definition design_row (c : Corr) (pairs : list key) : result (vec * vec) :=
  prs <- mapM (lookup c) pairs ;;
  Ok (sum_rows (_getStatLen c) (map stat prs),
      sum_rows (_getStatLen c) (map weight prs)).

Definition _make_cov_design_matrix (c : Corr) (all_pairs : list (list key))
  : result (matrix * matrix) :=
  rows <- mapM (design_row c) all_pairs ;;
  Ok (map fst rows, map snd rows).

(** [len(set(l))] *)
Definition count_distinct (l : list nat) : nat := length (nodup Nat.eq_dec l).

(** [set(l) == set(range(n))] *)
Definition is_range (l : list nat) (n : nat) : bool :=
  forallb (fun x => existsb (Nat.eqb x) (seq 0 n)) l &&
  forallb (fun x => existsb (Nat.eqb x) l) (seq 0 n).

(** [n in (1, npatch)] *)
Definition one_or (npatch n : nat) : bool := (n =? 1)%nat || (n =? npatch)%nat.

(** The loop over [corrs[1:]] of [_get_patch_nums]. *)
Fixpoint other_patch_nums (npatch : nat) (cs : list Corr)
  : result (list nat * list nat * list (list key)) :=
  match cs with
  | [] => Ok ([], [], [])
  | c :: cs' =>
      let pairs := dict_keys (results c) in
      let n1 := count_distinct (map fst pairs) in
      let n2 := count_distinct (map snd pairs) in
      _ <- guard (one_or npatch n1 && one_or npatch n2)
             (ValueError "All correlation functions must have used the same patchs") ;;
      '(l1, l2, ap) <- other_patch_nums npatch cs' ;;
      Ok (n1 :: l1, n2 :: l2, pairs :: ap)
  end.

Definition _get_patch_nums (corrs : list Corr)
  : result (nat * list nat * list nat * list (list key)) :=
  match corrs with
  | [] => Raise IndexError
  | c0 :: rest =>
      let pairs := dict_keys (results c0) in
      _ <- guard (negb (length pairs =? 0)%nat)
             (ValueError "Jackknife covariance requires processing using patches.") ;;
      let patch_nums1 := map fst pairs in
      let patch_nums2 := map snd pairs in
      let npatch1 := count_distinct patch_nums1 in
      let npatch2 := count_distinct patch_nums2 in
      _ <- guard (is_range patch_nums1 npatch1) AssertionError ;;
      _ <- guard (is_range patch_nums2 npatch2) AssertionError ;;
      _ <- guard (negb (negb (npatch1 =? npatch2)%nat && negb (npatch1 =? 1)%nat
                        && negb (npatch2 =? 1)%nat))
             (RuntimeError "All catalogs must use the same number of patches or use 1 patch.") ;;
      let npatch := Nat.max npatch1 npatch2 in
      '(l1, l2, ap) <- other_patch_nums npatch rest ;;
      Ok (npatch, npatch1 :: l1, npatch2 :: l2, pairs :: ap)
  end.

(** [zip(corrs, npatch1, npatch2, all_pairs)] *)
Fixpoint zip4 {A B C D : Type} (la : list A) (lb : list B) (lc : list C) (ld : list D)
  : list (A * B * C * D) :=
  match la, lb, lc, ld with
  | a :: la', b :: lb', c :: lc', d :: ld' => (a, b, c, d) :: zip4 la' lb' lc' ld'
  | _, _, _, _ => []
  end.

(** [vpairs] of [_cov_jackknife]. *)
Definition jackknife_pairs (n1 n2 : nat) (pairs : list key) : result (list (list key)) :=
  if (n2 =? 1)%nat then
    Ok (map (fun i => map (fun j => (j, 0%nat))
                          (filter (fun j => negb (j =? i)%nat) (seq 0 n1)))
            (seq 0 n1))
  else if (n1 =? 1)%nat then
    Ok (map (fun i => map (fun j => (0%nat, j))
                          (filter (fun j => negb (j =? i)%nat) (seq 0 n2)))
            (seq 0 n2))
  else
    _ <- guard (n1 =? n2)%nat AssertionError ;;
    Ok (map (fun i => filter (fun jk => negb (fst jk =? i)%nat && negb (snd jk =? i)%nat) pairs)
            (seq 0 n1)).

(** [vpairs] of [_cov_sample] and of [_cov_bootstrap]. *)
Definition sample_pairs (n1 n2 : nat) (pairs : list key) : result (list (list key)) :=
  if (n2 =? 1)%nat then
    Ok (map (fun i => [(i, 0%nat)]) (seq 0 n1))
  else if (n1 =? 1)%nat then
    Ok (map (fun i => [(0%nat, i)]) (seq 0 n2))
  else
    _ <- guard (n1 =? n2)%nat AssertionError ;;
    Ok (map (fun i => filter (fun jk => (fst jk =? i)%nat) pairs) (seq 0 n1)).

(** The loop that fills [vnum] and [vdenom], followed by the two
    [np.hstack]; [mk_pairs] builds [vpairs]. *)
Definition stacked_design
    (mk_pairs : nat -> nat -> list key -> result (list (list key)))
    (corrs : list Corr) (npatch1 npatch2 : list nat) (all_pairs : list (list key))
  : result (matrix * matrix) :=
  nd <- mapM (fun x : Corr * nat * nat * list key =>
                let '(c, n1, n2, pairs) := x in
                vpairs <- mk_pairs n1 n2 pairs ;;
                _make_cov_design_matrix c vpairs)
             (zip4 corrs npatch1 npatch2 all_pairs) ;;
  vnum <- hstack (map fst nd) ;;
  vdenom <- hstack (map snd nd) ;;
  Ok (vnum, vdenom).

(** [vmean = np.mean(v, axis=0); v -= vmean; f * v.T.dot(v)] *)
Definition scatter (f : npfloat) (n : nat) (v : xmatrix) : xmatrix :=
  scale f (gram n (center v (col_mean n v))).

Definition _cov_jackknife (corrs : list Corr) : result xmatrix :=
  '(npatch, npatch1, npatch2, all_pairs) <- _get_patch_nums corrs ;;
  '(vnum, vdenom) <- stacked_design jackknife_pairs corrs npatch1 npatch2 all_pairs ;;
  let v := zip_with vdiv vnum vdenom in
  inv <- py_div 1 (INR npatch) ;;
  Ok (scatter (Finite (1 - inv)) (total_len corrs) v).

Definition _cov_sample (corrs : list Corr) : result xmatrix :=
  '(npatch, npatch1, npatch2, all_pairs) <- _get_patch_nums corrs ;;
  '(vnum, vdenom) <- stacked_design sample_pairs corrs npatch1 npatch2 all_pairs ;;
  let n := total_len corrs in
  let v := zip_with vdiv vnum vdenom in
  let w := map Rsum vdenom in
  let vmean := col_mean n v in
  let w := map (fun x => np_div x (Rsum w)) w in
  let v := center v vmean in
  f <- py_div 1 (INR (npatch - 1)) ;;
  Ok (scale (Finite f) (wgram n w v)).

(** [a[indx]]: the rows of [a] at the indices [indx]. *)
Definition take_rows (a : matrix) (indx : list nat) : result matrix :=
  mapM (fun i => match nth_error a i with
                 | Some row => Ok row
                 | None => Raise IndexError
                 end) indx.

(** The array [v] of [_cov_bootstrap] once its loop has run, one row per
    resampling, together with [nboot]. *)
Definition bootstrap_resamples (corrs : list Corr) (rng : random_source)
  : result (Z * xmatrix) :=
  '(npatch, npatch1, npatch2, all_pairs) <- _get_patch_nums corrs ;;
  '(vnum, vdenom) <- stacked_design sample_pairs corrs npatch1 npatch2 all_pairs ;;
  let n := total_len corrs in
  nboot <- np_max (map num_bootstrap corrs) ;;
  _ <- guard (0 <=? nboot)%Z (ValueError "negative dimensions are not allowed") ;;
  v <- mapM (fun k =>
               let indx := rng k in
               rn <- take_rows vnum indx ;;
               rd <- take_rows vdenom indx ;;
               Ok (vdiv (sum_rows n rn) (sum_rows n rd)))
            (seq 0 (Z.to_nat nboot)) ;;
  Ok (nboot, v).

(** [nboot] is a numpy integer, so [1./(nboot-1)] is numpy's division. *)
Definition _cov_bootstrap (corrs : list Corr) (rng : random_source) : result xmatrix :=
  '(nboot, v) <- bootstrap_resamples corrs rng ;;
  Ok (scatter (np_div 1 (IZR nboot - 1)) (total_len corrs) v).

(** [vpairs1] of [_cov_bootstrap2] for one draw [indx]. *)
Definition bootstrap2_pairs (n1 n2 : nat) (pairs : list key) (indx : list nat)
  : result (list key) :=
  if (n2 =? 1)%nat then Ok (map (fun i => (i, 0%nat)) indx)
  else if (n1 =? 1)%nat then Ok (map (fun i => (0%nat, i)) indx)
  else
    _ <- guard (n1 =? n2)%nat AssertionError ;;
    let vpairs1 := map (fun i => (i, i)) indx in
    let temp :=
      flat_map (fun i =>
                  filter (fun ij => negb (fst ij =? snd ij)%nat && key_in ij pairs)
                         (map (fun j => (i, j)) indx))
               indx in
    Ok (vpairs1 ++ temp).

(** The loop over [corrs] of [_cov_bootstrap2]; [first] is the number of
    draws made before this correlation object. *)
Fixpoint bootstrap2_designs (nboot : nat) (rng : random_source) (first : nat)
    (xs : list (Corr * nat * nat * list key)) : result (list (matrix * matrix)) :=
  match xs with
  | [] => Ok []
  | (c, n1, n2, pairs) :: xs' =>
      vpairs <- mapM (fun k => bootstrap2_pairs n1 n2 pairs (rng (first + k)%nat))
                     (seq 0 nboot) ;;
      nd <- _make_cov_design_matrix c vpairs ;;
      rest <- bootstrap2_designs nboot rng (first + nboot) xs' ;;
      Ok (nd :: rest)
  end.

(** The array [v] of [_cov_bootstrap2], one row per resampling, together
    with [nboot]. *)
Definition bootstrap2_resamples (corrs : list Corr) (rng : random_source)
  : result (Z * xmatrix) :=
  '(npatch, npatch1, npatch2, all_pairs) <- _get_patch_nums corrs ;;
  nboot <- np_max (map num_bootstrap corrs) ;;
  nd <- bootstrap2_designs (Z.to_nat nboot) rng 0
          (zip4 corrs npatch1 npatch2 all_pairs) ;;
  vnum <- hstack (map fst nd) ;;
  vdenom <- hstack (map snd nd) ;;
  Ok (nboot, zip_with vdiv vnum vdenom).

Definition _cov_bootstrap2 (corrs : list Corr) (rng : random_source) : result xmatrix :=
  '(nboot, v) <- bootstrap2_resamples corrs rng ;;
  Ok (scatter (np_div 1 (IZR nboot - 1)) (total_len corrs) v).

Definition estimate_multi_cov (corrs : list Corr) (method : string) (rng : random_source)
  : result xmatrix :=
  if String.eqb method "shot" then _cov_shot corrs
  else if String.eqb method "jackknife" then _cov_jackknife corrs
  else if String.eqb method "bootstrap" then _cov_bootstrap corrs rng
  else if String.eqb method "bootstrap2" then _cov_bootstrap2 corrs rng
  else if String.eqb method "sample" then _cov_sample corrs
  else Raise (ValueError ("Invalid method: " ++ method)).

(** [BinnedCorr2.estimate_cov] *)
Definition estimate_cov (c : Corr) (method : string) (rng : random_source) : result xmatrix :=
  estimate_multi_cov [c] method rng.

End Cov.

(** * Patched accumulation: [_process_all_auto], [_process_all_cross] *)

Module Accum.

(** What the accumulation loops use of a correlation object (type [T]) and
    of a catalog (type [Cat]).  The processing methods, [clear], [+=] and
    [_add_tot] belong to the derived classes; [metric] and [num_threads]
    are fixed.  Objects are values here, so [copy] is the identity. *)
Class Correlation (T Cat : Type) : Type := {
  clear : T -> T;
  process_auto : T -> Cat -> T;
  process_cross : T -> Cat -> Cat -> T;
  process_pairwise : T -> Cat -> Cat -> T;
  iadd : T -> T -> T;
  _add_tot : T -> T -> T;
  npairs : T -> list R;
  _getWeight : T -> list R;
  patch : Cat -> option nat;
  ntot : Cat -> nat
}.

Section Loops.

Context {T Cat : Type} `{Correlation T Cat}.

(** [self]: the accumulated correlation and [self.results]. *)
Record state : Type := {
  total : T;
  results : dict T
}.

(** [enumerate(cat)] *)
Definition enumerate (cat : list Cat) : list (nat * Cat) :=
  combine (seq 0 (length cat)) cat.

(** [c.patch if c.patch is not None else ii] *)
Definition patch_of (ic : nat * Cat) : nat :=
  match patch (snd ic) with Some p => p | None => fst ic end.

(** [np.sum(temp.npairs) > 0] *)
Definition has_pairs (temp : T) : bool := Rltb 0 (Rsum (npairs temp)).

(** [self.results[(i,j)] = temp.copy(); self += temp] *)
Definition record (st : state) (k : key) (temp : T) : state :=
  {| total := iadd (total st) temp; results := dict_set (results st) k temp |}.

(** [self._add_tot(temp)] *)
Definition skip (st : state) (temp : T) : state :=
  {| total := _add_tot (total st) temp; results := results st |}.

(** The inner loop of [_process_all_auto] for patch [i]. *)
Definition auto_inner (i : nat) (c1 : Cat) (cat1 : list Cat) (st : state * T)
  : state * T :=
  fold_left
    (fun (acc : state * T) (jc : nat * Cat) =>
       let (st, temp) := acc in
       let j := patch_of jc in
       if (i <? j)%nat then
         let temp := process_cross (clear temp) c1 (snd jc) in
         if has_pairs temp then (record st (i, j) temp, temp)
         else (skip st temp, temp)
       else acc)
    (enumerate cat1) st.

Definition _process_all_auto (st : state) (cat1 : list Cat) : state :=
  match cat1 with
  | [c] => {| total := process_auto (total st) c; results := results st |}
  | _ =>
      fst (fold_left
             (fun (acc : state * T) (ic : nat * Cat) =>
                let (st, temp) := acc in
                let i := patch_of ic in
                let temp := process_auto (clear temp) (snd ic) in
                auto_inner i (snd ic) cat1 (record st (i, i) temp, temp))
             (enumerate cat1) (st, total st))
  end.

(** The [pairwise] branch of [_process_all_cross]. *)
Fixpoint pairwise_loop (st : state) (cs : list (Cat * Cat)) : result state :=
  match cs with
  | [] => Ok st
  | (c1, c2) :: cs' =>
      _ <- guard (ntot c1 =? ntot c2)%nat
             (ValueError "Number of objects must be equal for pairwise.") ;;
      pairwise_loop {| total := process_pairwise (total st) c1 c2;
                       results := results st |} cs'
  end.

(** The inner loop of [_process_all_cross] for patch [i]. *)
Definition cross_inner (i : nat) (c1 : Cat) (cat2 : list Cat) (st : state * T)
  : state * T :=
  fold_left
    (fun (acc : state * T) (jc : nat * Cat) =>
       let (st, temp) := acc in
       let j := patch_of jc in
       let temp := process_cross (clear temp) c1 (snd jc) in
       if (i =? j)%nat || has_pairs temp then (record st (i, j) temp, temp)
       else (skip st temp, temp))
    (enumerate cat2) st.

(** [pairwise] is [treecorr.config.get(self.config,'pairwise',bool,False)]. *)
Definition _process_all_cross (pairwise : bool) (st : state) (cat1 cat2 : list Cat)
  : result state :=
  if pairwise then
    _ <- guard (length cat1 =? length cat2)%nat
           (ValueError "Number of files for 1 and 2 must be equal for pairwise.") ;;
    pairwise_loop st (combine cat1 cat2)
  else
    match cat1, cat2 with
    | [c1], [c2] =>
        Ok {| total := process_cross (total st) c1 c2; results := results st |}
    | _, _ =>
        Ok (fst (fold_left
                   (fun (acc : state * T) (ic : nat * Cat) =>
                      cross_inner (patch_of ic) (snd ic) cat2 acc)
                   (enumerate cat1) (st, total st)))
    end.

End Loops.

End Accum.

(** * Metric options: the end of [__init__], [_set_metric], [_get_minmax_size] *)

Module Metric.

(** [o1 == o2] on optional strings ([None] is Python's [None]). *)
Definition opt_eqb (o1 o2 : option string) : bool :=
  match o1, o2 with
  | Some s1, Some s2 => String.eqb s1 s2
  | None, None => true
  | _, _ => false
  end.

(** The entries of [self.config] read by lines 441-448 and by
    [_set_metric]; an absent key is [None]. *)
Record config : Type := {
  cfg_metric : option string;
  cfg_sep_units : option string;
  cfg_min_rpar : option R;
  cfg_max_rpar : option R;
  cfg_period : option R;
  cfg_xperiod : option R;
  cfg_yperiod : option R;
  cfg_zperiod : option R
}.

(** The attributes of the object that the metric options use.  [_coords]
    and [_metric] do not exist before the first [_set_metric]. *)
Record attrs : Type := {
  sep_units : string;
  min_rpar : R;
  max_rpar : R;
  xperiod : R;
  yperiod : R;
  zperiod : R;
  coords : option string;
  metric : option string;
  _coords : option Z;
  _metric : option Z
}.

Definition get_or {A : Type} (o : option A) (default : A) : A :=
  match o with Some x => x | None => default end.

(** The metrics for which [min_rpar] and [max_rpar] make sense. *)
Definition rpar_metrics : list string :=
  ["Rperp"; "OldRperp"; "FisherRperp"; "Rlens"; "Arc"]%string.

Definition string_in (s : string) (l : list string) : bool := existsb (String.eqb s) l.

Section WithEnvironment.

(** [sys.float_info.max], and the helpers of [treecorr.util], which are
    not part of this file. *)
Variable float_max : R.
Variable parse_metric : string -> string -> option string -> result (string * string).
Variable coord_enum : string -> Z.
Variable metric_enum : string -> Z.

(** Lines 275 and 439-448 of [__init__]. *)
Definition init_metric (cfg : config) : result attrs :=
  let min_rpar := get_or (cfg_min_rpar cfg) (- float_max) in
  let max_rpar := get_or (cfg_max_rpar cfg) float_max in
  _ <- guard (negb (Rltb max_rpar min_rpar)) (ValueError "min_rpar must be <= max_rpar") ;;
  let period := get_or (cfg_period cfg) 0 in
  Ok {| sep_units := get_or (cfg_sep_units cfg) EmptyString;
        min_rpar := min_rpar;
        max_rpar := max_rpar;
        xperiod := get_or (cfg_xperiod cfg) period;
        yperiod := get_or (cfg_yperiod cfg) period;
        zperiod := get_or (cfg_zperiod cfg) period;
        coords := None;
        metric := None;
        _coords := None;
        _metric := None |}.

Definition coords_warning : string :=
  "Detected a change in catalog coordinate systems.".
Definition metric_warning : string := "Detected a change in metric.".

(** [_set_metric(metric, coords1, coords2)]: the object afterwards and the
    warnings logged. *)
Definition _set_metric (cfg : config) (self : attrs)
    (metric_arg : option string) (coords1 : string) (coords2 : option string)
  : result (attrs * list string) :=
  let metric0 :=
    match metric_arg with
    | None => get_or (cfg_metric cfg) "Euclidean"%string
    | Some m => m
    end in
  _ <- (if string_in metric0 rpar_metrics then Ok tt
        else
          _ <- guard (Reqb (min_rpar self) (- float_max))
                 (ValueError ("min_rpar is not valid for " ++ metric0 ++ " metric.")) ;;
          guard (Reqb (max_rpar self) float_max)
            (ValueError ("max_rpar is not valid for " ++ metric0 ++ " metric."))) ;;
  '(coords', metric') <- parse_metric metric0 coords1 coords2 ;;
  _ <- guard (negb (negb (String.eqb (sep_units self) EmptyString) && String.eqb coords' "3d"
                    && negb (String.eqb metric' "Arc")))
         (ValueError "sep_units is invalid with 3d coordinates. min_sep and max_sep should be in the same units as r (or x,y,z).") ;;
  let warnings :=
    if negb (opt_eqb (coords self) None) || negb (opt_eqb (metric self) None) then
      (if negb (opt_eqb (Some coords') (coords self)) then [coords_warning] else []) ++
      (if negb (opt_eqb (Some metric') (metric self)) then [metric_warning] else [])
    else [] in
  _ <- (if String.eqb metric' "Periodic" then
          guard (negb (Reqb (xperiod self) 0 || Reqb (yperiod self) 0
                       || (String.eqb coords' "3d" && Reqb (zperiod self) 0)))
            (ValueError "Periodic metric requires setting the period to use.")
        else
          guard (negb (negb (Reqb (xperiod self) 0) || negb (Reqb (yperiod self) 0)
                       || negb (Reqb (zperiod self) 0)))
            (ValueError ("period options are not valid for " ++ metric' ++ " metric."))) ;;
  Ok ({| sep_units := sep_units self;
         min_rpar := min_rpar self;
         max_rpar := max_rpar self;
         xperiod := xperiod self;
         yperiod := yperiod self;
         zperiod := zperiod self;
         coords := Some coords';
         metric := Some metric';
         _coords := Some (coord_enum coords');
         _metric := Some (metric_enum metric') |}, warnings).

End WithEnvironment.

(** [_get_minmax_size()], on the attributes of the binning. *)
Definition _get_minmax_size (self : attrs) (r : Binning.BinnedCorr2) : result (R * R) :=
  if opt_eqb (metric self) (Some "Euclidean"%string) then
    min_size <- py_div (Binning._min_sep r * Binning.b r) (2 + 3 * Binning.b r) ;;
    let max_size := Binning._max_sep r * Binning.b r in
    Ok (min_size, max_size)
  else Ok (0, 0).

End Metric.

(** * Properties *)

Lemma Rltb_true x y : Rltb x y = true <-> x < y.
Proof. unfold Rltb; destruct (Rlt_dec x y); split; intros; try discriminate; auto; lra. Qed.

Lemma Rltb_false x y : Rltb x y = false <-> y <= x.
Proof. unfold Rltb; destruct (Rlt_dec x y); split; intros; try discriminate; auto; lra. Qed.

Lemma Rleb_true x y : Rleb x y = true <-> x <= y.
Proof. unfold Rleb; destruct (Rle_dec x y); split; intros; try discriminate; auto; lra. Qed.

Lemma Rleb_false x y : Rleb x y = false <-> y < x.
Proof. unfold Rleb; destruct (Rle_dec x y); split; intros; try discriminate; auto; lra. Qed.

Lemma Reqb_true x y : Reqb x y = true <-> x = y.
Proof. unfold Reqb; destruct (Req_dec_T x y); split; intros; try discriminate; auto; lra. Qed.

Lemma Reqb_false x y : Reqb x y = false <-> x <> y.
Proof. unfold Reqb; destruct (Req_dec_T x y); split; intros; try discriminate; auto; contradiction. Qed.

Lemma ceil_spec x : IZR (ceil x) - 1 < x <= IZR (ceil x).
Proof.
  unfold ceil. rewrite opp_IZR.
  destruct (base_Int_part (- x)) as [H1 H2]. lra.
Qed.

Lemma ceil_unique x z : IZR z - 1 < x <= IZR z -> ceil x = z.
Proof.
  intros [H1 H2]. destruct (ceil_spec x) as [H3 H4].
  assert (Hlt1 : IZR (ceil x) < IZR z + 1) by lra.
  assert (Hlt2 : IZR z < IZR (ceil x) + 1) by lra.
  rewrite <- plus_IZR in Hlt1, Hlt2.
  apply lt_IZR in Hlt1. apply lt_IZR in Hlt2. lia.
Qed.

Lemma ceil_pos x : 0 < x -> (0 < ceil x)%Z.
Proof.
  intros Hx. destruct (ceil_spec x) as [_ H].
  apply lt_IZR. lra.
Qed.

Lemma py_min_Rmin a b : py_min a b = Rmin a b.
Proof.
  unfold py_min, Rmin, Rltb.
  destruct (Rlt_dec b a), (Rle_dec a b); lra.
Qed.

(** ** Tactics for evaluating the model on concrete reals *)

Lemma Rltb_true_intro x y : x < y -> Rltb x y = true.
Proof. apply Rltb_true. Qed.
Lemma Rltb_false_intro x y : y <= x -> Rltb x y = false.
Proof. apply Rltb_false. Qed.
Lemma Rleb_true_intro x y : x <= y -> Rleb x y = true.
Proof. apply Rleb_true. Qed.
Lemma Rleb_false_intro x y : y < x -> Rleb x y = false.
Proof. apply Rleb_false. Qed.
Lemma Reqb_true_intro x y : x = y -> Reqb x y = true.
Proof. apply Reqb_true. Qed.
Lemma Reqb_false_intro x y : x <> y -> Reqb x y = false.
Proof. apply Reqb_false. Qed.

Ltac decide_cmp tac :=
  repeat match goal with
  | |- context [Rltb ?x ?y] =>
      first [ rewrite (Rltb_true_intro x y) by tac
            | rewrite (Rltb_false_intro x y) by tac ]
  | |- context [Rleb ?x ?y] =>
      first [ rewrite (Rleb_true_intro x y) by tac
            | rewrite (Rleb_false_intro x y) by tac ]
  | |- context [Reqb ?x ?y] =>
      first [ rewrite (Reqb_true_intro x y) by tac
            | rewrite (Reqb_false_intro x y) by tac ]
  end.

Lemma py_div_ok x y : y <> 0 -> py_div x y = Ok (x / y).
Proof. intros H. unfold py_div. now rewrite (Reqb_false_intro _ _ H). Qed.

Lemma py_div_zero x : py_div x 0 = Raise ZeroDivisionError.
Proof. unfold py_div. now rewrite Reqb_true_intro. Qed.

Lemma math_log_ok x : 0 < x -> math_log x = Ok (ln x).
Proof. intros H. unfold math_log. now rewrite (Rltb_true_intro _ _ H). Qed.

Lemma ln_div_pos mn mx : 0 < mn -> mn < mx -> 0 < ln (mx / mn).
Proof.
  intros Hmn Hlt. rewrite <- ln_1. apply ln_increasing; [lra|].
  apply Rmult_lt_reg_r with mn; [assumption|].
  unfold Rdiv. rewrite Rmult_assoc, Rinv_l by lra. lra.
Qed.

Lemma nth_map_lt {A B : Type} (f : A -> B) (l : list A) (i : nat) (d : A) (d' : B) :
  (i < length l)%nat -> nth i (map f l) d' = f (nth i l d).
Proof.
  intros H. rewrite (nth_indep (map f l) d' (f d)) by now rewrite length_map.
  apply map_nth.
Qed.

(** * Properties of the bin geometry *)

Module BinningFacts.
Import Binning.

(** A configuration error: the [TypeError]s and [ValueError]s of the
    constructor. *)
Definition is_config_error {A : Type} (m : result A) : Prop :=
  exists msg, m = Raise (TypeError msg) \/ m = Raise (ValueError msg).

Lemma config_error_bind {A B : Type} (m : result A) (f : A -> result B) :
  is_config_error m -> is_config_error (x <- m ;; f x).
Proof. intros [msg [-> | ->]]; exists msg; simpl; auto. Qed.

Lemma init_error_of_read_params cfg :
  is_config_error (read_params cfg) -> is_config_error (__init__ cfg).
Proof.
  intros H. unfold __init__, resolve_layout. unfold math_log.
  destruct (Rltb 0 (cfg_sep_units cfg)); simpl.
  - now do 2 apply config_error_bind.
  - eexists; right; reflexivity.
Qed.

(** *** Log binning *)

Lemma linspace_ok start stop num :
  (0 <= num)%Z ->
  linspace start stop num =
  Ok (map (fun i => INR i * ((stop - start) / IZR num) + start) (seq 0 (Z.to_nat num))).
Proof.
  intros H. unfold linspace.
  destruct (Z.ltb_spec num 0); [lia | reflexivity].
Qed.

Lemma linspace_length start stop num l :
  linspace start stop num = Ok l -> length l = Z.to_nat num.
Proof.
  unfold linspace. destruct (num <? 0)%Z; [discriminate|].
  intros [= <-]. now rewrite length_map, length_seq.
Qed.

Lemma linspace_nth start stop num l i :
  linspace start stop num = Ok l -> (i < Z.to_nat num)%nat ->
  nth i l 0 = INR i * ((stop - start) / IZR num) + start.
Proof.
  unfold linspace. destruct (num <? 0)%Z; [discriminate|].
  intros [= <-] Hi.
  rewrite (nth_map_lt _ _ _ 0%nat) by now rewrite length_seq.
  now rewrite seq_nth.
Qed.

(** The arrays that lines 332-340 build, read off a resolved Log binning:
    [nbins] centers, evenly spaced in [log(sep)] from
    [log(min_sep) + bin_size/2] in steps of [bin_size]; the nominal
    separations are their exponentials and the edges are these divided and
    multiplied by [exp(bin_size/2)]. *)
Definition log_geometry (r : BinnedCorr2) : Prop :=
  exists logr rnom left_edges right_edges,
    geom r = GeomLog logr rnom left_edges right_edges /\
    length logr = Z.to_nat (nbins r) /\
    length rnom = Z.to_nat (nbins r) /\
    length left_edges = Z.to_nat (nbins r) /\
    length right_edges = Z.to_nat (nbins r) /\
    forall i, (i < Z.to_nat (nbins r))%nat ->
      nth i logr 0 = ln (min_sep r) + bin_size r / 2 + INR i * bin_size r /\
      nth i rnom 0 = exp (nth i logr 0) /\
      nth i left_edges 0 = nth i rnom 0 / exp (bin_size r / 2) /\
      nth i right_edges 0 = nth i rnom 0 * exp (bin_size r / 2).

(** The rule by which the missing parameter is derived. *)
Definition log_rule (cfg : config) (r : BinnedCorr2) : Prop :=
  match cfg_nbins cfg, cfg_bin_size cfg, cfg_min_sep cfg, cfg_max_sep cfg with
  | None, Some bs, Some mn, Some mx =>
      nbins r = ceil (ln (mx / mn) / bs) /\
      bin_size r = ln (mx / mn) / IZR (nbins r) /\
      min_sep r = mn /\ max_sep r = mx
  | Some nb, None, Some mn, Some mx =>
      nbins r = nb /\ bin_size r = ln (mx / mn) / IZR nb /\
      min_sep r = mn /\ max_sep r = mx
  | Some nb, Some bs, Some mn, None =>
      nbins r = nb /\ bin_size r = bs /\
      min_sep r = mn /\ max_sep r = mn * exp (IZR nb * bs)
  | Some nb, Some bs, None, Some mx =>
      nbins r = nb /\ bin_size r = bs /\
      min_sep r = mx * exp (- (IZR nb * bs)) /\ max_sep r = mx
  | _, _, _, _ => False
  end.

(** A valid Log specification: exactly three of the four parameters, each
    supplied one positive, and [min_sep < max_sep] when both are there. *)
Record valid_log (cfg : config) : Prop := {
  vl_type : cfg_bin_type cfg = Log;
  vl_count : count_given cfg = 3%nat;
  vl_units : 0 < cfg_sep_units cfg;
  vl_nbins : forall nb, cfg_nbins cfg = Some nb -> (0 < nb)%Z;
  vl_bin_size : forall bs, cfg_bin_size cfg = Some bs -> 0 < bs;
  vl_min_sep : forall mn, cfg_min_sep cfg = Some mn -> 0 < mn;
  vl_max_sep : forall mx, cfg_max_sep cfg = Some mx -> 0 < mx;
  vl_order : forall mn mx,
      cfg_min_sep cfg = Some mn -> cfg_max_sep cfg = Some mx -> mn < mx
}.

Lemma log_arrays_ok nb bs mn mx :
  (0 < nb)%Z -> 0 < mn -> bs <> 0 ->
  exists l, log_arrays (nb, bs, mn, mx) = Ok l /\
    l_nbins l = nb /\ l_bin_size l = bs /\ l_min_sep l = mn /\ l_max_sep l = mx /\
    l_min_log_bin_size l = bs /\ l_max_good_slop l = 0.1 / bs /\
    exists logr rnom left_edges right_edges,
      l_geom l = GeomLog logr rnom left_edges right_edges /\
      length logr = Z.to_nat nb /\
      length rnom = Z.to_nat nb /\
      length left_edges = Z.to_nat nb /\
      length right_edges = Z.to_nat nb /\
      forall i, (i < Z.to_nat nb)%nat ->
        nth i logr 0 = ln mn + bs / 2 + INR i * bs /\
        nth i rnom 0 = exp (nth i logr 0) /\
        nth i left_edges 0 = nth i rnom 0 / exp (bs / 2) /\
        nth i right_edges 0 = nth i rnom 0 * exp (bs / 2).
Proof.
  intros Hnb Hmn Hbs.
  assert (Hnb0 : IZR nb <> 0) by (apply not_0_IZR; lia).
  unfold log_arrays.
  destruct (linspace 0 (IZR nb * bs) nb) as [lin|] eqn:Hlin;
    [| rewrite linspace_ok in Hlin by lia; discriminate].
  pose proof (linspace_length _ _ _ _ Hlin) as Hlen.
  simpl. rewrite math_log_ok by assumption. simpl.
  rewrite py_div_ok by assumption. simpl.
  eexists. split; [reflexivity|]. simpl.
  repeat (split; [reflexivity|]).
  do 4 eexists. split; [reflexivity|].
  rewrite !length_map.
  repeat (split; [exact Hlen|]).
  intros i Hi.
  assert (Hlogr : nth i (map (fun x => x + (ln mn + 0.5 * bs)) lin) 0 =
                  ln mn + bs / 2 + INR i * bs).
  { rewrite (nth_map_lt _ _ _ 0) by lia.
    rewrite (linspace_nth _ _ _ _ _ Hlin Hi).
    replace (0.5 * bs) with (bs / 2) by lra. field. exact Hnb0. }
  split; [exact Hlogr|].
  assert (Hrnom : nth i (map exp (map (fun x => x + (ln mn + 0.5 * bs)) lin)) 0 =
                  exp (nth i (map (fun x => x + (ln mn + 0.5 * bs)) lin) 0)).
  { rewrite (nth_map_lt _ _ _ 0) by (rewrite length_map; lia). reflexivity. }
  split; [exact Hrnom|].
  replace (bs / 2) with (0.5 * bs) by lra.
  split; rewrite (nth_map_lt _ _ _ 0) by (rewrite !length_map; lia); reflexivity.
Qed.

Lemma init_log_ok cfg q :
  cfg_bin_type cfg = Log -> 0 < cfg_sep_units cfg ->
  (p <- read_params cfg ;; log_params p) = Ok q ->
  (0 < fst (fst (fst q)))%Z -> 0 < snd (fst q) -> snd (fst (fst q)) <> 0 ->
  exists r, __init__ cfg = Ok r /\
    nbins r = fst (fst (fst q)) /\ bin_size r = snd (fst (fst q)) /\
    min_sep r = snd (fst q) /\ max_sep r = snd q /\ log_geometry r.
Proof.
  intros Hbt Hsu Hpq Hnb Hmn Hbs.
  destruct (read_params cfg) as [p|] eqn:Hp; [|discriminate].
  cbn [bind] in Hpq. rename Hpq into Hq.
  destruct q as [[[nb bs] mn] mx]; simpl in Hnb, Hmn, Hbs |- *.
  destruct (log_arrays_ok nb bs mn mx Hnb Hmn Hbs)
    as (l & Hl & Hlnb & Hlbs & Hlmn & Hlmx & _ & _ & Hgeom).
  unfold __init__, resolve_layout. rewrite math_log_ok by assumption. cbn [bind].
  rewrite Hp. cbn [bind]. rewrite Hbt. unfold layout_log. rewrite Hq. cbn [bind].
  rewrite Hl. cbn [bind].
  eexists. split; [reflexivity|]. simpl.
  repeat (split; [assumption|]).
  unfold log_geometry; simpl. rewrite Hlnb, Hlbs, Hlmn. exact Hgeom.
Qed.

(** The scenario of the specification: [min_sep=1, max_sep=10, nbins=5]. *)
Definition log_1_10_5 : config :=
  {| cfg_bin_type := Log; cfg_nbins := Some 5%Z; cfg_bin_size := None;
     cfg_min_sep := Some 1; cfg_max_sep := Some 10; cfg_bin_slop := None;
     cfg_sep_units := 1 |}.

Lemma valid_log_1_10_5 : valid_log log_1_10_5.
Proof.
  split; simpl; try reflexivity; try lra; try discriminate.
  - intros nb [= <-]. lia.
  - intros mn [= <-]. lra.
  - intros mx [= <-]. lra.
  - intros mn mx [= <-] [= <-]. lra.
Qed.

Lemma log_rule_and_geometry cfg :
  valid_log cfg -> exists r, __init__ cfg = Ok r /\ log_rule cfg r /\ log_geometry r.
Proof.
  intros [Hbt Hc Hsu Hnb Hbs Hmn Hmx Hord].
  destruct cfg as [bt nb bs mn mx sl su]; simpl in *. subst bt.
  unfold count_given in Hc; simpl in Hc.
  destruct nb as [nb|], bs as [bs|], mn as [mn|], mx as [mx|];
    simpl in Hc; try discriminate.
  - (* max_sep missing *)
    specialize (Hnb _ eq_refl). specialize (Hbs _ eq_refl). specialize (Hmn _ eq_refl).
    edestruct (init_log_ok
                 {| cfg_bin_type := Log; cfg_nbins := Some nb; cfg_bin_size := Some bs;
                    cfg_min_sep := Some mn; cfg_max_sep := None;
                    cfg_bin_slop := sl; cfg_sep_units := su |}
                 (nb, bs, mn, exp (IZR nb * bs) * mn))
      as (r & Hr & H1 & H2 & H3 & H4 & Hg); simpl; try eassumption; try reflexivity.
    + lra.
    + exists r. split; [exact Hr|]. split; [|exact Hg].
      unfold log_rule; simpl in *. repeat split; try assumption.
      rewrite H4. apply Rmult_comm.
  - (* min_sep missing *)
    specialize (Hnb _ eq_refl). specialize (Hbs _ eq_refl). specialize (Hmx _ eq_refl).
    edestruct (init_log_ok
                 {| cfg_bin_type := Log; cfg_nbins := Some nb; cfg_bin_size := Some bs;
                    cfg_min_sep := None; cfg_max_sep := Some mx;
                    cfg_bin_slop := sl; cfg_sep_units := su |}
                 (nb, bs, mx * exp (- IZR nb * bs), mx))
      as (r & Hr & H1 & H2 & H3 & H4 & Hg); simpl; try eassumption; try reflexivity.
    + apply Rmult_lt_0_compat; [assumption | apply exp_pos].
    + lra.
    + exists r. split; [exact Hr|]. split; [|exact Hg].
      unfold log_rule; simpl in *. repeat split; try assumption.
      rewrite H3. f_equal. f_equal. ring.
  - (* bin_size missing *)
    specialize (Hnb _ eq_refl). specialize (Hmn _ eq_refl). specialize (Hmx _ eq_refl).
    specialize (Hord _ _ eq_refl eq_refl).
    assert (Hnb0 : IZR nb <> 0) by (apply not_0_IZR; lia).
    assert (Hq : mn <> 0) by lra.
    pose proof (ln_div_pos mn mx Hmn Hord) as Hln.
    assert (Hdiv : mx / mn > 0).
    { apply Rdiv_lt_0_compat; lra. }
    edestruct (init_log_ok
                 {| cfg_bin_type := Log; cfg_nbins := Some nb; cfg_bin_size := None;
                    cfg_min_sep := Some mn; cfg_max_sep := Some mx;
                    cfg_bin_slop := sl; cfg_sep_units := su |}
                 (nb, ln (mx / mn) / IZR nb, mn, mx))
      as (r & Hr & H1 & H2 & H3 & H4 & Hg); simpl; try eassumption; try reflexivity.
    + unfold read_params, get_min_sep, missing_min_sep; simpl.
      rewrite Rleb_false_intro by lra. simpl.
      unfold log_params; simpl.
      rewrite py_div_ok by assumption; simpl.
      rewrite math_log_ok by lra; simpl.
      rewrite py_div_ok by assumption. reflexivity.
    + apply Rgt_not_eq. apply Rdiv_lt_0_compat; [lra|].
      apply IZR_lt in Hnb. lra.
    + exists r. split; [exact Hr|]. split; [|exact Hg].
      unfold log_rule; simpl in *. repeat split; assumption.
  - (* nbins missing *)
    specialize (Hbs _ eq_refl). specialize (Hmn _ eq_refl). specialize (Hmx _ eq_refl).
    specialize (Hord _ _ eq_refl eq_refl).
    assert (Hq : mn <> 0) by lra.
    pose proof (ln_div_pos mn mx Hmn Hord) as Hln.
    assert (Hdiv : mx / mn > 0).
    { apply Rdiv_lt_0_compat; lra. }
    assert (Hd : 0 < ln (mx / mn) / bs) by (apply Rdiv_lt_0_compat; lra).
    clear Hnb. pose proof (ceil_pos _ Hd) as Hnb.
    assert (Hnb0 : IZR (ceil (ln (mx / mn) / bs)) <> 0) by (apply not_0_IZR; lia).
    edestruct (init_log_ok
                 {| cfg_bin_type := Log; cfg_nbins := None; cfg_bin_size := Some bs;
                    cfg_min_sep := Some mn; cfg_max_sep := Some mx;
                    cfg_bin_slop := sl; cfg_sep_units := su |}
                 (ceil (ln (mx / mn) / bs),
                    ln (mx / mn) / IZR (ceil (ln (mx / mn) / bs)), mn, mx))
      as (r & Hr & H1 & H2 & H3 & H4 & Hg); simpl; try eassumption; try reflexivity.
    + unfold read_params, get_min_sep, missing_min_sep; simpl.
      rewrite Rleb_false_intro by lra. simpl.
      unfold log_params; simpl.
      rewrite py_div_ok by assumption; simpl.
      rewrite math_log_ok by lra; simpl.
      rewrite py_div_ok by lra; simpl.
      rewrite py_div_ok by assumption. reflexivity.
    + apply Rgt_not_eq. apply Rdiv_lt_0_compat; [lra|].
      apply IZR_lt in Hnb. lra.
    + exists r. split; [exact Hr|]. split; [|exact Hg].
      unfold log_rule; simpl in *. rewrite H1. repeat split; assumption.
Qed.

(** C1: for every valid Log specification the constructor succeeds, the
    missing parameter is derived by the stated rule ([nbins] by rounding up,
    with [bin_size] recomputed; [bin_size], [max_sep], [min_sep] by their
    formulas), the centers are evenly spaced in [log(sep)] from
    [log(min_sep) + bin_size/2], and the edges are the centers divided and
    multiplied by [exp(bin_size/2)].  In particular [min_sep=1, max_sep=10,
    nbins=5] gives [bin_size = log(10)/5] and the first center
    [exp(log(1) + 0.5*bin_size)]. *)
Theorem C1_log_resolution :
  (forall cfg, valid_log cfg ->
     exists r, __init__ cfg = Ok r /\ log_rule cfg r /\ log_geometry r) /\
  (exists r logr rnom left_edges right_edges,
     __init__ log_1_10_5 = Ok r /\
     bin_size r = ln 10 / 5 /\
     geom r = GeomLog logr rnom left_edges right_edges /\
     nth 0 rnom 0 = exp (ln 1 + 0.5 * bin_size r)).
Proof.
  split; [exact log_rule_and_geometry|].
  destruct (log_rule_and_geometry _ valid_log_1_10_5) as (r & Hr & Hrule & Hg).
  unfold log_rule in Hrule; simpl in Hrule.
  destruct Hrule as (Hnb & Hbs & Hmn & Hmx).
  destruct Hg as (logr & rnom & le & re & Hgeom & _ & _ & _ & _ & Hnth).
  exists r, logr, rnom, le, re.
  split; [exact Hr|].
  split; [rewrite Hbs; replace (10 / 1) with 10 by lra; reflexivity|].
  split; [exact Hgeom|].
  destruct (Hnth 0%nat) as (H1 & H2 & _).
  { rewrite Hnb. simpl. lia. }
  rewrite H2, H1, Hmn. f_equal. simpl. lra.
Qed.

(** C1 at the scenario of the specification. *)
Lemma C1_log_resolution_witness :
  exists r, __init__ log_1_10_5 = Ok r /\ log_rule log_1_10_5 r /\ log_geometry r.
Proof.
  apply (proj1 C1_log_resolution log_1_10_5).
  split; simpl; try reflexivity; try lra; try discriminate.
  - intros nb [= <-]. lia.
  - intros mn [= <-]. lra.
  - intros mx [= <-]. lra.
  - intros mn mx [= <-] [= <-]. lra.
Defined.

(** TwoD with [min_sep], [max_sep] and [bin_size] supplied. *)
Definition twod_with_min_sep : config :=
  {| cfg_bin_type := TwoD; cfg_nbins := None; cfg_bin_size := Some 1;
     cfg_min_sep := Some 1; cfg_max_sep := Some 10; cfg_bin_slop := None;
     cfg_sep_units := 1 |}.

Lemma ceil_20 : ceil (2 * 10 / 1) = 20%Z.
Proof. apply ceil_unique. lra. Qed.

Lemma twod_with_min_sep_resolves :
  exists r, __init__ twod_with_min_sep = Ok r /\
            nbins r = 20%Z /\ bin_size r = 1 /\ min_sep r = 1 /\ max_sep r = 10.
Proof.
  unfold __init__, resolve_layout, finish, twod_with_min_sep; simpl.
  rewrite math_log_ok by lra; simpl.
  unfold read_params, get_min_sep; simpl.
  decide_cmp lra; simpl.
  unfold layout_twod, twod_params, twod_arrays; simpl.
  rewrite (py_div_ok (2 * 10) 1) by lra; simpl.
  rewrite ceil_20. rewrite (py_div_ok (2 * 10) 20) by lra; simpl.
  rewrite (py_div_ok _ 10) by lra; simpl.
  rewrite (py_div_ok _ (1 + _)) by lra; simpl.
  rewrite (py_div_ok 0.1) by lra; simpl.
  eexists; split; [reflexivity|]; simpl.
  repeat split; lra.
Qed.

(** C6, as stated, fails: a TwoD specification that supplies [min_sep]
    (three of the four parameters in all) is resolved without error. *)
Lemma C6_twod_min_sep_accepted :
  cfg_bin_type twod_with_min_sep = TwoD /\
  cfg_min_sep twod_with_min_sep = Some 1 /\
  count_given twod_with_min_sep = 3%nat /\
  ~ (exists e, __init__ twod_with_min_sep = Raise e).
Proof.
  repeat split.
  destruct twod_with_min_sep_resolves as [r [Hr _]].
  intros [e He]. rewrite Hr in He. discriminate.
Qed.

(** C6 (amended): the constructor raises a configuration error whenever
    (a) the bin type is Log or Linear and the caller did not supply exactly
    three of [nbins], [bin_size], [min_sep], [max_sep]; or
    (b) the bin type is TwoD and the caller did not supply exactly two of
    [nbins], [bin_size], [max_sep]; or
    (c) [min_sep] and [max_sep] are both supplied and [min_sep >= max_sep].
    For TwoD, [min_sep] is optional (default 0): with exactly two of
    [nbins], [bin_size], [max_sep], and [max_sep] (when supplied) above
    [min_sep], the parameter check passes and keeps the caller's
    [min_sep]. *)
Theorem C6_config_errors :
  (forall cfg,
      (cfg_bin_type cfg <> TwoD /\ count_given cfg <> 3%nat) \/
      (cfg_bin_type cfg = TwoD /\ count_given_twod cfg <> 2%nat) \/
      (exists mn mx, cfg_min_sep cfg = Some mn /\ cfg_max_sep cfg = Some mx /\ mn >= mx) ->
      is_config_error (read_params cfg) /\ is_config_error (__init__ cfg)) /\
  (forall cfg,
      cfg_bin_type cfg = TwoD ->
      count_given_twod cfg = 2%nat ->
      (forall mx, cfg_max_sep cfg = Some mx -> get_min_sep cfg < mx) ->
      exists p, read_params cfg = Ok p /\ p_min_sep p = Some (get_min_sep cfg)).
Proof.
  split.
  - intros cfg H.
    assert (Hr : is_config_error (read_params cfg)).
    { destruct cfg as [bt nb bs mn mx sl su].
      unfold read_params, count_given, count_given_twod, missing_min_sep, get_min_sep in *;
        simpl in *.
      destruct H as [[Hbt Hc] | [[Hbt Hc] | [mn' [mx' [Hmn [Hmx Hge]]]]]].
      + destruct bt; try congruence;
          destruct nb, bs, mn, mx; simpl in *; try congruence;
          try (eexists; left; reflexivity);
          try (destruct (Rleb _ _); simpl; eexists; right; reflexivity).
      + subst bt.
        destruct nb, bs, mx; simpl in *; try congruence;
          try (eexists; left; reflexivity);
          destruct mn; simpl; try (eexists; left; reflexivity).
      + subst mn mx.
        destruct bt, nb, bs; simpl;
          try (eexists; left; reflexivity);
          rewrite Rleb_true_intro by lra; simpl; eexists; right; reflexivity. }
    split; [exact Hr | now apply init_error_of_read_params].
  - intros cfg Hbt Hc Hlt.
    destruct cfg as [bt nb bs mn mx sl su].
    unfold read_params, count_given_twod, missing_min_sep, get_min_sep in *; simpl in *.
    subst bt.
    destruct nb, bs, mx; simpl in *; try discriminate;
      rewrite ?andb_false_r; simpl;
      try rewrite (Rleb_false_intro _ _ (Hlt _ eq_refl)); simpl;
      eexists; split; reflexivity.
Qed.

(** C6 (amended), instantiated: all four parameters for Log are rejected;
    TwoD with [min_sep], [max_sep] and [bin_size] passes the check. *)
Lemma C6_config_errors_witness :
  is_config_error
    (__init__ {| cfg_bin_type := Log; cfg_nbins := Some 5%Z; cfg_bin_size := Some 1;
             cfg_min_sep := Some 1; cfg_max_sep := Some 10; cfg_bin_slop := None;
             cfg_sep_units := 1 |}) /\
  exists p, read_params twod_with_min_sep = Ok p /\ p_min_sep p = Some 1.
Proof.
  split.
  - apply (proj1 C6_config_errors). left. split; [discriminate | cbv; discriminate].
  - apply (proj2 C6_config_errors twod_with_min_sep).
    + reflexivity.
    + reflexivity.
    + intros mx [= <-]. unfold get_min_sep, twod_with_min_sep; simpl. lra.
Defined.

(** *** [bin_slop] and the traversal tolerance [b] *)

Lemma py_div_inv x y z : py_div x y = Ok z -> z = x / y /\ y <> 0.
Proof.
  unfold py_div. destruct (Reqb y 0) eqn:E; [discriminate|].
  intros [= <-]. split; [reflexivity | now apply Reqb_false].
Qed.

Ltac inv_bind H :=
  match type of H with
  | bind ?m _ = Ok _ =>
      let x := fresh "x" in
      let E := fresh "E" in
      destruct m as [x|] eqn:E; [cbn [bind] in H | discriminate H]
  end.

(** [max_log_bin_size] of lines 344, 368 and 394, on the resolved values. *)
Definition max_log_bin_size (r : BinnedCorr2) : R :=
  match bin_type_of r with
  | Log => bin_size r
  | Linear | TwoD => bin_size r / (min_sep r + bin_size r / 2)
  end.

(** [min_log_bin_size] of lines 343, 367 and 393, before line 411. *)
Definition min_log_bin_size (r : BinnedCorr2) : R :=
  match bin_type_of r with
  | Log => bin_size r
  | Linear | TwoD => bin_size r / max_sep r
  end.

Definition with_bin_slop (cfg : config) (s : option R) : config :=
  {| cfg_bin_type := cfg_bin_type cfg; cfg_nbins := cfg_nbins cfg;
     cfg_bin_size := cfg_bin_size cfg; cfg_min_sep := cfg_min_sep cfg;
     cfg_max_sep := cfg_max_sep cfg; cfg_bin_slop := s;
     cfg_sep_units := cfg_sep_units cfg |}.

Lemma log_arrays_slop q l :
  log_arrays q = Ok l ->
  l_min_log_bin_size l = l_bin_size l /\ l_max_good_slop l = 0.1 / l_bin_size l.
Proof.
  destruct q as [[[nb bs] mn] mx]. unfold log_arrays. intros H.
  repeat inv_bind H. injection H as <-. simpl.
  apply py_div_inv in E1. destruct E1 as [-> _]. split; reflexivity.
Qed.

Lemma linear_arrays_slop q l :
  linear_arrays q = Ok l ->
  l_min_log_bin_size l = l_bin_size l / l_max_sep l /\
  l_max_good_slop l = 0.1 / (l_bin_size l / (l_min_sep l + l_bin_size l / 2)).
Proof.
  destruct q as [[[nb bs] mn] mx]. unfold linear_arrays. intros H.
  repeat inv_bind H. injection H as <-. simpl.
  apply py_div_inv in E0, E1, E2.
  destruct E0 as [-> _], E1 as [-> _], E2 as [-> _]. split; reflexivity.
Qed.

Lemma twod_arrays_slop o q l :
  twod_arrays o q = Ok l ->
  l_min_log_bin_size l = l_bin_size l / l_max_sep l /\
  l_max_good_slop l = 0.1 / (l_bin_size l / (l_min_sep l + l_bin_size l / 2)).
Proof.
  destruct q as [[nb bs] mx]. unfold twod_arrays. intros H.
  repeat inv_bind H. injection H as <-. simpl.
  apply py_div_inv in E0, E2, E3.
  destruct E0 as [-> _], E2 as [-> _], E3 as [-> _]. split; reflexivity.
Qed.

Lemma resolve_layout_slop cfg l :
  resolve_layout cfg = Ok l ->
  match cfg_bin_type cfg with
  | Log =>
      l_min_log_bin_size l = l_bin_size l /\
      l_max_good_slop l = 0.1 / l_bin_size l
  | Linear | TwoD =>
      l_min_log_bin_size l = l_bin_size l / l_max_sep l /\
      l_max_good_slop l = 0.1 / (l_bin_size l / (l_min_sep l + l_bin_size l / 2))
  end.
Proof.
  unfold resolve_layout. intros H. inv_bind H.
  destruct (cfg_bin_type cfg).
  - unfold layout_log in H. inv_bind H. eapply log_arrays_slop; eassumption.
  - unfold layout_linear in H. inv_bind H. eapply linear_arrays_slop; eassumption.
  - unfold layout_twod in H. inv_bind H. eapply twod_arrays_slop; eassumption.
Qed.

Lemma resolve_layout_with_bin_slop cfg s :
  resolve_layout (with_bin_slop cfg s) = resolve_layout cfg.
Proof. destruct cfg; reflexivity. Qed.

Lemma init_inv cfg r :
  __init__ cfg = Ok r ->
  exists lsu l, math_log (cfg_sep_units cfg) = Ok lsu /\
                resolve_layout cfg = Ok l /\ r = finish cfg lsu l.
Proof.
  unfold __init__. intros H. repeat inv_bind H. injection H as <-.
  eauto.
Qed.

(** The tolerance of the code: line 411 multiplies [min_log_bin_size] by
    [_sep_units] for Linear and TwoD. *)
Definition tolerance (cfg : config) (r : BinnedCorr2) (slop : R) : R :=
  match bin_type_of r with
  | Log => bin_size r * slop
  | Linear | TwoD => bin_size r / max_sep r * cfg_sep_units cfg * slop
  end.

(** Linear binning of [1..10] in 9 bins, separations in degrees. *)
Definition linear_degrees : config :=
  {| cfg_bin_type := Linear; cfg_nbins := Some 9%Z; cfg_bin_size := None;
     cfg_min_sep := Some 1; cfg_max_sep := Some 10; cfg_bin_slop := None;
     cfg_sep_units := PI / 180 |}.

Lemma linear_degrees_resolves :
  __init__ linear_degrees =
  Ok (finish linear_degrees (ln (PI / 180))
        {| l_nbins := 9; l_bin_size := (10 - 1) / 9; l_min_sep := 1; l_max_sep := 10;
           l_geom :=
             let lin := map (fun i => INR i * ((10 - 1) / 9) + 1) (seq 0 9) in
             let rnom := map (fun x => x + 0.5 * ((10 - 1) / 9)) lin in
             GeomLinear rnom
               (map (fun r => r - 0.5 * ((10 - 1) / 9)) rnom)
               (map (fun r => r + 0.5 * ((10 - 1) / 9)) rnom)
               (map np_log rnom);
           l__nbins := 9;
           l_min_log_bin_size := (10 - 1) / 9 / 10;
           l_max_good_slop := 0.1 / ((10 - 1) / 9 / (1 + (10 - 1) / 9 / 2)) |}).
Proof.
  pose proof PI_RGT_0 as Hpi.
  unfold __init__, resolve_layout, linear_degrees.
  cbn [cfg_sep_units cfg_bin_type].
  rewrite math_log_ok by lra. cbn [bind].
  unfold read_params, get_min_sep, missing_min_sep; simpl.
  rewrite Rleb_false_intro by lra. simpl.
  unfold layout_linear, linear_params; simpl.
  rewrite (py_div_ok (10 - 1) 9) by lra. simpl.
  rewrite (py_div_ok _ 10) by lra. simpl.
  rewrite (py_div_ok _ (1 + _)) by lra. simpl.
  rewrite (py_div_ok 0.1) by lra. simpl.
  reflexivity.
Qed.

(** C5, as stated, fails: with separations in degrees the tolerance of a
    Linear binning is not [(bin_size/max_sep) * bin_slop]. *)
Lemma C5_tolerance_scaled_by_units :
  exists r, __init__ linear_degrees = Ok r /\
            cfg_bin_slop linear_degrees = None /\
            b r <> min_log_bin_size r * bin_slop r.
Proof.
  eexists. split; [apply linear_degrees_resolves|]. split; [reflexivity|].
  pose proof PI_4 as Hpi4. pose proof PI_RGT_0 as Hpi.
  unfold min_log_bin_size, finish, get_bin_slop, linear_degrees; simpl.
  rewrite (Rltb_true_intro (-1) 0) by lra.
  unfold py_min. rewrite (Rltb_false_intro 1) by lra.
  intros H. lra.
Qed.

(** C5 (amended): on every resolved binning,
    - when the caller gives no [bin_slop], [bin_slop] is
      [min(0.1/max_log_bin_size, 1)], with [max_log_bin_size = bin_size]
      for Log and [bin_size/(min_sep + bin_size/2)] for Linear and TwoD;
    - [b = bin_size * bin_slop] for Log, and
      [b = (bin_size/max_sep) * _sep_units * bin_slop] for Linear and TwoD,
      [_sep_units] being the size of the separation unit in radians;
    - any caller-supplied [bin_slop >= 0] is accepted: the constructor
      still succeeds, resolves the same bins, keeps the caller's value,
      computes [b] from it, and logs the warning exactly when
      [bin_slop > 0.1/max_log_bin_size + 0.0001]. *)
Theorem C5_bin_slop cfg r :
  __init__ cfg = Ok r ->
  (cfg_bin_slop cfg = None ->
   bin_slop r = Rmin (0.1 / max_log_bin_size r) 1) /\
  b r = tolerance cfg r (bin_slop r) /\
  (forall s, 0 <= s ->
     exists r', __init__ (with_bin_slop cfg (Some s)) = Ok r' /\
       bin_slop r' = s /\
       b r' = tolerance cfg r s /\
       (slop_warning r' = true <-> s > 0.1 / max_log_bin_size r + 0.0001) /\
       nbins r' = nbins r /\ bin_size r' = bin_size r /\
       min_sep r' = min_sep r /\ max_sep r' = max_sep r /\ geom r' = geom r).
Proof.
  intros H. destruct (init_inv _ _ H) as (lsu & l & Hsu & Hl & ->).
  pose proof (resolve_layout_slop _ _ Hl) as Hs.
  assert (Hmgs : l_max_good_slop l = 0.1 / max_log_bin_size (finish cfg lsu l)).
  { unfold max_log_bin_size, finish; simpl. destruct (cfg_bin_type cfg); apply Hs. }
  assert (Hb : forall s,
             (if is_linear_or_twod (cfg_bin_type cfg)
              then l_min_log_bin_size l * cfg_sep_units cfg
              else l_min_log_bin_size l) * s = tolerance cfg (finish cfg lsu l) s).
  { intros s. unfold tolerance, finish; simpl.
    destruct (cfg_bin_type cfg); simpl; destruct Hs as [-> _]; reflexivity. }
  split; [|split].
  - intros Hnone. rewrite <- Hmgs. unfold finish, get_bin_slop; simpl.
    rewrite Hnone. rewrite Rltb_true_intro by lra. apply py_min_Rmin.
  - unfold finish at 1; simpl. apply Hb.
  - intros s Hs0.
    exists (finish (with_bin_slop cfg (Some s)) lsu l).
    split.
    { unfold __init__. simpl. rewrite Hsu. cbn [bind].
      rewrite resolve_layout_with_bin_slop, Hl. reflexivity. }
    unfold finish at 1 2 3; simpl. unfold get_bin_slop; simpl.
    rewrite (Rltb_false_intro s 0) by lra.
    split; [reflexivity|]. split; [apply Hb|].
    split; [| repeat split].
    rewrite Hmgs. rewrite Rltb_true. split; intros; lra.
Qed.

(** C5 (amended) at the scenario [min_sep=1, max_sep=10, nbins=5], Log. *)
Lemma C5_bin_slop_witness :
  exists r, __init__ log_1_10_5 = Ok r /\
    bin_slop r = Rmin (0.1 / max_log_bin_size r) 1 /\
    b r = tolerance log_1_10_5 r (bin_slop r).
Proof.
  destruct (log_rule_and_geometry _ valid_log_1_10_5) as (r & Hr & _).
  exists r. split; [exact Hr|].
  destruct (C5_bin_slop log_1_10_5 r Hr) as (H1 & H2 & _).
  split; [apply H1; reflexivity | exact H2].
Defined.

End BinningFacts.

(** * Properties of the covariance estimators *)

Module CovFacts.
Import Cov.

(** ** Arrays *)

Lemma entry_np_diag v i j :
  (i < length v)%nat -> (j < length v)%nat ->
  entry (finite (np_diag v)) i j = Finite (if (i =? j)%nat then nth i v 0 else 0).
Proof.
  intros Hi Hj. unfold entry, finite, np_diag. rewrite map_map.
  rewrite (nth_map_lt _ _ _ 0%nat) by now rewrite length_seq.
  rewrite map_map.
  rewrite (nth_map_lt _ _ _ 0%nat) by now rewrite length_seq.
  now rewrite !seq_nth.
Qed.

Lemma length_np_diag v : length (finite (np_diag v)) = length v.
Proof. unfold finite, np_diag. now rewrite !length_map, length_seq. Qed.

Lemma mapM_ok {A B : Type} (f : A -> result B) (g : A -> B) (l : list A) :
  Forall (fun x => f x = Ok (g x)) l -> mapM f l = Ok (map g l).
Proof.
  induction 1 as [|x l Hx _ IH]; simpl; [reflexivity|].
  now rewrite Hx, IH.
Qed.

Lemma mapM_length {A B : Type} (f : A -> result B) (l : list A) (r : list B) :
  mapM f l = Ok r -> length r = length l.
Proof.
  revert r. induction l as [|x l IH]; simpl; intros r H.
  - now injection H as <-.
  - destruct (f x); [|discriminate]. simpl in H.
    destruct (mapM f l); [|discriminate]. simpl in H.
    injection H as <-. simpl. f_equal. now apply IH.
Qed.

Lemma mapM_nth {A B : Type} (f : A -> result B) (l : list A) (r : list B) i x :
  mapM f l = Ok r -> nth_error l i = Some x ->
  exists y, nth_error r i = Some y /\ f x = Ok y.
Proof.
  revert r i. induction l as [|a l IH]; simpl; intros r i H Hx.
  - destruct i; discriminate.
  - destruct (f a) eqn:Ea; [|discriminate]. simpl in H.
    destruct (mapM f l) eqn:El; [|discriminate]. simpl in H.
    injection H as <-. destruct i; simpl in *.
    + injection Hx as <-. eauto.
    + eapply IH; eauto.
Qed.

Lemma zip_with_app {A B C : Type} (f : A -> B -> C) u1 u2 v1 v2 :
  length u1 = length v1 ->
  zip_with f (u1 ++ u2) (v1 ++ v2) = zip_with f u1 v1 ++ zip_with f u2 v2.
Proof.
  unfold zip_with. revert v1. induction u1 as [|x u1 IH]; intros [|y v1] H;
    simpl in *; try discriminate; [reflexivity|].
  f_equal. apply IH. now injection H.
Qed.

Lemma zip_with_repeat {A B C : Type} (f : A -> B -> C) x v :
  zip_with f (repeat x (length v)) v = map (f x) v.
Proof.
  unfold zip_with. induction v as [|y v IH]; simpl; [reflexivity|]. now rewrite IH.
Qed.

Lemma zip_with_length {A B C : Type} (f : A -> B -> C) u v :
  length (zip_with f u v) = Nat.min (length u) (length v).
Proof. unfold zip_with. now rewrite length_map, length_combine. Qed.

Lemma zip_with_nth {A B C : Type} (f : A -> B -> C) u v i da db dc :
  (i < length u)%nat -> (i < length v)%nat ->
  nth i (zip_with f u v) dc = f (nth i u da) (nth i v db).
Proof.
  unfold zip_with. revert v i. induction u as [|x u IH]; intros [|y v] i Hu Hv;
    simpl in *; try lia.
  destruct i; [reflexivity|]. apply IH; lia.
Qed.

Lemma Rsum_app u v : Rsum (u ++ v) = Rsum u + Rsum v.
Proof. unfold Rsum. induction u as [|x u IH]; simpl; [lra | rewrite IH; lra]. Qed.

Lemma Rsum_perm u v : Permutation u v -> Rsum u = Rsum v.
Proof. unfold Rsum. induction 1; simpl; lra. Qed.

Lemma Rsum_map_ext {A : Type} (f g : A -> R) (l : list A) :
  (forall x, In x l -> f x = g x) -> Rsum (map f l) = Rsum (map g l).
Proof. intros H. f_equal. now apply map_ext_in. Qed.

Lemma Rsum_scale {A : Type} (f : A -> R) (c : R) (l : list A) :
  Rsum (map (fun x => c * f x) l) = c * Rsum (map f l).
Proof. unfold Rsum. induction l as [|x l IH]; simpl; [lra | rewrite IH; lra]. Qed.

Lemma vadd_comm u v : vadd u v = vadd v u.
Proof.
  unfold vadd, zip_with. revert v.
  induction u as [|x u IH]; intros [|y v]; simpl; try reflexivity.
  now rewrite IH, Rplus_comm.
Qed.

Lemma vadd_assoc u v w : vadd u (vadd v w) = vadd (vadd u v) w.
Proof.
  unfold vadd, zip_with. revert v w.
  induction u as [|x u IH]; intros [|y v] [|z w]; simpl; try reflexivity.
  now rewrite IH, Rplus_assoc.
Qed.

Lemma sum_rows_perm n rows rows' :
  Permutation rows rows' -> sum_rows n rows = sum_rows n rows'.
Proof.
  unfold sum_rows. induction 1; simpl.
  - reflexivity.
  - now rewrite IHPermutation.
  - rewrite !vadd_assoc. f_equal. apply vadd_comm.
  - now rewrite IHPermutation1.
Qed.

Lemma length_vadd u v : length (vadd u v) = Nat.min (length u) (length v).
Proof. apply zip_with_length. Qed.

Lemma length_sum_rows n rows :
  Forall (fun r => length r = n) rows -> length (sum_rows n rows) = n.
Proof.
  unfold sum_rows. induction 1 as [|r rows Hr _ IH]; simpl.
  - apply repeat_length.
  - rewrite length_vadd, IH, Hr. apply Nat.min_id.
Qed.

Lemma nth_zeros n a : nth a (zeros n) 0 = 0.
Proof.
  unfold zeros. destruct (Nat.lt_ge_cases a n).
  - now apply nth_repeat_lt.
  - apply nth_overflow. now rewrite repeat_length.
Qed.

(** Below its length, a sum of rows is the sum of the columns. *)
Lemma sum_rows_nth n rows a :
  Forall (fun r => length r = n) rows -> (a < n)%nat ->
  nth a (sum_rows n rows) 0 = Rsum (map (fun row => nth a row 0) rows).
Proof.
  intros Hrows Ha. induction Hrows as [|r rows Hr Hrows IH]; simpl.
  - apply nth_zeros.
  - change (fold_right vadd (zeros n) rows) with (sum_rows n rows).
    unfold vadd. rewrite (zip_with_nth _ _ _ _ 0 0).
    + now rewrite IH.
    + lia.
    + now rewrite length_sum_rows.
Qed.

(** ** Arrays of numpy floats *)

Lemma xadd_comm a b : xadd a b = xadd b a.
Proof. destruct a, b; simpl; try reflexivity. f_equal. lra. Qed.

Lemma xadd_assoc a b c : xadd a (xadd b c) = xadd (xadd a b) c.
Proof. destruct a, b, c; simpl; try reflexivity. f_equal. lra. Qed.

Lemma xmul_comm a b : xmul a b = xmul b a.
Proof. destruct a, b; simpl; try reflexivity. f_equal. lra. Qed.

Lemma xadd_0_l a : xadd (Finite 0) a = a.
Proof. destruct a; simpl; [f_equal; lra | reflexivity]. Qed.

Lemma xmul_nonfinite_r a : xmul a NonFinite = NonFinite.
Proof. now destruct a. Qed.

Lemma xsub_nonfinite_r a : xsub a NonFinite = NonFinite.
Proof. now destruct a. Qed.

Lemma xadd_nonfinite_r a : xadd a NonFinite = NonFinite.
Proof. now destruct a. Qed.

Lemma np_div_finite x y : y <> 0 -> np_div x y = Finite (x / y).
Proof. intros H. unfold np_div. now rewrite (Reqb_false_intro _ _ H). Qed.

Lemma np_div_zero x : np_div x 0 = NonFinite.
Proof. unfold np_div. now rewrite Reqb_true_intro. Qed.

Lemma xsum_perm u v : Permutation u v -> xsum u = xsum v.
Proof.
  unfold xsum. induction 1; simpl.
  - reflexivity.
  - now rewrite IHPermutation.
  - rewrite !xadd_assoc. f_equal. apply xadd_comm.
  - congruence.
Qed.

Lemma xsum_map_ext {A : Type} (f g : A -> npfloat) (l : list A) :
  (forall x, In x l -> f x = g x) -> xsum (map f l) = xsum (map g l).
Proof. intros H. f_equal. now apply map_ext_in. Qed.

(** A sum of finite values is finite. *)
Lemma xsum_finite {A : Type} (f : A -> R) (l : list A) :
  xsum (map (fun x => Finite (f x)) l) = Finite (Rsum (map f l)).
Proof.
  unfold xsum, Rsum. induction l as [|x l IH]; simpl; [reflexivity|].
  now rewrite IH.
Qed.

(** A sum with a term that is not finite is not finite. *)
Lemma xsum_nonfinite (l : xvec) : In NonFinite l -> xsum l = NonFinite.
Proof.
  unfold xsum. induction l as [|x l IH]; simpl; [contradiction|].
  intros [-> | Hin]; [reflexivity|].
  rewrite (IH Hin). apply xadd_nonfinite_r.
Qed.

Lemma xvadd_comm u v : xvadd u v = xvadd v u.
Proof.
  unfold xvadd, zip_with. revert v.
  induction u as [|x u IH]; intros [|y v]; simpl; try reflexivity.
  now rewrite IH, xadd_comm.
Qed.

Lemma xvadd_assoc u v w : xvadd u (xvadd v w) = xvadd (xvadd u v) w.
Proof.
  unfold xvadd, zip_with. revert v w.
  induction u as [|x u IH]; intros [|y v] [|z w]; simpl; try reflexivity.
  now rewrite IH, xadd_assoc.
Qed.

Lemma xsum_rows_perm n rows rows' :
  Permutation rows rows' -> xsum_rows n rows = xsum_rows n rows'.
Proof.
  unfold xsum_rows. induction 1; simpl.
  - reflexivity.
  - now rewrite IHPermutation.
  - rewrite !xvadd_assoc. f_equal. apply xvadd_comm.
  - now rewrite IHPermutation1.
Qed.

Lemma length_xsum_rows n (rows : xmatrix) :
  Forall (fun r => length r = n) rows -> length (xsum_rows n rows) = n.
Proof.
  unfold xsum_rows. induction 1 as [|r rows Hr _ IH]; simpl.
  - apply repeat_length.
  - unfold xvadd at 1. rewrite zip_with_length, IH, Hr. apply Nat.min_id.
Qed.

(** Below its length, a sum of rows is the sum of the columns. *)
Lemma xsum_rows_nth n (rows : xmatrix) a :
  Forall (fun r => length r = n) rows -> (a < n)%nat ->
  nth a (xsum_rows n rows) (Finite 0) = xsum (col rows a).
Proof.
  intros Hrows Ha. induction Hrows as [|r rows Hr Hrows IH]; simpl.
  - now apply nth_repeat_lt.
  - change (fold_right xvadd (repeat (Finite 0) n) rows) with (xsum_rows n rows).
    unfold xvadd. rewrite (zip_with_nth _ _ _ _ (Finite 0) (Finite 0)).
    + now rewrite IH.
    + lia.
    + now rewrite length_xsum_rows.
Qed.

Lemma dot_comm u w : dot u w = dot w u.
Proof.
  unfold dot, xvmul, zip_with, xsum. revert w.
  induction u as [|x u IH]; intros [|y w]; simpl; try reflexivity.
  now rewrite IH, xmul_comm.
Qed.

Lemma dot_col v a b :
  dot (col v a) (col v b) =
  xsum (map (fun row => xmul (nth a row (Finite 0)) (nth b row (Finite 0))) v).
Proof.
  unfold dot, xvmul, zip_with, col, xsum.
  induction v as [|r v IH]; simpl; [reflexivity | now rewrite IH].
Qed.

(** An [n] by [n] array given by its entries. *)
Definition table (f : nat -> nat -> npfloat) (n : nat) : xmatrix :=
  map (fun a => map (fun b => f a b) (seq 0 n)) (seq 0 n).

Lemma entry_table (f : nat -> nat -> npfloat) n a b :
  entry (table f n) a b = if (a <? n)%nat && (b <? n)%nat then f a b else Finite 0.
Proof.
  unfold entry, table.
  destruct (Nat.ltb_spec a n) as [Ha|Ha]; cbn [andb].
  - rewrite (nth_map_lt _ _ _ 0%nat) by now rewrite length_seq.
    rewrite seq_nth by assumption. cbn [Nat.add].
    destruct (Nat.ltb_spec b n) as [Hb|Hb].
    + rewrite (nth_map_lt _ _ _ 0%nat) by now rewrite length_seq.
      now rewrite seq_nth.
    + apply nth_overflow. now rewrite length_map, length_seq.
  - rewrite (nth_overflow _ []) by now rewrite length_map, length_seq.
    now destruct b.
Qed.

Lemma table_symmetric (f : nat -> nat -> npfloat) n a b :
  (forall a b, f a b = f b a) -> entry (table f n) a b = entry (table f n) b a.
Proof.
  intros Hf. rewrite !entry_table, (andb_comm (a <? n)%nat), (Hf a b). reflexivity.
Qed.

Lemma scale_table g (f : nat -> nat -> npfloat) n :
  scale g (table f n) = table (fun a b => xmul g (f a b)) n.
Proof.
  unfold scale, table. rewrite map_map. apply map_ext. intros a. now rewrite map_map.
Qed.

Lemma scatter_table f n v :
  scatter f n v =
  table (fun a b => xmul f (dot (col (center v (col_mean n v)) a)
                                (col (center v (col_mean n v)) b))) n.
Proof. unfold scatter. apply (scale_table f). Qed.

(** The covariance matrices that come out of [scatter] are symmetric. *)
Lemma scatter_symmetric f n v a b :
  entry (scatter f n v) a b = entry (scatter f n v) b a.
Proof.
  rewrite scatter_table. apply table_symmetric.
  intros a' b'. f_equal. apply dot_comm.
Qed.

Lemma gram_perm n v v' : Permutation v v' -> gram n v = gram n v'.
Proof.
  intros H. unfold gram.
  apply map_ext; intros a. apply map_ext; intros b.
  rewrite !dot_col. apply xsum_perm. now apply Permutation_map.
Qed.

(** [scatter] does not depend on the order of the samples. *)
Lemma scatter_perm f n v v' : Permutation v v' -> scatter f n v = scatter f n v'.
Proof.
  intros H. unfold scatter. f_equal.
  assert (Hm : col_mean n v = col_mean n v').
  { unfold col_mean. rewrite (Permutation_length H).
    now rewrite (xsum_rows_perm n v v' H). }
  rewrite Hm. apply gram_perm. unfold center. now apply Permutation_map.
Qed.

(** The mean of column [a] over the samples. *)
Definition sample_mean (v : xmatrix) (a : nat) : npfloat :=
  xdivr (xsum (col v a)) (INR (length v)).

Lemma center_nth n (v : xmatrix) row a :
  Forall (fun r => length r = n) v -> length row = n -> (a < n)%nat ->
  nth a (xvsub row (col_mean n v)) (Finite 0) =
  xsub (nth a row (Finite 0)) (sample_mean v a).
Proof.
  intros Hv Hrow Ha. unfold xvsub.
  rewrite (zip_with_nth _ _ _ _ (Finite 0) (Finite 0)).
  - f_equal. unfold col_mean.
    rewrite (nth_map_lt _ _ _ (Finite 0)) by now rewrite length_xsum_rows.
    unfold sample_mean. now rewrite xsum_rows_nth.
  - lia.
  - unfold col_mean. now rewrite length_map, length_xsum_rows.
Qed.

(** Entry [(a, b)] of [scatter f n v], written out:
    [f * Sum_i (v_i[a] - vmean[a]) * (v_i[b] - vmean[b])]. *)
Lemma entry_scatter f n v a b :
  Forall (fun r => length r = n) v -> (a < n)%nat -> (b < n)%nat ->
  entry (scatter f n v) a b =
  xmul f (xsum (map (fun row =>
                       xmul (xsub (nth a row (Finite 0)) (sample_mean v a))
                            (xsub (nth b row (Finite 0)) (sample_mean v b))) v)).
Proof.
  intros Hv Ha Hb. rewrite scatter_table, entry_table.
  replace ((a <? n)%nat && (b <? n)%nat) with true
    by (symmetry; apply andb_true_iff; split; now apply Nat.ltb_lt).
  f_equal. rewrite dot_col. unfold center. rewrite map_map.
  apply xsum_map_ext. intros row Hrow.
  assert (Hlen : length row = n) by (rewrite Forall_forall in Hv; now apply Hv).
  now rewrite !(center_nth n).
Qed.

(** The same sum when every sample is finite in the components [a] and
    [b]: the factor times the sum over the samples of the products of the
    deviations from the mean. *)
Lemma deviations_finite {A : Type} (l : list A) (xa xb : A -> npfloat) (ra rb : A -> R)
    (cnt : R) :
  cnt <> 0 ->
  (forall i, In i l -> xa i = Finite (ra i)) ->
  (forall i, In i l -> xb i = Finite (rb i)) ->
  xsum (map (fun i => xmul (xsub (xa i) (xdivr (xsum (map xa l)) cnt))
                           (xsub (xb i) (xdivr (xsum (map xb l)) cnt))) l) =
  Finite (Rsum (map (fun i => (ra i - Rsum (map ra l) / cnt) *
                              (rb i - Rsum (map rb l) / cnt)) l)).
Proof.
  intros Hc Ha Hb.
  rewrite (map_ext_in xa (fun i => Finite (ra i)) l Ha).
  rewrite (map_ext_in xb (fun i => Finite (rb i)) l Hb).
  rewrite !xsum_finite. cbn [xdivr]. rewrite !np_div_finite by assumption.
  rewrite <- xsum_finite. apply xsum_map_ext. intros i Hi.
  now rewrite (Ha i Hi), (Hb i Hi).
Qed.

(** The same sum when some sample is not finite in the component [a]: the
    mean is not finite, and neither is the sum. *)
Lemma deviations_nonfinite {A : Type} (l : list A) (xa xb : A -> npfloat) (cnt : R) i :
  In i l -> xa i = NonFinite ->
  xsum (map (fun i => xmul (xsub (xa i) (xdivr (xsum (map xa l)) cnt))
                           (xsub (xb i) (xdivr (xsum (map xb l)) cnt))) l) = NonFinite.
Proof.
  intros Hi Hx. apply xsum_nonfinite. apply in_map_iff. exists i.
  split; [|assumption]. now rewrite Hx.
Qed.

(** ** Shot noise *)

(** The weight at each position of the concatenated statistic vector. *)
Definition all_weights (corrs : list Corr) : vec :=
  concat (map _getWeight corrs).

(** The shot-variance numerator at each position of the concatenated
    statistic vector: that of the correlation object the position is in. *)
Definition all_var_nums (corrs : list Corr) : vec :=
  concat (map (fun c => repeat (_var_num c) (length (_getWeight c))) corrs).

Definition shot_entry (num w : R) : R := if Reqb w 0 then 0 else num / w.

(** The weights of a finalized correlation object cover its statistic. *)
Definition finalized (c : Corr) : Prop := length (_getWeight c) = _getStatLen c.

Lemma shot_vector_ok c :
  finalized c ->
  shot_vector c = Ok (map (shot_entry (_var_num c)) (_getWeight c)).
Proof.
  intros H. unfold shot_vector. rewrite H, Nat.eqb_refl. reflexivity.
Qed.

Lemma length_all_var_nums corrs : length (all_var_nums corrs) = length (all_weights corrs).
Proof.
  unfold all_var_nums, all_weights.
  induction corrs as [|c cs IH]; simpl; [reflexivity|].
  now rewrite !length_app, repeat_length, IH.
Qed.

Lemma shot_vectors_concat corrs :
  concat (map (fun c => map (shot_entry (_var_num c)) (_getWeight c)) corrs) =
  zip_with shot_entry (all_var_nums corrs) (all_weights corrs).
Proof.
  unfold all_var_nums, all_weights.
  induction corrs as [|c cs IH]; simpl; [reflexivity|].
  rewrite zip_with_app by apply repeat_length.
  now rewrite zip_with_repeat, IH.
Qed.

(** C4: for a non-empty list of finalized correlation objects
    [_cov_shot] returns a square matrix over the concatenated statistic
    vector whose off-diagonal entries are all 0 and whose diagonal entry at
    position [k] is the shot-variance numerator divided by [weight[k]] when
    [weight[k] != 0], and 0 when [weight[k] == 0]; every entry is finite.
    For the empty list [np.concatenate] raises [ValueError]. *)
Theorem C4_shot_diagonal corrs :
  (corrs = [] ->
   _cov_shot corrs = Raise (ValueError "need at least one array to concatenate")) /\
  (corrs <> [] -> Forall finalized corrs ->
   exists C, _cov_shot corrs = Ok C /\
     length C = length (all_weights corrs) /\
     (forall i j, (i < length (all_weights corrs))%nat ->
                  (j < length (all_weights corrs))%nat ->
                  i <> j -> entry C i j = Finite 0) /\
     (forall k, (k < length (all_weights corrs))%nat ->
        (nth k (all_weights corrs) 0 <> 0 ->
         entry C k k =
         Finite (nth k (all_var_nums corrs) 0 / nth k (all_weights corrs) 0)) /\
        (nth k (all_weights corrs) 0 = 0 -> entry C k k = Finite 0))).
Proof.
  split; [intros ->; reflexivity|].
  intros Hne Hfin.
  unfold _cov_shot.
  rewrite (mapM_ok _ (fun c => map (shot_entry (_var_num c)) (_getWeight c)))
    by (eapply Forall_impl; [|exact Hfin]; intros c Hc; now apply shot_vector_ok).
  cbn [bind].
  assert (Hcat : np_concatenate
                   (map (fun c => map (shot_entry (_var_num c)) (_getWeight c)) corrs) =
                 Ok (zip_with shot_entry (all_var_nums corrs) (all_weights corrs))).
  { rewrite <- shot_vectors_concat. destruct corrs; [contradiction | reflexivity]. }
  rewrite Hcat. cbn [bind].
  set (v := zip_with shot_entry (all_var_nums corrs) (all_weights corrs)).
  assert (Hlen : length v = length (all_weights corrs)).
  { unfold v. rewrite zip_with_length, length_all_var_nums. apply Nat.min_id. }
  eexists. split; [reflexivity|].
  split; [now rewrite length_np_diag|].
  split.
  - intros i j Hi Hj Hij. rewrite entry_np_diag by lia.
    destruct (Nat.eqb_spec i j); [contradiction | reflexivity].
  - intros k Hk. rewrite entry_np_diag by lia. rewrite Nat.eqb_refl.
    unfold v. rewrite (zip_with_nth _ _ _ _ 0 0)
      by (rewrite ?length_all_var_nums; assumption).
    unfold shot_entry. split; intros Hw.
    + now rewrite (Reqb_false_intro _ _ Hw).
    + now rewrite (Reqb_true_intro _ _ Hw).
Qed.

(** Two correlation objects: weights [2; 0] with numerator 6, and weight
    [4] with numerator 2. *)
Definition shot_example : list Corr :=
  [ {| results := []; _getStatLen := 2; _getWeight := [2; 0]; _var_num := 6;
       num_bootstrap := 500 |};
    {| results := []; _getStatLen := 1; _getWeight := [4]; _var_num := 2;
       num_bootstrap := 500 |} ].

(** C4 on [shot_example]: the covariance is [diag(3, 0, 1/2)]. *)
Lemma C4_shot_diagonal_witness :
  exists C, _cov_shot shot_example = Ok C /\
    entry C 0 0 = Finite (6 / 2) /\ entry C 1 1 = Finite 0 /\
    entry C 2 2 = Finite (2 / 4) /\ entry C 0 2 = Finite 0.
Proof.
  destruct (proj2 (C4_shot_diagonal shot_example)) as (C & HC & _ & Hoff & Hdiag).
  { discriminate. }
  { repeat constructor. }
  exists C. split; [exact HC|].
  split; [|split; [|split]].
  - destruct (Hdiag 0%nat) as [H _]; [simpl; lia|].
    apply H. simpl. lra.
  - destruct (Hdiag 1%nat) as [_ H]; [simpl; lia|]. apply H. reflexivity.
  - destruct (Hdiag 2%nat) as [H _]; [simpl; lia|].
    apply H. simpl. lra.
  - apply Hoff; simpl; lia.
Defined.

(** ** Dicts and patch numbers *)

Lemma key_eqb_eq k k' : key_eqb k k' = true <-> k = k'.
Proof.
  destruct k as [i j], k' as [i' j']. unfold key_eqb; simpl.
  rewrite andb_true_iff, !Nat.eqb_eq. split.
  - intros [-> ->]. reflexivity.
  - intros [= -> ->]. auto.
Qed.

Lemma key_eqb_refl k : key_eqb k k = true.
Proof. now apply key_eqb_eq. Qed.

Lemma key_eqb_neq k k' : key_eqb k k' = false <-> k <> k'.
Proof.
  rewrite <- key_eqb_eq. destruct (key_eqb k k'); split; congruence.
Qed.

Lemma key_in_spec k pairs : key_in k pairs = true <-> In k pairs.
Proof.
  unfold key_in. rewrite existsb_exists. split.
  - intros [x [Hx Heq]]. apply key_eqb_eq in Heq. now subst.
  - intros H. exists k. split; [assumption | apply key_eqb_refl].
Qed.

Lemma dict_get_in {V : Type} (d : dict V) k v :
  dict_get d k = Some v -> In (k, v) d.
Proof.
  induction d as [|[k' v'] d IH]; simpl; [discriminate|].
  destruct (key_eqb k k') eqn:E.
  - apply key_eqb_eq in E. subst. intros [= ->]. now left.
  - intros H. right. now apply IH.
Qed.

Lemma dict_get_some {V : Type} (d : dict V) k :
  In k (dict_keys d) -> exists v, dict_get d k = Some v.
Proof.
  unfold dict_keys. induction d as [|[k' v'] d IH]; simpl; [contradiction|].
  intros [-> | H].
  - rewrite key_eqb_refl. eauto.
  - destruct (key_eqb k k'); eauto.
Qed.

Lemma dict_get_none {V : Type} (d : dict V) k :
  ~ In k (dict_keys d) -> dict_get d k = None.
Proof.
  unfold dict_keys. induction d as [|[k' v'] d IH]; simpl; [reflexivity|].
  intros H. destruct (key_eqb k k') eqn:E.
  - apply key_eqb_eq in E. subst. tauto.
  - apply IH. tauto.
Qed.

Lemma dict_get_of_in {V : Type} (d : dict V) k v :
  NoDup (dict_keys d) -> In (k, v) d -> dict_get d k = Some v.
Proof.
  unfold dict_keys. induction d as [|[k' v'] d IH]; simpl; [contradiction|].
  intros Hnd [[= -> ->] | Hin].
  - now rewrite key_eqb_refl.
  - inversion Hnd as [|? ? Hnot Hnd']; subst.
    destruct (key_eqb k k') eqn:E.
    + apply key_eqb_eq in E. subst. exfalso. apply Hnot.
      change k' with (fst (k', v)). now apply in_map.
    + now apply IH.
Qed.

(** Lookup does not depend on the order in which the entries are stored. *)
Lemma dict_get_perm {V : Type} (d d' : dict V) k :
  NoDup (dict_keys d) -> Permutation d d' -> dict_get d k = dict_get d' k.
Proof.
  intros Hnd Hp.
  assert (Hnd' : NoDup (dict_keys d')).
  { eapply Permutation_NoDup; [|exact Hnd]. now apply Permutation_map. }
  destruct (dict_get d k) as [v|] eqn:E.
  - symmetry. apply dict_get_of_in; [assumption|].
    eapply Permutation_in; [exact Hp|]. now apply dict_get_in.
  - destruct (dict_get d' k) as [v'|] eqn:E'; [|reflexivity].
    apply dict_get_in in E'.
    apply (Permutation_in _ (Permutation_sym Hp)) in E'.
    apply dict_get_of_in in E'; [congruence | assumption].
Qed.

Lemma count_distinct_perm l l' :
  Permutation l l' -> count_distinct l = count_distinct l'.
Proof.
  intros H. unfold count_distinct. apply Permutation_length.
  apply NoDup_Permutation; try apply NoDup_nodup.
  intros x. rewrite !nodup_In. split; apply Permutation_in; [|symmetry]; assumption.
Qed.

Lemma count_distinct_pos l : l <> [] -> (1 <= count_distinct l)%nat.
Proof.
  intros H. unfold count_distinct. destruct l as [|x l]; [contradiction|].
  assert (Hin : In x (nodup Nat.eq_dec (x :: l))) by (apply nodup_In; now left).
  destruct (nodup Nat.eq_dec (x :: l)); [contradiction | simpl; lia].
Qed.

Lemma is_range_spec l n :
  is_range l n = true <-> (forall x, In x l <-> (x < n)%nat).
Proof.
  unfold is_range. rewrite andb_true_iff, !forallb_forall. split.
  - intros [H1 H2] x. split; intros Hx.
    + apply H1 in Hx. apply existsb_exists in Hx. destruct Hx as [y [Hy Heq]].
      apply Nat.eqb_eq in Heq. subst. apply in_seq in Hy. lia.
    + assert (Hs : In x (seq 0 n)) by (apply in_seq; lia).
      apply H2 in Hs. apply existsb_exists in Hs. destruct Hs as [y [Hy Heq]].
      apply Nat.eqb_eq in Heq. now subst.
  - intros H. split; intros x Hx; apply existsb_exists; exists x;
      (split; [|apply Nat.eqb_refl]).
    + apply in_seq. apply H in Hx. lia.
    + apply H. apply in_seq in Hx. lia.
Qed.

Lemma is_range_perm l l' n :
  Permutation l l' -> is_range l n = is_range l' n.
Proof.
  intros Hp.
  assert (H : forall a b, Permutation a b -> is_range a n = true -> is_range b n = true).
  { intros a b Hab. rewrite !is_range_spec. intros H x. rewrite <- H.
    split; apply Permutation_in; [symmetry|]; assumption. }
  destruct (is_range l n) eqn:E.
  - symmetry. now apply (H l l').
  - destruct (is_range l' n) eqn:E'; [|reflexivity].
    apply (H l' l) in E'; [congruence | now symmetry].
Qed.

Lemma hstack_single (m : matrix) : hstack [m] = Ok m.
Proof.
  unfold hstack. simpl.
  assert (H : map (fun i => nth i m [] ++ []) (seq 0 (length m)) = m).
  { apply nth_ext with (d := []) (d' := []).
    - now rewrite length_map, length_seq.
    - intros i Hi. rewrite length_map, length_seq in Hi.
      rewrite (nth_map_lt _ _ _ 0%nat) by now rewrite length_seq.
      rewrite seq_nth by assumption. simpl. apply app_nil_r. }
  now rewrite H.
Qed.

(** ** The design matrix *)

(** [corr.results[k]._getStat()] and [._getWeight()]. *)
Definition stat_of (c : Corr) (k : key) : vec :=
  match dict_get (results c) k with Some pr => stat pr | None => [] end.

Definition weight_of (c : Corr) (k : key) : vec :=
  match dict_get (results c) k with Some pr => weight pr | None => [] end.

(** The statistic of one sample, as a vector: the stats summed over
    [pairs], divided elementwise by the weights summed over [pairs]. *)
Definition ratio_row (c : Corr) (pairs : list key) : xvec :=
  vdiv (sum_rows (_getStatLen c) (map (stat_of c) pairs))
       (sum_rows (_getStatLen c) (map (weight_of c) pairs)).

(** Component [a] of the summed stats and of the summed weights. *)
Definition stat_sum (c : Corr) (pairs : list key) (a : nat) : R :=
  Rsum (map (fun k => nth a (stat_of c k) 0) pairs).

Definition weight_sum (c : Corr) (pairs : list key) (a : nat) : R :=
  Rsum (map (fun k => nth a (weight_of c k) 0) pairs).

(** Component [a] of the statistic of one sample: not finite when the
    summed weight is 0. *)
Definition ratio (c : Corr) (pairs : list key) (a : nat) : npfloat :=
  np_div (stat_sum c pairs a) (weight_sum c pairs a).

(** Every stored result has the shape of the statistic vector. *)
Definition shaped (c : Corr) : Prop :=
  Forall (fun kv => length (stat (snd kv)) = _getStatLen c /\
                    length (weight (snd kv)) = _getStatLen c) (results c).

Lemma lookup_ok c k :
  In k (dict_keys (results c)) ->
  exists pr, lookup c k = Ok pr /\ stat pr = stat_of c k /\ weight pr = weight_of c k.
Proof.
  intros H. destruct (dict_get_some _ _ H) as [pr Hpr].
  exists pr. unfold lookup, stat_of, weight_of. rewrite Hpr. auto.
Qed.

Lemma design_row_ok c pairs :
  incl pairs (dict_keys (results c)) ->
  design_row c pairs =
  Ok (sum_rows (_getStatLen c) (map (stat_of c) pairs),
      sum_rows (_getStatLen c) (map (weight_of c) pairs)).
Proof.
  intros Hincl. unfold design_row.
  assert (H : exists prs, mapM (lookup c) pairs = Ok prs /\
                map stat prs = map (stat_of c) pairs /\
                map weight prs = map (weight_of c) pairs).
  { induction pairs as [|k pairs IH]; simpl.
    - exists []. auto.
    - destruct (lookup_ok c k) as (pr & Hpr & Hs & Hw); [apply Hincl; now left|].
      destruct IH as (prs & Hprs & Hss & Hws).
      { intros x Hx. apply Hincl. now right. }
      rewrite Hpr, Hprs. simpl. exists (pr :: prs). simpl.
      now rewrite Hs, Hw, Hss, Hws. }
  destruct H as (prs & H0 & Hs & Hw).
  rewrite H0. cbn [bind]. now rewrite Hs, Hw.
Qed.

Lemma design_matrix_ok c all_pairs :
  Forall (fun pairs => incl pairs (dict_keys (results c))) all_pairs ->
  _make_cov_design_matrix c all_pairs =
  Ok (map (fun pairs => sum_rows (_getStatLen c) (map (stat_of c) pairs)) all_pairs,
      map (fun pairs => sum_rows (_getStatLen c) (map (weight_of c) pairs)) all_pairs).
Proof.
  intros H. unfold _make_cov_design_matrix.
  rewrite (mapM_ok _ (fun pairs =>
             (sum_rows (_getStatLen c) (map (stat_of c) pairs),
              sum_rows (_getStatLen c) (map (weight_of c) pairs)))).
  - cbn [bind]. now rewrite !map_map.
  - eapply Forall_impl; [|exact H]. intros pairs. apply design_row_ok.
Qed.

Lemma zip_with_map {A B C D : Type} (f : B -> C -> D) (g h : A -> _) (l : list A) :
  zip_with f (map g l) (map h l) = map (fun x => f (g x) (h x)) l.
Proof. unfold zip_with. induction l as [|x l IH]; simpl; [reflexivity | now rewrite IH]. Qed.

Lemma stat_of_length c k :
  shaped c -> In k (dict_keys (results c)) ->
  length (stat_of c k) = _getStatLen c /\ length (weight_of c k) = _getStatLen c.
Proof.
  intros Hs Hk. destruct (dict_get_some _ _ Hk) as [pr Hpr].
  unfold stat_of, weight_of. rewrite Hpr.
  apply dict_get_in in Hpr. unfold shaped in Hs. rewrite Forall_forall in Hs.
  exact (Hs _ Hpr).
Qed.

Lemma length_ratio_row c pairs :
  shaped c -> incl pairs (dict_keys (results c)) ->
  length (ratio_row c pairs) = _getStatLen c.
Proof.
  intros Hs Hincl. unfold ratio_row, vdiv.
  rewrite zip_with_length, !length_sum_rows.
  - apply Nat.min_id.
  - apply Forall_forall. intros r Hr. apply in_map_iff in Hr.
    destruct Hr as [k [<- Hk]]. now apply stat_of_length; [|apply Hincl].
  - apply Forall_forall. intros r Hr. apply in_map_iff in Hr.
    destruct Hr as [k [<- Hk]]. now apply stat_of_length; [|apply Hincl].
Qed.

(** Component [a] of a sample's statistic is the ratio of the summed
    components. *)
Lemma ratio_row_nth c pairs a :
  shaped c -> incl pairs (dict_keys (results c)) -> (a < _getStatLen c)%nat ->
  nth a (ratio_row c pairs) (Finite 0) = ratio c pairs a.
Proof.
  intros Hs Hincl Ha. unfold ratio_row, ratio, stat_sum, weight_sum, vdiv.
  assert (H1 : Forall (fun r => length r = _getStatLen c) (map (stat_of c) pairs)).
  { apply Forall_forall. intros r Hr. apply in_map_iff in Hr.
    destruct Hr as [k [<- Hk]]. now apply stat_of_length; [|apply Hincl]. }
  assert (H2 : Forall (fun r => length r = _getStatLen c) (map (weight_of c) pairs)).
  { apply Forall_forall. intros r Hr. apply in_map_iff in Hr.
    destruct Hr as [k [<- Hk]]. now apply stat_of_length; [|apply Hincl]. }
  rewrite (zip_with_nth _ _ _ _ 0 0) by now rewrite length_sum_rows.
  rewrite !sum_rows_nth by assumption.
  now rewrite !map_map.
Qed.

Lemma ratio_finite c pairs a :
  weight_sum c pairs a <> 0 ->
  ratio c pairs a = Finite (stat_sum c pairs a / weight_sum c pairs a).
Proof. apply np_div_finite. Qed.

Lemma ratio_nonfinite c pairs a :
  weight_sum c pairs a = 0 -> ratio c pairs a = NonFinite.
Proof. intros H. unfold ratio. rewrite H. apply np_div_zero. Qed.

(** ** Jackknife *)

(** The keys of the store, the number of patches on each axis, and
    [npatch], as [_get_patch_nums] computes them. *)
Definition store_keys (c : Corr) : list key := dict_keys (results c).
Definition axis1 (c : Corr) : nat := count_distinct (map fst (store_keys c)).
Definition axis2 (c : Corr) : nat := count_distinct (map snd (store_keys c)).
Definition npatch_of (c : Corr) : nat := Nat.max (axis1 c) (axis2 c).

Section Jackknife.

Variable c : Corr.

Local Abbreviation keys := (store_keys c).
Local Abbreviation n1 := (axis1 c).
Local Abbreviation n2 := (axis2 c).
Local Abbreviation npatch := (npatch_of c).

(** The pairs of jackknife sample [i]: every stored pair that does not
    touch patch [i]; when one axis has a single patch, the pairs of the
    other patches with that single patch 0. *)
Definition jackknife_sample (i : nat) : list key :=
  if (n2 =? 1)%nat then
    map (fun j => (j, 0%nat)) (filter (fun j => negb (j =? i)%nat) (seq 0 n1))
  else if (n1 =? 1)%nat then
    map (fun j => (0%nat, j)) (filter (fun j => negb (j =? i)%nat) (seq 0 n2))
  else
    filter (fun jk => negb (fst jk =? i)%nat && negb (snd jk =? i)%nat) keys.

(** The patch structure that [_get_patch_nums] checks, on a dict. *)
Record patch_structure : Prop := {
  ps_nodup : NoDup keys;
  ps_nonempty : keys <> [];
  ps_range1 : is_range (map fst keys) n1 = true;
  ps_range2 : is_range (map snd keys) n2 = true;
  ps_axes : n1 = n2 \/ n1 = 1%nat \/ n2 = 1%nat;
  ps_shaped : shaped c
}.

Hypothesis Hps : patch_structure.

Lemma axis1_pos : (1 <= n1)%nat.
Proof.
  apply count_distinct_pos. intros H. apply map_eq_nil in H.
  now apply (ps_nonempty Hps).
Qed.

Lemma axis2_pos : (1 <= n2)%nat.
Proof.
  apply count_distinct_pos. intros H. apply map_eq_nil in H.
  now apply (ps_nonempty Hps).
Qed.

Lemma npatch_pos : (1 <= npatch)%nat.
Proof. pose proof axis1_pos. unfold npatch_of. lia. Qed.

Lemma get_patch_nums_single :
  _get_patch_nums [c] = Ok (npatch, [n1], [n2], [keys]).
Proof.
  unfold _get_patch_nums.
  change (dict_keys (results c)) with keys.
  change (count_distinct (map fst keys)) with n1.
  change (count_distinct (map snd keys)) with n2.
  replace (length keys =? 0)%nat with false.
  2:{ symmetry; apply Nat.eqb_neq. pose proof (ps_nonempty Hps) as Hne.
      destruct keys; [contradiction | discriminate]. }
  cbn [negb guard bind].
  rewrite (ps_range1 Hps), (ps_range2 Hps). cbn [guard bind].
  assert (Hax : negb (negb (n1 =? n2)%nat && negb (n1 =? 1)%nat && negb (n2 =? 1)%nat) = true).
  { destruct (ps_axes Hps) as [H | [H | H]]; rewrite H; rewrite ?Nat.eqb_refl;
      simpl; rewrite ?andb_false_r; reflexivity. }
  rewrite Hax. reflexivity.
Qed.

Lemma second_is_0 j k : n2 = 1%nat -> In (j, k) keys -> k = 0%nat.
Proof.
  intros Hn Hin. pose proof (ps_range2 Hps) as Hr. rewrite Hn in Hr.
  rewrite is_range_spec in Hr.
  assert (Hk : In k (map snd keys)) by (change k with (snd (j, k)); now apply in_map).
  apply Hr in Hk. lia.
Qed.

Lemma first_is_0 j k : n1 = 1%nat -> In (j, k) keys -> j = 0%nat.
Proof.
  intros Hn Hin. pose proof (ps_range1 Hps) as Hr. rewrite Hn in Hr.
  rewrite is_range_spec in Hr.
  assert (Hj : In j (map fst keys)) by (change j with (fst (j, k)); now apply in_map).
  apply Hr in Hj. lia.
Qed.

Lemma jackknife_sample_stored i : incl (jackknife_sample i) keys.
Proof.
  unfold jackknife_sample. intros [j k] Hin.
  destruct (Nat.eqb_spec n2 1) as [Hn2|Hn2]; [|destruct (Nat.eqb_spec n1 1) as [Hn1|Hn1]].
  - apply in_map_iff in Hin. destruct Hin as [j' [[= <- <-] Hj]].
    apply filter_In in Hj. destruct Hj as [Hj _]. apply in_seq in Hj.
    pose proof (ps_range1 Hps) as Hr. rewrite is_range_spec in Hr.
    assert (Hj' : In j' (map fst keys)) by (apply Hr; lia).
    apply in_map_iff in Hj'. destruct Hj' as [[j'' k''] [Hfst Hin]]. simpl in Hfst. subst j''.
    now rewrite <- (second_is_0 j' k'' Hn2 Hin).
  - apply in_map_iff in Hin. destruct Hin as [k' [[= <- <-] Hk]].
    apply filter_In in Hk. destruct Hk as [Hk _]. apply in_seq in Hk.
    pose proof (ps_range2 Hps) as Hr. rewrite is_range_spec in Hr.
    assert (Hk' : In k' (map snd keys)) by (apply Hr; lia).
    apply in_map_iff in Hk'. destruct Hk' as [[j'' k''] [Hsnd Hin]]. simpl in Hsnd. subst k''.
    now rewrite <- (first_is_0 j'' k' Hn1 Hin).
  - apply filter_In in Hin. tauto.
Qed.

Lemma jackknife_pairs_ok :
  jackknife_pairs n1 n2 keys = Ok (map jackknife_sample (seq 0 npatch)).
Proof.
  pose proof axis1_pos as Hpos1. pose proof axis2_pos as Hpos2.
  unfold jackknife_pairs, jackknife_sample, npatch_of in *.
  destruct (Nat.eqb_spec n2 1) as [Hn2|Hn2]; [|destruct (Nat.eqb_spec n1 1) as [Hn1|Hn1]].
  - replace (Nat.max n1 n2) with n1 by lia. reflexivity.
  - replace (Nat.max n1 n2) with n2 by lia. reflexivity.
  - assert (Heq : n1 = n2) by (destruct (ps_axes Hps) as [H | [H | H]]; congruence).
    rewrite <- Heq, Nat.eqb_refl, Nat.max_id. reflexivity.
Qed.

(** The jackknife samples: row [i] is the statistic without patch [i]. *)
Definition jackknife_v : xmatrix :=
  map (fun i => ratio_row c (jackknife_sample i)) (seq 0 npatch).

Lemma cov_jackknife_closed_form :
  _cov_jackknife [c] =
  Ok (scatter (Finite (1 - 1 / INR npatch)) (_getStatLen c) jackknife_v).
Proof.
  unfold _cov_jackknife. rewrite get_patch_nums_single. cbn [bind].
  unfold stacked_design. cbn [zip4 mapM bind].
  rewrite jackknife_pairs_ok. cbn [bind].
  rewrite design_matrix_ok
    by (apply Forall_forall; intros p Hp; apply in_map_iff in Hp;
        destruct Hp as [i [<- _]]; apply jackknife_sample_stored).
  cbn [bind map fst snd]. rewrite !hstack_single. cbn [bind].
  rewrite py_div_ok
    by (apply not_0_INR; pose proof npatch_pos; lia).
  cbn [bind]. f_equal. f_equal.
  - unfold total_len. simpl. lia.
  - rewrite !map_map. unfold jackknife_v.
    exact (zip_with_map vdiv
             (fun i => sum_rows (_getStatLen c) (map (stat_of c) (jackknife_sample i)))
             (fun i => sum_rows (_getStatLen c) (map (weight_of c) (jackknife_sample i)))
             (seq 0 npatch)).
Qed.

Lemma jackknife_v_shape : Forall (fun r => length r = _getStatLen c) jackknife_v.
Proof.
  unfold jackknife_v. apply Forall_forall. intros r Hr.
  apply in_map_iff in Hr. destruct Hr as [i [<- _]].
  apply length_ratio_row; [apply (ps_shaped Hps) | apply jackknife_sample_stored].
Qed.

(** The jackknife estimate of component [a] from sample [i], and the mean
    of these estimates, as numpy computes them. *)
Definition jackknife_estimate (i a : nat) : npfloat := ratio c (jackknife_sample i) a.

Definition jackknife_mean (a : nat) : npfloat :=
  xdivr (xsum (map (fun i => jackknife_estimate i a) (seq 0 npatch))) (INR npatch).

(** The same as real numbers, for samples with a nonzero summed weight. *)
Definition jackknife_ratio (i a : nat) : R :=
  stat_sum c (jackknife_sample i) a / weight_sum c (jackknife_sample i) a.

Definition jackknife_ratio_mean (a : nat) : R :=
  Rsum (map (fun i => jackknife_ratio i a) (seq 0 npatch)) / INR npatch.

Lemma jackknife_entry C a b :
  _cov_jackknife [c] = Ok C -> (a < _getStatLen c)%nat -> (b < _getStatLen c)%nat ->
  entry C a b =
  xmul (Finite (1 - 1 / INR npatch))
       (xsum (map (fun i => xmul (xsub (jackknife_estimate i a) (jackknife_mean a))
                                 (xsub (jackknife_estimate i b) (jackknife_mean b)))
                  (seq 0 npatch))).
Proof.
  rewrite cov_jackknife_closed_form. intros [= <-] Ha Hb.
  rewrite entry_scatter by (try apply jackknife_v_shape; assumption).
  f_equal.
  assert (Hnth : forall i x, (x < _getStatLen c)%nat ->
            nth x (ratio_row c (jackknife_sample i)) (Finite 0) = jackknife_estimate i x).
  { intros i x Hx. apply ratio_row_nth;
      [apply (ps_shaped Hps) | apply jackknife_sample_stored | assumption]. }
  assert (Hmean : forall x, (x < _getStatLen c)%nat ->
                    sample_mean jackknife_v x = jackknife_mean x).
  { intros x Hx. unfold sample_mean, jackknife_mean, jackknife_v, col.
    rewrite length_map, length_seq, map_map. f_equal.
    apply xsum_map_ext. intros i _. now apply Hnth. }
  unfold jackknife_v at 3. rewrite map_map.
  apply xsum_map_ext. intros i _.
  now rewrite !Hnth, !Hmean.
Qed.

Lemma jackknife_entry_finite C a b :
  _cov_jackknife [c] = Ok C -> (a < _getStatLen c)%nat -> (b < _getStatLen c)%nat ->
  (forall i, (i < npatch)%nat -> weight_sum c (jackknife_sample i) a <> 0) ->
  (forall i, (i < npatch)%nat -> weight_sum c (jackknife_sample i) b <> 0) ->
  entry C a b =
  Finite ((1 - 1 / INR npatch) *
          Rsum (map (fun i => (jackknife_ratio i a - jackknife_ratio_mean a) *
                              (jackknife_ratio i b - jackknife_ratio_mean b))
                    (seq 0 npatch))).
Proof.
  intros HC Ha Hb Hwa Hwb. rewrite (jackknife_entry C a b HC Ha Hb).
  unfold jackknife_mean.
  rewrite (deviations_finite (seq 0 npatch) _ _
             (fun i => jackknife_ratio i a) (fun i => jackknife_ratio i b)).
  - reflexivity.
  - apply not_0_INR. pose proof npatch_pos. lia.
  - intros i Hi. apply in_seq in Hi. apply ratio_finite. apply Hwa. lia.
  - intros i Hi. apply in_seq in Hi. apply ratio_finite. apply Hwb. lia.
Qed.

Lemma jackknife_entry_nonfinite C a b i :
  _cov_jackknife [c] = Ok C -> (a < _getStatLen c)%nat -> (b < _getStatLen c)%nat ->
  (i < npatch)%nat -> weight_sum c (jackknife_sample i) a = 0 ->
  entry C a b = NonFinite.
Proof.
  intros HC Ha Hb Hi Hw. rewrite (jackknife_entry C a b HC Ha Hb).
  unfold jackknife_mean.
  rewrite (deviations_nonfinite (seq 0 npatch) _ _ _ i).
  - reflexivity.
  - apply in_seq. lia.
  - now apply ratio_nonfinite.
Qed.

End Jackknife.

(** Two correlation objects hold the same store when their results are
    the same entries, in any order. *)
Definition same_store (c c' : Corr) : Prop :=
  Permutation (results c) (results c') /\ _getStatLen c = _getStatLen c'.

Lemma same_store_keys c c' :
  same_store c c' -> Permutation (store_keys c) (store_keys c').
Proof. intros [H _]. unfold store_keys, dict_keys. now apply Permutation_map. Qed.

Lemma same_store_axis1 c c' : same_store c c' -> axis1 c = axis1 c'.
Proof.
  intros H. unfold axis1. apply count_distinct_perm, Permutation_map.
  now apply same_store_keys.
Qed.

Lemma same_store_axis2 c c' : same_store c c' -> axis2 c = axis2 c'.
Proof.
  intros H. unfold axis2. apply count_distinct_perm, Permutation_map.
  now apply same_store_keys.
Qed.

Lemma patch_structure_perm c c' :
  patch_structure c -> same_store c c' -> patch_structure c'.
Proof.
  intros [Hnd Hne Hr1 Hr2 Hax Hsh] Hs.
  pose proof (same_store_keys _ _ Hs) as Hk.
  split.
  - eapply Permutation_NoDup; eassumption.
  - intros H. rewrite H in Hk. apply Permutation_sym, Permutation_nil in Hk.
    contradiction.
  - rewrite <- (same_store_axis1 _ _ Hs).
    rewrite <- (is_range_perm _ _ _ (Permutation_map fst Hk)). exact Hr1.
  - rewrite <- (same_store_axis2 _ _ Hs).
    rewrite <- (is_range_perm _ _ _ (Permutation_map snd Hk)). exact Hr2.
  - now rewrite <- (same_store_axis1 _ _ Hs), <- (same_store_axis2 _ _ Hs).
  - unfold shaped in *. destruct Hs as [Hp Hl]. rewrite <- Hl.
    eapply Permutation_Forall; eassumption.
Qed.

Lemma ratio_row_perm c c' pairs pairs' :
  NoDup (store_keys c) -> same_store c c' -> Permutation pairs pairs' ->
  ratio_row c pairs = ratio_row c' pairs'.
Proof.
  intros Hnd [Hp Hl] Hpairs. unfold ratio_row. rewrite <- Hl.
  assert (Hs : forall k, stat_of c' k = stat_of c k).
  { intros k. unfold stat_of. now rewrite (dict_get_perm _ _ k Hnd Hp). }
  assert (Hw : forall k, weight_of c' k = weight_of c k).
  { intros k. unfold weight_of. now rewrite (dict_get_perm _ _ k Hnd Hp). }
  rewrite (map_ext _ _ Hs), (map_ext _ _ Hw).
  f_equal; apply sum_rows_perm; now apply Permutation_map.
Qed.

Lemma jackknife_sample_perm c c' i :
  same_store c c' -> Permutation (jackknife_sample c i) (jackknife_sample c' i).
Proof.
  intros Hs. unfold jackknife_sample.
  rewrite <- (same_store_axis1 _ _ Hs), <- (same_store_axis2 _ _ Hs).
  destruct (axis2 c =? 1)%nat; [reflexivity|].
  destruct (axis1 c =? 1)%nat; [reflexivity|].
  (* filtering a permuted list *)
  pose proof (same_store_keys _ _ Hs) as Hk.
  induction Hk; simpl.
  - constructor.
  - destruct (negb _ && negb _); [constructor|]; assumption.
  - destruct (negb (fst y =? i)%nat && negb (snd y =? i)%nat),
             (negb (fst x =? i)%nat && negb (snd x =? i)%nat);
      try reflexivity; constructor.
  - etransitivity; eassumption.
Qed.

(** The jackknife samples do not depend on the order of the store. *)
Lemma jackknife_v_perm c c' :
  NoDup (store_keys c) -> same_store c c' -> jackknife_v c = jackknife_v c'.
Proof.
  intros Hnd Hs. unfold jackknife_v, npatch_of.
  rewrite <- (same_store_axis1 _ _ Hs), <- (same_store_axis2 _ _ Hs).
  apply map_ext. intros i.
  apply ratio_row_perm; [assumption | assumption | now apply jackknife_sample_perm].
Qed.

(** Whatever the list of correlation objects, a covariance returned by
    [_cov_jackknife] is symmetric. *)
Lemma cov_jackknife_symmetric corrs C a b :
  _cov_jackknife corrs = Ok C -> entry C a b = entry C b a.
Proof.
  unfold _cov_jackknife. intros H.
  destruct (_get_patch_nums corrs) as [[[[np l1] l2] ap]|]; [|discriminate].
  cbn [bind] in H.
  destruct (stacked_design _ _ _ _ _) as [[vnum vdenom]|]; [|discriminate].
  cbn [bind] in H.
  destruct (py_div 1 (INR np)); [|discriminate].
  cbn [bind] in H. injection H as <-. apply scatter_symmetric.
Qed.

(** C2: on a store with a valid patch structure (keys numbered [0..n1-1]
    and [0..n2-1], with [n1 = n2] or one of them 1), [_cov_jackknife]
    returns the matrix
    [C = (1 - 1/npatch) * Sum_i (v_i - vmean)(v_i - vmean)^T],
    where [v_i] is the sum of the stats over the pairs of sample [i] divided
    by the sum of their weights (sample [i]: the stored pairs [(j,k)] with
    [j != i] and [k != i]; with a single patch on one axis, the other
    patches paired with patch 0), in numpy's arithmetic.  When no sample
    has a zero summed weight in the components [a] and [b], the entry
    [(a,b)] is the finite number that the formula gives on the reals; when
    some sample has a zero summed weight in the component [a], the entries
    of row [a] are not finite.  [C] is symmetric, and is the same for any
    order of the entries of the store and any order of the samples. *)
Theorem C2_jackknife (c : Corr) :
  patch_structure c ->
  exists C, _cov_jackknife [c] = Ok C /\
    (forall a b, (a < _getStatLen c)%nat -> (b < _getStatLen c)%nat ->
       entry C a b =
       xmul (Finite (1 - 1 / INR (npatch_of c)))
            (xsum (map (fun i =>
                          xmul (xsub (jackknife_estimate c i a) (jackknife_mean c a))
                               (xsub (jackknife_estimate c i b) (jackknife_mean c b)))
                       (seq 0 (npatch_of c))))) /\
    (forall a b, (a < _getStatLen c)%nat -> (b < _getStatLen c)%nat ->
       (forall i, (i < npatch_of c)%nat ->
                  weight_sum c (jackknife_sample c i) a <> 0) ->
       (forall i, (i < npatch_of c)%nat ->
                  weight_sum c (jackknife_sample c i) b <> 0) ->
       entry C a b =
       Finite ((1 - 1 / INR (npatch_of c)) *
               Rsum (map (fun i =>
                            (jackknife_ratio c i a - jackknife_ratio_mean c a) *
                            (jackknife_ratio c i b - jackknife_ratio_mean c b))
                         (seq 0 (npatch_of c))))) /\
    (forall a b i, (a < _getStatLen c)%nat -> (b < _getStatLen c)%nat ->
       (i < npatch_of c)%nat -> weight_sum c (jackknife_sample c i) a = 0 ->
       entry C a b = NonFinite) /\
    (forall a b, entry C a b = entry C b a) /\
    (forall c', same_store c c' -> _cov_jackknife [c'] = Ok C) /\
    (forall v', Permutation (jackknife_v c) v' ->
       C = scatter (Finite (1 - 1 / INR (npatch_of c))) (_getStatLen c) v').
Proof.
  intros Hps.
  pose proof (cov_jackknife_closed_form c Hps) as HC.
  eexists. split; [exact HC|].
  split; [|split; [|split; [|split; [|split]]]].
  - intros a b Ha Hb. now apply jackknife_entry.
  - intros a b Ha Hb Hwa Hwb. now apply jackknife_entry_finite.
  - intros a b i Ha Hb Hi Hw. now apply (jackknife_entry_nonfinite c Hps _ a b i).
  - intros a b. apply scatter_symmetric.
  - intros c' Hs.
    rewrite (cov_jackknife_closed_form c' (patch_structure_perm _ _ Hps Hs)).
    rewrite <- (jackknife_v_perm c c' (ps_nodup c Hps) Hs).
    unfold npatch_of.
    rewrite <- (same_store_axis1 _ _ Hs), <- (same_store_axis2 _ _ Hs).
    destruct Hs as [_ <-]. reflexivity.
  - intros v' Hv. now apply scatter_perm.
Qed.

Definition pr (s w : R) : PatchResult := {| stat := [s]; weight := [w] |}.

(** Two patches on both axes: auto pairs [(0,0)], [(1,1)] and the cross
    pair [(0,1)]. *)
Definition two_patches : Corr :=
  {| results := [((0, 0), pr 1 2); ((0, 1), pr 3 4); ((1, 1), pr 5 6)]%nat;
     _getStatLen := 1; _getWeight := [12]; _var_num := 1; num_bootstrap := 3 |}.

Lemma two_patches_structure : patch_structure two_patches.
Proof.
  split.
  - repeat constructor; simpl; intuition discriminate.
  - discriminate.
  - reflexivity.
  - reflexivity.
  - left. reflexivity.
  - repeat constructor.
Defined.

(** C2 on [two_patches]: the two samples have the summed weights 6 and 2,
    so the variance is finite. *)
Lemma C2_jackknife_witness :
  exists C x, _cov_jackknife [two_patches] = Ok C /\ entry C 0 0 = Finite x /\
              (forall a b, entry C a b = entry C b a).
Proof.
  destruct (C2_jackknife two_patches two_patches_structure)
    as (C & HC & _ & Hfin & _ & Hsym & _).
  exists C. eexists. split; [exact HC|]. split; [|exact Hsym].
  assert (Hw : forall i, (i < npatch_of two_patches)%nat ->
                 weight_sum two_patches (jackknife_sample two_patches i) 0 <> 0).
  { intros i Hi. change (npatch_of two_patches) with 2%nat in Hi.
    destruct i as [|[|i]]; [| |lia]; cbv - [Rplus]; lra. }
  apply (Hfin 0%nat 0%nat); [simpl; lia | simpl; lia | exact Hw | exact Hw].
Defined.

(** Two patches, the auto pair [(1,1)] having no weight: the sample that
    leaves patch 0 out has a zero summed weight, and the variance is not
    finite. *)
Definition weightless_patch : Corr :=
  {| results := [((0, 0), pr 1 2); ((0, 1), pr 3 4); ((1, 1), pr 5 0)]%nat;
     _getStatLen := 1; _getWeight := [6]; _var_num := 1; num_bootstrap := 3 |}.

Lemma weightless_patch_structure : patch_structure weightless_patch.
Proof.
  split.
  - repeat constructor; simpl; intuition discriminate.
  - discriminate.
  - reflexivity.
  - reflexivity.
  - left. reflexivity.
  - repeat constructor.
Qed.

Lemma jackknife_weightless_patch :
  exists C, _cov_jackknife [weightless_patch] = Ok C /\ entry C 0 0 = NonFinite.
Proof.
  eexists. split; [apply (cov_jackknife_closed_form _ weightless_patch_structure)|].
  apply (jackknife_entry_nonfinite _ weightless_patch_structure _ 0%nat 0%nat 0%nat).
  - apply (cov_jackknife_closed_form _ weightless_patch_structure).
  - simpl. lia.
  - simpl. lia.
  - vm_compute. lia.
  - cbv - [Rplus IZR]. lra.
Qed.

(** ** Bootstrap over pairs of patches *)

Definition key_eq_dec (k k' : key) : {k = k'} + {k <> k'}.
Proof. decide equality; apply Nat.eq_dec. Defined.

(** How often patch [i] was drawn, and how often the pair [k] occurs in a
    list of pairs. *)
Definition times_drawn (indx : list nat) (i : nat) : nat := count_occ Nat.eq_dec indx i.
Definition times_used (vp : list key) (k : key) : nat := count_occ key_eq_dec vp k.

Lemma times_used_app u v k : times_used (u ++ v) k = (times_used u k + times_used v k)%nat.
Proof. apply count_occ_app. Qed.

Lemma times_used_cons x l k :
  times_used (x :: l) k = ((if key_eqb x k then 1 else 0) + times_used l k)%nat.
Proof.
  unfold times_used. cbn [count_occ].
  destruct (key_eq_dec x k) as [->|H].
  - now rewrite key_eqb_refl.
  - apply key_eqb_neq in H. now rewrite H.
Qed.

Lemma times_drawn_cons x l i :
  times_drawn (x :: l) i = ((if (x =? i)%nat then 1 else 0) + times_drawn l i)%nat.
Proof.
  unfold times_drawn. cbn [count_occ].
  destruct (Nat.eq_dec x i) as [->|H].
  - now rewrite Nat.eqb_refl.
  - apply Nat.eqb_neq in H. now rewrite H.
Qed.

Lemma times_used_diag indx i j :
  times_used (map (fun x => (x, x)) indx) (i, j) =
  if (i =? j)%nat then times_drawn indx i else 0%nat.
Proof.
  induction indx as [|x indx IH]; cbn [map].
  - now destruct (i =? j)%nat.
  - rewrite times_used_cons, times_drawn_cons, IH. unfold key_eqb; cbn [fst snd].
    destruct (Nat.eqb_spec x i), (Nat.eqb_spec x j), (Nat.eqb_spec i j);
      subst; simpl; try lia; congruence.
Qed.

Lemma times_used_row pairs indx x i j :
  times_used
    (filter (fun ij => negb (fst ij =? snd ij)%nat && key_in ij pairs)
            (map (fun y => (x, y)) indx)) (i, j) =
  if (x =? i)%nat && negb (i =? j)%nat && key_in (i, j) pairs
  then times_drawn indx j else 0%nat.
Proof.
  induction indx as [|y indx IH]; cbn [map filter fst snd].
  - now destruct ((x =? i)%nat && negb (i =? j)%nat && key_in (i, j) pairs).
  - rewrite times_drawn_cons.
    destruct (negb (x =? y)%nat && key_in (x, y) pairs) eqn:Ekeep;
      rewrite ?times_used_cons, IH; unfold key_eqb; cbn [fst snd];
      destruct (Nat.eqb_spec x i), (Nat.eqb_spec y j); subst;
      cbn [andb]; rewrite ?Ekeep;
      destruct (negb (i =? j)%nat && key_in (i, j) pairs); lia.
Qed.

Lemma times_used_cross pairs indx indx' i j :
  times_used
    (flat_map (fun x =>
                 filter (fun ij => negb (fst ij =? snd ij)%nat && key_in ij pairs)
                        (map (fun y => (x, y)) indx'))
              indx) (i, j) =
  if negb (i =? j)%nat && key_in (i, j) pairs
  then (times_drawn indx i * times_drawn indx' j)%nat else 0%nat.
Proof.
  induction indx as [|x indx IH]; cbn [flat_map].
  - now destruct (negb (i =? j)%nat && key_in (i, j) pairs).
  - rewrite times_used_app, times_used_row, IH, times_drawn_cons.
    rewrite <- andb_assoc.
    destruct (Nat.eqb_spec x i); cbn [andb];
      destruct (negb (i =? j)%nat && key_in (i, j) pairs); lia.
Qed.

(** In the symmetric case a draw uses the auto pair [(i,i)] once per
    repetition of [i], and a stored cross pair [(i,j)] as many times as the
    repetitions of [i] times the repetitions of [j]. *)
Lemma bootstrap2_pairs_symmetric n pairs indx :
  n <> 1%nat ->
  exists vp, bootstrap2_pairs n n pairs indx = Ok vp /\
    (forall i, times_used vp (i, i) = times_drawn indx i) /\
    (forall i j, i <> j ->
       times_used vp (i, j) =
       if key_in (i, j) pairs
       then (times_drawn indx i * times_drawn indx j)%nat else 0%nat).
Proof.
  intros Hn. unfold bootstrap2_pairs.
  destruct (Nat.eqb_spec n 1); [contradiction|].
  rewrite Nat.eqb_refl. cbn [guard bind].
  eexists. split; [reflexivity|]. split.
  - intros i. rewrite times_used_app, times_used_diag, times_used_cross.
    rewrite Nat.eqb_refl. simpl. lia.
  - intros i j Hij. rewrite times_used_app, times_used_diag, times_used_cross.
    destruct (Nat.eqb_spec i j); [contradiction|]. reflexivity.
Qed.

(** Three patches on both axes. *)
Definition three_patches : Corr :=
  {| results := [((0, 0), pr 1 2); ((0, 1), pr 3 4); ((1, 1), pr 5 6);
                 ((2, 2), pr 7 8)]%nat;
     _getStatLen := 1; _getWeight := [20]; _var_num := 1; num_bootstrap := 2 |}.

(** C3, as stated, fails: in the draw [0, 0, 1] of three patches the stored
    cross pair [(0,1)], both of whose endpoints are drawn, is used twice. *)
Lemma C3_cross_pair_repeated :
  exists vp,
    bootstrap2_pairs (axis1 three_patches) (axis2 three_patches)
                     (store_keys three_patches) [0; 0; 1]%nat = Ok vp /\
    axis1 three_patches = 3%nat /\ axis2 three_patches = 3%nat /\
    In (0, 1)%nat (store_keys three_patches) /\
    times_used vp (0, 1)%nat = 2%nat /\
    times_used vp (0, 1)%nat <> 1%nat.
Proof.
  eexists. split; [reflexivity|].
  repeat split; try reflexivity.
  - simpl. tauto.
  - vm_compute. discriminate.
Qed.

Section Bootstrap2.

Variable c : Corr.
Variable rng : random_source.

Local Abbreviation keys := (store_keys c).
Local Abbreviation nboot := (Z.to_nat (num_bootstrap c)).

Hypothesis Hps : patch_structure c.
Hypothesis Hn1 : axis1 c <> 1%nat.
Hypothesis Hn2 : axis2 c <> 1%nat.
(** The auto pair of every drawn patch is stored. *)
Hypothesis Hdrawn :
  forall k i, (k < nboot)%nat -> In i (rng k) -> In (i, i) keys.

(** The pairs of resampling [k]. *)
Definition resample (k : nat) : list key :=
  match bootstrap2_pairs (axis1 c) (axis2 c) keys (rng k) with
  | Ok vp => vp
  | Raise _ => []
  end.

Lemma axes_equal : axis1 c = axis2 c.
Proof. destruct (ps_axes c Hps) as [H | [H | H]]; congruence. Qed.

Lemma resample_ok k :
  bootstrap2_pairs (axis1 c) (axis2 c) keys (rng k) = Ok (resample k).
Proof.
  unfold resample. rewrite <- axes_equal.
  destruct (bootstrap2_pairs_symmetric (axis1 c) keys (rng k) Hn1) as (vp & -> & _).
  reflexivity.
Qed.

Lemma resample_stored k : (k < nboot)%nat -> incl (resample k) keys.
Proof.
  intros Hk. pose proof (resample_ok k) as H.
  unfold bootstrap2_pairs in H.
  destruct (Nat.eqb_spec (axis2 c) 1); [contradiction|].
  destruct (Nat.eqb_spec (axis1 c) 1); [contradiction|].
  rewrite axes_equal, Nat.eqb_refl in H. cbn [guard bind] in H.
  injection H as H. rewrite <- H. intros ij Hin.
  apply in_app_or in Hin. destruct Hin as [Hin|Hin].
  - apply in_map_iff in Hin. destruct Hin as [i [<- Hi]]. now apply (Hdrawn k).
  - apply in_flat_map in Hin. destruct Hin as [i [_ Hin]].
    apply filter_In in Hin. destruct Hin as [_ Hin].
    apply andb_true_iff in Hin. destruct Hin as [_ Hin]. now apply key_in_spec.
Qed.

(** The resampled statistics: row [k] is the statistic of resampling [k]. *)
Definition bootstrap2_v : xmatrix :=
  map (fun k => ratio_row c (resample k)) (seq 0 nboot).

Lemma bootstrap2_resamples_closed_form :
  bootstrap2_resamples [c] rng = Ok (num_bootstrap c, bootstrap2_v).
Proof.
  unfold bootstrap2_resamples. rewrite (get_patch_nums_single c Hps). cbn [bind].
  cbn [map np_max fold_left bind zip4 bootstrap2_designs].
  rewrite (mapM_ok _ resample)
    by (apply Forall_forall; intros k _; apply resample_ok).
  cbn [bind].
  rewrite design_matrix_ok.
  2:{ apply Forall_forall. intros p Hp. apply in_map_iff in Hp.
      destruct Hp as [k [<- Hk]]. apply resample_stored. apply in_seq in Hk. lia. }
  cbn [bind map fst snd]. rewrite !hstack_single. cbn [bind].
  rewrite !map_map. unfold bootstrap2_v. do 2 f_equal.
  exact (zip_with_map vdiv
           (fun k => sum_rows (_getStatLen c) (map (stat_of c) (resample k)))
           (fun k => sum_rows (_getStatLen c) (map (weight_of c) (resample k)))
           (seq 0 nboot)).
Qed.

Lemma bootstrap2_v_shape : Forall (fun r => length r = _getStatLen c) bootstrap2_v.
Proof.
  unfold bootstrap2_v. apply Forall_forall. intros r Hr.
  apply in_map_iff in Hr. destruct Hr as [k [<- Hk]].
  apply length_ratio_row; [apply (ps_shaped c Hps)|].
  apply resample_stored. apply in_seq in Hk. lia.
Qed.

Lemma cov_bootstrap2_closed_form :
  _cov_bootstrap2 [c] rng =
  Ok (scatter (np_div 1 (IZR (num_bootstrap c) - 1)) (_getStatLen c) bootstrap2_v).
Proof.
  unfold _cov_bootstrap2. rewrite bootstrap2_resamples_closed_form. cbn [bind].
  do 2 f_equal. unfold total_len. simpl. lia.
Qed.

(** The statistic of resampling [k], component [a], and its mean over the
    resamplings, as numpy computes them. *)
Definition bootstrap2_estimate (k a : nat) : npfloat := ratio c (resample k) a.

Definition bootstrap2_mean (a : nat) : npfloat :=
  xdivr (xsum (map (fun k => bootstrap2_estimate k a) (seq 0 nboot))) (INR nboot).

(** The same as real numbers, for resamplings with a nonzero summed
    weight. *)
Definition bootstrap2_ratio (k a : nat) : R :=
  stat_sum c (resample k) a / weight_sum c (resample k) a.

Definition bootstrap2_ratio_mean (a : nat) : R :=
  Rsum (map (fun k => bootstrap2_ratio k a) (seq 0 nboot)) / INR nboot.

Lemma bootstrap2_entry a b :
  (a < _getStatLen c)%nat -> (b < _getStatLen c)%nat ->
  entry (scatter (np_div 1 (IZR (num_bootstrap c) - 1)) (_getStatLen c) bootstrap2_v) a b =
  xmul (np_div 1 (IZR (num_bootstrap c) - 1))
       (xsum (map (fun k => xmul (xsub (bootstrap2_estimate k a) (bootstrap2_mean a))
                                 (xsub (bootstrap2_estimate k b) (bootstrap2_mean b)))
                  (seq 0 nboot))).
Proof.
  intros Ha Hb.
  rewrite entry_scatter by (try apply bootstrap2_v_shape; assumption).
  f_equal.
  assert (Hnth : forall k x, In k (seq 0 nboot) -> (x < _getStatLen c)%nat ->
            nth x (ratio_row c (resample k)) (Finite 0) = bootstrap2_estimate k x).
  { intros k x Hk Hx. apply ratio_row_nth;
      [apply (ps_shaped c Hps) | | assumption].
    apply resample_stored. apply in_seq in Hk. lia. }
  assert (Hmean : forall x, (x < _getStatLen c)%nat ->
                    sample_mean bootstrap2_v x = bootstrap2_mean x).
  { intros x Hx. unfold sample_mean, bootstrap2_mean, bootstrap2_v, col.
    rewrite length_map, length_seq, map_map. f_equal.
    apply xsum_map_ext. intros k Hk. now apply Hnth. }
  unfold bootstrap2_v at 3. rewrite map_map.
  apply xsum_map_ext. intros k Hk.
  now rewrite !Hnth, !Hmean.
Qed.

Lemma bootstrap2_entry_finite a b :
  (2 <= num_bootstrap c)%Z ->
  (forall k, (k < nboot)%nat -> weight_sum c (resample k) a <> 0) ->
  (forall k, (k < nboot)%nat -> weight_sum c (resample k) b <> 0) ->
  xmul (np_div 1 (IZR (num_bootstrap c) - 1))
       (xsum (map (fun k => xmul (xsub (bootstrap2_estimate k a) (bootstrap2_mean a))
                                 (xsub (bootstrap2_estimate k b) (bootstrap2_mean b)))
                  (seq 0 nboot))) =
  Finite (1 / (IZR (num_bootstrap c) - 1) *
          Rsum (map (fun k => (bootstrap2_ratio k a - bootstrap2_ratio_mean a) *
                              (bootstrap2_ratio k b - bootstrap2_ratio_mean b))
                    (seq 0 nboot))).
Proof.
  intros Hnb Hwa Hwb. unfold bootstrap2_mean.
  rewrite (deviations_finite (seq 0 nboot) _ _
             (fun k => bootstrap2_ratio k a) (fun k => bootstrap2_ratio k b)).
  - rewrite np_div_finite; [reflexivity|].
    apply IZR_le in Hnb. lra.
  - apply not_0_INR. lia.
  - intros k Hk. apply in_seq in Hk. apply ratio_finite. apply Hwa. lia.
  - intros k Hk. apply in_seq in Hk. apply ratio_finite. apply Hwb. lia.
Qed.

End Bootstrap2.

(** C3 (amended): in every bootstrap2 draw of the symmetric case (more than
    one patch on both axes) the pairs of the resampling contain the auto
    pair [(i,i)] once per repetition of [i] in the draw, and each stored
    cross pair [(i,j)], [i != j], as many times as the number of repetitions
    of [i] times the number of repetitions of [j] (none when it is not
    stored).  The statistic of a resampling is the summed stat over these
    pairs divided by the summed weight, and
    [C = 1/(nboot-1) * Sum_k (v_k - vmean)(v_k - vmean)^T] in numpy's
    arithmetic: with at least two resamplings, none of which has a zero
    summed weight in the components [a] and [b], the entry [(a,b)] is the
    finite number that the formula gives on the reals; with a single
    resampling the factor is infinite and no entry is finite. *)
Theorem C3_bootstrap2 (c : Corr) (rng : random_source) :
  patch_structure c ->
  axis1 c <> 1%nat -> axis2 c <> 1%nat ->
  (forall k i, (k < Z.to_nat (num_bootstrap c))%nat ->
               In i (rng k) -> In (i, i) (store_keys c)) ->
  (forall k,
     bootstrap2_pairs (axis1 c) (axis2 c) (store_keys c) (rng k) = Ok (resample c rng k) /\
     (forall i, times_used (resample c rng k) (i, i) = times_drawn (rng k) i) /\
     (forall i j, i <> j ->
        times_used (resample c rng k) (i, j) =
        if key_in (i, j) (store_keys c)
        then (times_drawn (rng k) i * times_drawn (rng k) j)%nat else 0%nat)) /\
  exists C, _cov_bootstrap2 [c] rng = Ok C /\
    (forall a b, (a < _getStatLen c)%nat -> (b < _getStatLen c)%nat ->
       entry C a b =
       xmul (np_div 1 (IZR (num_bootstrap c) - 1))
            (xsum (map (fun k =>
                          xmul (xsub (bootstrap2_estimate c rng k a) (bootstrap2_mean c rng a))
                               (xsub (bootstrap2_estimate c rng k b) (bootstrap2_mean c rng b)))
                       (seq 0 (Z.to_nat (num_bootstrap c)))))) /\
    (forall a b, (a < _getStatLen c)%nat -> (b < _getStatLen c)%nat ->
       (2 <= num_bootstrap c)%Z ->
       (forall k, (k < Z.to_nat (num_bootstrap c))%nat ->
                  weight_sum c (resample c rng k) a <> 0) ->
       (forall k, (k < Z.to_nat (num_bootstrap c))%nat ->
                  weight_sum c (resample c rng k) b <> 0) ->
       entry C a b =
       Finite (1 / (IZR (num_bootstrap c) - 1) *
               Rsum (map (fun k =>
                            (bootstrap2_ratio c rng k a - bootstrap2_ratio_mean c rng a) *
                            (bootstrap2_ratio c rng k b - bootstrap2_ratio_mean c rng b))
                         (seq 0 (Z.to_nat (num_bootstrap c)))))) /\
    (forall a b, (a < _getStatLen c)%nat -> (b < _getStatLen c)%nat ->
       num_bootstrap c = 1%Z -> entry C a b = NonFinite).
Proof.
  intros Hps Hn1 Hn2 Hdrawn. split.
  - intros k.
    pose proof (resample_ok c rng Hps Hn1 Hn2 k) as Hr.
    split; [exact Hr|].
    rewrite <- (axes_equal c Hps Hn1 Hn2) in Hr.
    destruct (bootstrap2_pairs_symmetric (axis1 c) (store_keys c) (rng k) Hn1)
      as (vp & Hvp & Hauto & Hcross).
    rewrite Hr in Hvp. injection Hvp as <-. split; assumption.
  - eexists. split; [now apply cov_bootstrap2_closed_form|].
    split; [|split].
    + intros a b Ha Hb. now apply bootstrap2_entry.
    + intros a b Ha Hb Hnb Hwa Hwb.
      rewrite bootstrap2_entry by assumption.
      now apply bootstrap2_entry_finite.
    + intros a b Ha Hb H1.
      rewrite bootstrap2_entry by assumption.
      rewrite H1. replace (1 - 1) with 0 by lra. now rewrite np_div_zero.
Qed.

Lemma three_patches_structure : patch_structure three_patches.
Proof.
  split.
  - repeat constructor; simpl; intuition discriminate.
  - discriminate.
  - reflexivity.
  - reflexivity.
  - left. reflexivity.
  - repeat constructor.
Defined.

(** C3 (amended) on [three_patches], every draw being [0, 0, 1]: the cross
    pair [(0,1)] is used twice, the auto pair [(0,0)] twice. *)
Lemma C3_bootstrap2_witness :
  times_used (resample three_patches (fun _ => [0; 0; 1]%nat) 0) (0, 1)%nat = 2%nat /\
  times_used (resample three_patches (fun _ => [0; 0; 1]%nat) 0) (0, 0)%nat = 2%nat /\
  exists C, _cov_bootstrap2 [three_patches] (fun _ => [0; 0; 1]%nat) = Ok C.
Proof.
  destruct (C3_bootstrap2 three_patches (fun _ => [0; 0; 1]%nat))
    as (Hpairs & C & HC & _).
  - exact three_patches_structure.
  - vm_compute. discriminate.
  - vm_compute. discriminate.
  - intros k i _ Hi. simpl in Hi. simpl.
    destruct Hi as [<- | [<- | [<- | []]]]; tauto.
  - destruct (Hpairs 0%nat) as (_ & Hauto & Hcross).
    split; [|split].
    + rewrite Hcross by discriminate. reflexivity.
    + rewrite Hauto. reflexivity.
    + exists C. exact HC.
Defined.

(** ** The number of bootstrap resamplings *)

(** [m] is the maximum of the list [l]. *)
Definition is_max (m : Z) (l : list Z) : Prop :=
  In m l /\ Forall (fun x => (x <= m)%Z) l.

Lemma fold_max_spec xs x :
  let m := fold_left Z.max xs x in
  In m (x :: xs) /\ (x <= m)%Z /\ Forall (fun y => (y <= m)%Z) xs.
Proof.
  revert x. induction xs as [|y xs IH]; intros x; simpl.
  - repeat split; [now left | lia | constructor].
  - destruct (IH (Z.max x y)) as (Hin & Hle & Hall).
    split; [|split].
    + destruct Hin as [Hin|Hin]; [|right; right; exact Hin].
      destruct (Z.max_spec x y) as [[_ Hm]|[_ Hm]].
      * right; left. rewrite <- Hin. now symmetry.
      * left. rewrite <- Hin. now symmetry.
    + lia.
    + constructor; [lia | assumption].
Qed.

Lemma np_max_spec l m : np_max l = Ok m -> is_max m l.
Proof.
  destruct l as [|x xs]; simpl; [discriminate|].
  intros [= <-]. destruct (fold_max_spec xs x) as (Hin & Hle & Hall).
  split; [assumption | constructor; assumption].
Qed.

Lemma hstack_length ms m :
  hstack ms = Ok m -> exists m0 rest, ms = m0 :: rest /\ length m = length m0.
Proof.
  destruct ms as [|m0 rest]; simpl; [discriminate|].
  destruct (forallb (fun m' => (length m' =? length m0)%nat) rest); simpl; [|discriminate].
  intros [= <-]. exists m0, rest. split; [reflexivity|].
  now rewrite length_map, length_seq.
Qed.

Lemma design_matrix_length c all_pairs vnum vdenom :
  _make_cov_design_matrix c all_pairs = Ok (vnum, vdenom) ->
  length vnum = length all_pairs /\ length vdenom = length all_pairs.
Proof.
  unfold _make_cov_design_matrix. intros H.
  destruct (mapM (design_row c) all_pairs) as [rows|] eqn:E; [|discriminate].
  cbn [bind] in H. injection H as <- <-.
  rewrite !length_map. apply mapM_length in E. auto.
Qed.

Lemma bootstrap2_designs_rows n rng first xs nd :
  bootstrap2_designs n rng first xs = Ok nd ->
  length nd = length xs /\
  Forall (fun d => length (fst d) = n /\ length (snd d) = n) nd.
Proof.
  revert first nd. induction xs as [|[[[c n1] n2] pairs] xs IH]; intros first nd H.
  - simpl in H. injection H as <-. split; [reflexivity | constructor].
  - cbn [bootstrap2_designs] in H.
    destruct (mapM _ (seq 0 n)) as [vpairs|] eqn:Evp; [|discriminate].
    cbn [bind] in H.
    destruct (_make_cov_design_matrix c vpairs) as [[vn vd]|] eqn:Ed; [|discriminate].
    cbn [bind] in H.
    destruct (bootstrap2_designs n rng (first + n) xs) as [rest|] eqn:Er; [|discriminate].
    cbn [bind] in H. injection H as <-.
    destruct (IH _ _ Er) as [Hlen Hall].
    apply mapM_length in Evp. rewrite length_seq in Evp.
    apply design_matrix_length in Ed. destruct Ed as [Hvn Hvd].
    split; [simpl; now rewrite Hlen|].
    constructor; [simpl; lia | assumption].
Qed.

Lemma bootstrap_resamples_spec corrs rng nboot v :
  bootstrap_resamples corrs rng = Ok (nboot, v) ->
  is_max nboot (map num_bootstrap corrs) /\ length v = Z.to_nat nboot.
Proof.
  unfold bootstrap_resamples. intros H.
  destruct (_get_patch_nums corrs) as [[[[np l1] l2] ap]|]; [|discriminate].
  cbn [bind] in H.
  destruct (stacked_design _ _ _ _ _) as [[vnum vdenom]|]; [|discriminate].
  cbn [bind] in H.
  destruct (np_max (map num_bootstrap corrs)) as [m|] eqn:Em; [|discriminate].
  cbn [bind] in H.
  destruct (guard _ _); [|discriminate]. cbn [bind] in H.
  destruct (mapM _ (seq 0 (Z.to_nat m))) as [rows|] eqn:Er; [|discriminate].
  cbn [bind] in H. injection H as <- <-.
  split; [now apply np_max_spec|].
  apply mapM_length in Er. now rewrite length_seq in Er.
Qed.

Lemma get_patch_nums_shape corrs np l1 l2 ap :
  _get_patch_nums corrs = Ok (np, l1, l2, ap) ->
  zip4 corrs l1 l2 ap <> [].
Proof.
  destruct corrs as [|c0 rest]; simpl; [discriminate|].
  intros H.
  repeat (match type of H with
          | bind (guard ?g ?e) _ = _ => destruct g; cbn [guard bind] in H; [|discriminate]
          end).
  destruct (other_patch_nums _ rest) as [[[a b] d]|]; [|discriminate].
  cbn [bind] in H. injection H as <- <- <- <-. discriminate.
Qed.

Lemma bootstrap2_resamples_spec corrs rng nboot v :
  bootstrap2_resamples corrs rng = Ok (nboot, v) ->
  is_max nboot (map num_bootstrap corrs) /\ length v = Z.to_nat nboot.
Proof.
  unfold bootstrap2_resamples. intros H.
  destruct (_get_patch_nums corrs) as [[[[np l1] l2] ap]|] eqn:Eg; [|discriminate].
  cbn [bind] in H.
  destruct (np_max (map num_bootstrap corrs)) as [m|] eqn:Em; [|discriminate].
  cbn [bind] in H.
  destruct (bootstrap2_designs _ _ _ _) as [nd|] eqn:End; [|discriminate].
  cbn [bind] in H.
  destruct (hstack (map fst nd)) as [vnum|] eqn:Evn; [|discriminate].
  cbn [bind] in H.
  destruct (hstack (map snd nd)) as [vdenom|] eqn:Evd; [|discriminate].
  cbn [bind] in H. injection H as <- <-.
  split; [now apply np_max_spec|].
  apply bootstrap2_designs_rows in End. destruct End as [Hlen Hall].
  apply hstack_length in Evn, Evd.
  destruct Evn as (m0 & r0 & E0 & L0), Evd as (m1 & r1 & E1 & L1).
  destruct nd as [|d nd]; [discriminate|].
  simpl in E0, E1. injection E0 as <- _. injection E1 as <- _.
  inversion Hall as [|? ? [Hd1 Hd2] _]; subst.
  rewrite zip_with_length. unfold matrix, vec in *. simpl in *. lia.
Qed.

(** *** The shape of the stacked design matrices *)

Lemma mapM_in {A B : Type} (f : A -> result B) (l : list A) (r : list B) y :
  mapM f l = Ok r -> In y r -> exists x, In x l /\ f x = Ok y.
Proof.
  revert r. induction l as [|x l IH]; intros r H Hy; simpl in H.
  - injection H as <-. contradiction.
  - destruct (f x) as [y0|] eqn:Ex; [|discriminate]. cbn [bind] in H.
    destruct (mapM f l) as [r0|]; [|discriminate]. cbn [bind] in H.
    injection H as <-. destruct Hy as [<- | Hy].
    + exists x. split; [now left | assumption].
    + destruct (IH r0 eq_refl Hy) as (x' & Hx' & Hf). exists x'. split; [now right | assumption].
Qed.

Lemma mapM_Forall2 {A B : Type} (f : A -> result B) (l : list A) (r : list B) :
  mapM f l = Ok r -> Forall2 (fun x y => f x = Ok y) l r.
Proof.
  revert r. induction l as [|x l IH]; intros r H; simpl in H.
  - injection H as <-. constructor.
  - destruct (f x) as [y0|] eqn:Ex; [|discriminate]. cbn [bind] in H.
    destruct (mapM f l) as [r0|]; [|discriminate]. cbn [bind] in H.
    injection H as <-. constructor; [assumption | now apply IH].
Qed.

Lemma mapM_map_inv {A B : Type} (f : A -> result B) (g : A -> B) (l : list A) (r : list B) :
  mapM f l = Ok r -> (forall x y, In x l -> f x = Ok y -> y = g x) -> r = map g l.
Proof.
  revert r. induction l as [|x l IH]; intros r H Hg; simpl in H.
  - now injection H as <-.
  - destruct (f x) as [y0|] eqn:Ex; [|discriminate]. cbn [bind] in H.
    destruct (mapM f l) as [r0|] eqn:El; [|discriminate]. cbn [bind] in H.
    injection H as <-. simpl. f_equal.
    + apply Hg; [now left | assumption].
    + apply IH; [reflexivity|]. intros x' y' Hx'. apply Hg. now right.
Qed.

Lemma design_row_shape c pairs rn rd :
  shaped c -> design_row c pairs = Ok (rn, rd) ->
  length rn = _getStatLen c /\ length rd = _getStatLen c.
Proof.
  intros Hs H. unfold design_row in H.
  destruct (mapM (lookup c) pairs) as [prs|] eqn:E; [|discriminate].
  cbn [bind] in H. injection H as <- <-.
  assert (Hprs : forall p, In p prs ->
            length (stat p) = _getStatLen c /\ length (weight p) = _getStatLen c).
  { intros p Hp. destruct (mapM_in _ _ _ _ E Hp) as (k & _ & Hk).
    unfold lookup in Hk. destruct (dict_get (results c) k) as [p'|] eqn:Eg; [|discriminate].
    injection Hk as ->. apply dict_get_in in Eg.
    unfold shaped in Hs. rewrite Forall_forall in Hs. exact (Hs _ Eg). }
  split; apply length_sum_rows; apply Forall_forall; intros r Hr;
    apply in_map_iff in Hr; destruct Hr as [p [<- Hp]]; now apply Hprs.
Qed.

Lemma design_matrix_shape c all_pairs vnum vdenom :
  shaped c -> _make_cov_design_matrix c all_pairs = Ok (vnum, vdenom) ->
  Forall (fun r => length r = _getStatLen c) vnum /\
  Forall (fun r => length r = _getStatLen c) vdenom.
Proof.
  intros Hs H. unfold _make_cov_design_matrix in H.
  destruct (mapM (design_row c) all_pairs) as [rows|] eqn:E; [|discriminate].
  cbn [bind] in H. injection H as <- <-.
  split; apply Forall_forall; intros r Hr; apply in_map_iff in Hr;
    destruct Hr as [[rn rd] [<- Hin]];
    destruct (mapM_in _ _ _ _ E Hin) as (pairs & _ & Hrow);
    now destruct (design_row_shape c pairs rn rd Hs Hrow).
Qed.

(** Blocks of the given widths, stacked side by side. *)
Definition blocks_of (ws : list nat) (ms : list matrix) : Prop :=
  Forall2 (fun blk w => Forall (fun r => length r = w) blk) ms ws.

Lemma stacked_row_length ms ws i L :
  blocks_of ws ms -> Forall (fun blk => length blk = L) ms -> (i < L)%nat ->
  length (concat (map (fun m' : matrix => nth i m' []) ms)) = list_sum ws.
Proof.
  intros Hb. induction Hb as [|blk w ms ws Hblk _ IH]; intros HL Hi; [reflexivity|].
  inversion HL as [|? ? Hlen HL']; subst.
  change (list_sum (w :: ws)) with (w + list_sum ws)%nat.
  cbn [map concat]. rewrite length_app, (IH HL' Hi). f_equal.
  rewrite Forall_forall in Hblk. apply Hblk. apply nth_In. lia.
Qed.

Lemma hstack_rows ms m ws :
  hstack ms = Ok m -> blocks_of ws ms -> Forall (fun r => length r = list_sum ws) m.
Proof.
  intros H Hb. destruct ms as [|m0 rest]; [discriminate|].
  unfold hstack in H.
  destruct (forallb (fun m' => (length m' =? length m0)%nat) rest) eqn:E;
    cbn [guard bind] in H; [|discriminate].
  injection H as <-. apply Forall_forall. intros r Hr.
  apply in_map_iff in Hr. destruct Hr as [i [<- Hi]]. apply in_seq in Hi.
  apply (stacked_row_length (m0 :: rest) ws i (length m0)); [assumption | | lia].
  constructor; [reflexivity|].
  rewrite forallb_forall in E. apply Forall_forall. intros blk Hblk.
  now apply Nat.eqb_eq, E.
Qed.

(** The correlation object of an element of
    [zip(corrs, npatch1, npatch2, all_pairs)]. *)
Definition corr_of (x : Corr * nat * nat * list key) : Corr :=
  let '(c, _, _, _) := x in c.

Lemma other_patch_nums_lists npatch cs l1 l2 ap :
  other_patch_nums npatch cs = Ok (l1, l2, ap) ->
  length l1 = length cs /\ length l2 = length cs /\ length ap = length cs.
Proof.
  revert l1 l2 ap. induction cs as [|c cs IH]; intros l1 l2 ap H.
  - simpl in H. injection H as <- <- <-. auto.
  - cbn [other_patch_nums] in H.
    destruct (guard _ _); cbn [bind] in H; [|discriminate].
    destruct (other_patch_nums npatch cs) as [[[a1 a2] a3]|]; [|discriminate].
    cbn [bind] in H. injection H as <- <- <-.
    destruct (IH _ _ _ eq_refl) as (H1 & H2 & H3). simpl. auto.
Qed.

Lemma get_patch_nums_lists corrs np l1 l2 ap :
  _get_patch_nums corrs = Ok (np, l1, l2, ap) ->
  length l1 = length corrs /\ length l2 = length corrs /\ length ap = length corrs.
Proof.
  destruct corrs as [|c0 rest]; [discriminate|].
  unfold _get_patch_nums. intros H.
  repeat (match type of H with
          | bind (guard ?g ?e) _ = _ => destruct g; cbn [guard bind] in H; [|discriminate]
          end).
  destruct (other_patch_nums _ rest) as [[[a1 a2] a3]|] eqn:E; [|discriminate].
  cbn [bind] in H. injection H as <- <- <- <-.
  destruct (other_patch_nums_lists _ _ _ _ _ E) as (H1 & H2 & H3). simpl. auto.
Qed.

Lemma zip4_corrs (corrs : list Corr) (l1 l2 : list nat) (ap : list (list key)) :
  length l1 = length corrs -> length l2 = length corrs -> length ap = length corrs ->
  map corr_of (zip4 corrs l1 l2 ap) = corrs.
Proof.
  revert l1 l2 ap. induction corrs as [|c corrs IH]; intros [|x1 l1] [|x2 l2] [|x3 ap];
    simpl; intros H1 H2 H3; try discriminate; [reflexivity|].
  f_equal. apply IH; lia.
Qed.

(** Design matrices made for the correlation objects of [xs], in order. *)
Definition designs_for (xs : list (Corr * nat * nat * list key)) (nd : list (matrix * matrix))
  : Prop :=
  Forall2 (fun x d => exists vpairs, _make_cov_design_matrix (corr_of x) vpairs = Ok d) xs nd.

Lemma designs_blocks xs nd :
  designs_for xs nd -> Forall (fun x => shaped (corr_of x)) xs ->
  blocks_of (map (fun x => _getStatLen (corr_of x)) xs) (map fst nd) /\
  blocks_of (map (fun x => _getStatLen (corr_of x)) xs) (map snd nd).
Proof.
  intros Hd. induction Hd as [|x [vn vd] xs nd [vpairs Hx] _ IH]; intros Hs.
  - split; constructor.
  - inversion Hs as [|? ? Hsx Hs']; subst.
    destruct (IH Hs') as [IH1 IH2].
    destruct (design_matrix_shape _ _ _ _ Hsx Hx) as [H1 H2].
    split; constructor; assumption.
Qed.

Lemma stacked_shape xs nd corrs vnum vdenom :
  designs_for xs nd -> map corr_of xs = corrs -> Forall shaped corrs ->
  hstack (map fst nd) = Ok vnum -> hstack (map snd nd) = Ok vdenom ->
  Forall (fun r => length r = total_len corrs) vnum /\
  Forall (fun r => length r = total_len corrs) vdenom.
Proof.
  intros Hd Hc Hs Hn Hdn.
  assert (Hs' : Forall (fun x => shaped (corr_of x)) xs).
  { rewrite <- Hc in Hs. now rewrite Forall_map in Hs. }
  destruct (designs_blocks xs nd Hd Hs') as [B1 B2].
  assert (Hw : list_sum (map (fun x => _getStatLen (corr_of x)) xs) = total_len corrs).
  { unfold total_len. now rewrite <- Hc, map_map. }
  rewrite <- Hw. split; [now apply (hstack_rows (map fst nd)) | now apply (hstack_rows (map snd nd))].
Qed.

Lemma stacked_design_shape mk corrs np l1 l2 ap vnum vdenom :
  Forall shaped corrs ->
  _get_patch_nums corrs = Ok (np, l1, l2, ap) ->
  stacked_design mk corrs l1 l2 ap = Ok (vnum, vdenom) ->
  Forall (fun r => length r = total_len corrs) vnum /\
  Forall (fun r => length r = total_len corrs) vdenom.
Proof.
  intros Hs Hg H. unfold stacked_design in H.
  destruct (mapM _ (zip4 corrs l1 l2 ap)) as [nd|] eqn:E; [|discriminate].
  cbn [bind] in H.
  destruct (hstack (map fst nd)) as [vn|] eqn:En; [|discriminate]. cbn [bind] in H.
  destruct (hstack (map snd nd)) as [vd|] eqn:Ed; [|discriminate]. cbn [bind] in H.
  injection H as <- <-.
  destruct (get_patch_nums_lists _ _ _ _ _ Hg) as (H1 & H2 & H3).
  apply (stacked_shape (zip4 corrs l1 l2 ap) nd); try assumption.
  - apply mapM_Forall2 in E. unfold designs_for.
    eapply Forall2_impl; [|exact E].
    intros [[[c n1] n2] pairs] d Hx. cbn [corr_of].
    destruct (mk n1 n2 pairs) as [vpairs|]; [|discriminate].
    cbn [bind] in Hx. now exists vpairs.
  - now apply zip4_corrs.
Qed.

(** *** Which draw each resampling uses *)

(** The rows of [a] at the indices [indx]. *)
Definition pick (a : matrix) (indx : list nat) : matrix := map (fun i => nth i a []) indx.

Lemma take_rows_pick a indx rn :
  take_rows a indx = Ok rn ->
  rn = pick a indx /\ Forall (fun i => (i < length a)%nat) indx.
Proof.
  unfold take_rows, pick. revert rn.
  induction indx as [|i indx IH]; intros rn H; simpl in H.
  - injection H as <-. split; [reflexivity | constructor].
  - destruct (nth_error a i) as [row|] eqn:E; cbn [bind] in H; [|discriminate].
    destruct (mapM _ indx) as [rows|]; [|discriminate]. cbn [bind] in H.
    injection H as <-. destruct (IH rows eq_refl) as [-> Hall].
    split.
    + simpl. f_equal. symmetry. now apply nth_error_nth.
    + constructor; [|assumption]. apply nth_error_Some. congruence.
Qed.

(** Resampling [k] of [_cov_bootstrap], made from draw [k]. *)
Definition bootstrap_resample (n : nat) (vnum vdenom : matrix) (rng : random_source)
    (k : nat) : xvec :=
  vdiv (sum_rows n (pick vnum (rng k))) (sum_rows n (pick vdenom (rng k))).

(** In [_cov_bootstrap2], correlation object number [j] makes its
    resampling [k] from draw number [j * nboot + k]. *)
Definition resampled_designs (nboot : nat) (rng : random_source) (first : nat)
    (xs : list (Corr * nat * nat * list key)) (nd : list (matrix * matrix)) : Prop :=
  forall j c n1 n2 pairs d,
    nth_error xs j = Some (c, n1, n2, pairs) -> nth_error nd j = Some d ->
    exists vpairs,
      length vpairs = nboot /\
      (forall k, (k < nboot)%nat ->
         bootstrap2_pairs n1 n2 pairs (rng (first + j * nboot + k)%nat) =
         Ok (nth k vpairs [])) /\
      _make_cov_design_matrix c vpairs = Ok d.

Lemma mapM_seq_nth {B : Type} (f : nat -> result B) n (r : list B) (d : B) k :
  mapM f (seq 0 n) = Ok r -> (k < n)%nat -> f k = Ok (nth k r d).
Proof.
  intros H Hk.
  destruct (mapM_nth f (seq 0 n) r k k H) as (y & Hy & Hf).
  - rewrite nth_error_nth' with (d := 0%nat) by now rewrite length_seq.
    now rewrite seq_nth.
  - rewrite Hf. f_equal. symmetry. now apply nth_error_nth.
Qed.

Lemma bootstrap2_designs_spec n rng first xs nd :
  bootstrap2_designs n rng first xs = Ok nd ->
  designs_for xs nd /\ resampled_designs n rng first xs nd.
Proof.
  revert first nd. induction xs as [|[[[c n1] n2] pairs] xs IH]; intros first nd H.
  - simpl in H. injection H as <-. split; [constructor|].
    intros j ? ? ? ? ? Hj. destruct j; discriminate.
  - cbn [bootstrap2_designs] in H.
    destruct (mapM _ (seq 0 n)) as [vpairs|] eqn:Evp; [|discriminate].
    cbn [bind] in H.
    destruct (_make_cov_design_matrix c vpairs) as [d0|] eqn:Ed; [|discriminate].
    cbn [bind] in H.
    destruct (bootstrap2_designs n rng (first + n) xs) as [rest|] eqn:Er; [|discriminate].
    cbn [bind] in H. injection H as <-.
    destruct (IH _ _ Er) as [IHd IHr].
    split.
    + constructor; [now exists vpairs | assumption].
    + intros j c' n1' n2' pairs' d Hx Hd. destruct j as [|j].
      * simpl in Hx, Hd. injection Hx as <- <- <- <-. injection Hd as <-.
        exists vpairs. split; [|split; [|assumption]].
        -- apply mapM_length in Evp. now rewrite length_seq in Evp.
        -- intros k Hk. replace (first + 0 * n + k)%nat with (first + k)%nat by lia.
           exact (mapM_seq_nth _ n vpairs [] k Evp Hk).
      * simpl in Hx, Hd.
        destruct (IHr j c' n1' n2' pairs' d Hx Hd) as (vp & Hlen & Hdraw & Hm).
        exists vp. split; [assumption|]. split; [|assumption].
        intros k Hk. replace (first + S j * n + k)%nat with (first + n + j * n + k)%nat by lia.
        now apply Hdraw.
Qed.

(** C9: when [estimate_multi_cov] returns a covariance [C] for the method
    'bootstrap' or 'bootstrap2' (the stored results having the shape of
    their statistic), [nboot] is the maximum of the [num_bootstrap] of the
    correlation objects; the resampled statistics are [nboot] vectors,
    resampling [k] being made from draw [k] (in 'bootstrap2', from draw
    [j * nboot + k] for correlation object number [j]); and each entry of
    [C] is [1/(nboot-1)], with the same [nboot], times the sum over these
    [nboot] vectors of the products of the deviations from their mean. *)
Theorem C9_nboot_is_max corrs rng C :
  Forall shaped corrs ->
  (estimate_multi_cov corrs "bootstrap" rng = Ok C ->
   exists nboot npatch npatch1 npatch2 all_pairs vnum vdenom,
     is_max nboot (map num_bootstrap corrs) /\
     _get_patch_nums corrs = Ok (npatch, npatch1, npatch2, all_pairs) /\
     stacked_design sample_pairs corrs npatch1 npatch2 all_pairs = Ok (vnum, vdenom) /\
     let v := map (bootstrap_resample (total_len corrs) vnum vdenom rng)
                  (seq 0 (Z.to_nat nboot)) in
     length v = Z.to_nat nboot /\
     forall a b, (a < total_len corrs)%nat -> (b < total_len corrs)%nat ->
       entry C a b =
       xmul (np_div 1 (IZR nboot - 1))
            (xsum (map (fun row =>
                          xmul (xsub (nth a row (Finite 0)) (sample_mean v a))
                               (xsub (nth b row (Finite 0)) (sample_mean v b))) v))) /\
  (estimate_multi_cov corrs "bootstrap2" rng = Ok C ->
   exists nboot npatch npatch1 npatch2 all_pairs nd vnum vdenom,
     is_max nboot (map num_bootstrap corrs) /\
     _get_patch_nums corrs = Ok (npatch, npatch1, npatch2, all_pairs) /\
     length nd = length corrs /\
     resampled_designs (Z.to_nat nboot) rng 0 (zip4 corrs npatch1 npatch2 all_pairs) nd /\
     hstack (map fst nd) = Ok vnum /\ hstack (map snd nd) = Ok vdenom /\
     let v := zip_with vdiv vnum vdenom in
     length v = Z.to_nat nboot /\
     forall a b, (a < total_len corrs)%nat -> (b < total_len corrs)%nat ->
       entry C a b =
       xmul (np_div 1 (IZR nboot - 1))
            (xsum (map (fun row =>
                          xmul (xsub (nth a row (Finite 0)) (sample_mean v a))
                               (xsub (nth b row (Finite 0)) (sample_mean v b))) v))).
Proof.
  intros Hs. split.
  - change (estimate_multi_cov corrs "bootstrap" rng) with (_cov_bootstrap corrs rng).
    unfold _cov_bootstrap. intros H.
    destruct (bootstrap_resamples corrs rng) as [[nboot v]|] eqn:E; [|discriminate].
    cbn [bind] in H. injection H as <-.
    destruct (bootstrap_resamples_spec _ _ _ _ E) as [Hmax Hlen].
    unfold bootstrap_resamples in E.
    destruct (_get_patch_nums corrs) as [[[[np l1] l2] ap]|] eqn:Eg; [|discriminate].
    cbn [bind] in E.
    destruct (stacked_design _ _ _ _ _) as [[vnum vdenom]|] eqn:Esd; [|discriminate].
    cbn [bind] in E.
    destruct (np_max (map num_bootstrap corrs)) as [m|] eqn:Em; [|discriminate].
    cbn [bind] in E.
    destruct (guard _ _); [|discriminate]. cbn [bind] in E.
    destruct (mapM _ (seq 0 (Z.to_nat m))) as [rows|] eqn:Er; [|discriminate].
    cbn [bind] in E. injection E as <- <-.
    destruct (stacked_design_shape _ _ _ _ _ _ _ _ Hs Eg Esd) as [Hvn Hvd].
    assert (Hrow : forall k y, In k (seq 0 (Z.to_nat m)) ->
              (rn <- take_rows vnum (rng k) ;;
               rd <- take_rows vdenom (rng k) ;;
               Ok (vdiv (sum_rows (total_len corrs) rn) (sum_rows (total_len corrs) rd)))
              = Ok y ->
              y = bootstrap_resample (total_len corrs) vnum vdenom rng k /\
              length y = total_len corrs).
    { intros k y _ Hy.
      destruct (take_rows vnum (rng k)) as [rn|] eqn:En; [|discriminate]. cbn [bind] in Hy.
      destruct (take_rows vdenom (rng k)) as [rd|] eqn:Ed; [|discriminate]. cbn [bind] in Hy.
      injection Hy as <-.
      destruct (take_rows_pick _ _ _ En) as [-> Hin], (take_rows_pick _ _ _ Ed) as [-> Hid].
      split; [reflexivity|].
      unfold vdiv. rewrite zip_with_length, !length_sum_rows; [apply Nat.min_id | |].
      - apply Forall_forall. intros r Hr. apply in_map_iff in Hr.
        destruct Hr as [i [<- Hi]]. rewrite Forall_forall in Hid, Hvd.
        apply Hvd. apply nth_In. now apply Hid.
      - apply Forall_forall. intros r Hr. apply in_map_iff in Hr.
        destruct Hr as [i [<- Hi]]. rewrite Forall_forall in Hin, Hvn.
        apply Hvn. apply nth_In. now apply Hin. }
    assert (Hrows : rows = map (bootstrap_resample (total_len corrs) vnum vdenom rng)
                               (seq 0 (Z.to_nat m))).
    { apply (mapM_map_inv _ _ _ _ Er). intros k y Hk Hy. now apply (Hrow k y Hk). }
    assert (Hshape : Forall (fun r => length r = total_len corrs) rows).
    { apply Forall_forall. intros y Hy.
      destruct (mapM_in _ _ _ _ Er Hy) as (k & Hk & Hf). now apply (Hrow k y Hk). }
    exists m, np, l1, l2, ap, vnum, vdenom.
    split; [assumption|]. split; [reflexivity|]. split; [exact Esd|].
    cbv zeta. rewrite <- Hrows. split; [assumption|].
    intros i j Hi Hj. now apply entry_scatter.
  - change (estimate_multi_cov corrs "bootstrap2" rng) with (_cov_bootstrap2 corrs rng).
    unfold _cov_bootstrap2. intros H.
    destruct (bootstrap2_resamples corrs rng) as [[nboot v]|] eqn:E; [|discriminate].
    cbn [bind] in H. injection H as <-.
    destruct (bootstrap2_resamples_spec _ _ _ _ E) as [Hmax Hlen].
    unfold bootstrap2_resamples in E.
    destruct (_get_patch_nums corrs) as [[[[np l1] l2] ap]|] eqn:Eg; [|discriminate].
    cbn [bind] in E.
    destruct (np_max (map num_bootstrap corrs)) as [m|] eqn:Em; [|discriminate].
    cbn [bind] in E.
    destruct (bootstrap2_designs _ _ _ _) as [nd|] eqn:End; [|discriminate].
    cbn [bind] in E.
    destruct (hstack (map fst nd)) as [vnum|] eqn:Evn; [|discriminate].
    cbn [bind] in E.
    destruct (hstack (map snd nd)) as [vdenom|] eqn:Evd; [|discriminate].
    cbn [bind] in E. injection E as <- <-.
    destruct (bootstrap2_designs_spec _ _ _ _ _ End) as [Hfor Hdraws].
    destruct (get_patch_nums_lists _ _ _ _ _ Eg) as (H1 & H2 & H3).
    pose proof (zip4_corrs corrs l1 l2 ap H1 H2 H3) as Hc.
    destruct (stacked_shape _ _ _ _ _ Hfor Hc Hs Evn Evd) as [Hvn Hvd].
    exists m, np, l1, l2, ap, nd, vnum, vdenom.
    split; [assumption|]. split; [reflexivity|].
    split.
    { rewrite <- Hc, length_map. symmetry. exact (Forall2_length Hfor). }
    split; [assumption|]. split; [exact Evn|]. split; [exact Evd|].
    cbv zeta. split; [assumption|].
    intros i j Hi Hj. apply entry_scatter; try assumption.
    apply Forall_forall. intros r Hr. unfold zip_with in Hr.
    apply in_map_iff in Hr. destruct Hr as [[rn rd] [<- Hin]].
    apply in_combine_l in Hin as Hl. apply in_combine_r in Hin as Hr'.
    rewrite Forall_forall in Hvn, Hvd. cbn [fst snd].
    unfold vdiv. rewrite zip_with_length, (Hvn _ Hl), (Hvd _ Hr'). apply Nat.min_id.
Qed.

(** Two correlation objects over the same two patches, asking for 3 and
    for 2 resamplings. *)
Definition differing_num_bootstrap : list Corr :=
  [ two_patches;
    {| results := [((0, 0), pr 1 1); ((1, 1), pr 2 1)]%nat;
       _getStatLen := 1; _getWeight := [2]; _var_num := 1; num_bootstrap := 2 |} ].

Ltac run_model :=
  cbv - [Rplus Rminus Rmult Rdiv Rinv Ropp IZR INR Rsum scatter np_div Reqb].

Lemma bootstrap_runs :
  exists C, estimate_multi_cov differing_num_bootstrap "bootstrap" (fun _ => [0; 1]%nat) = Ok C.
Proof. eexists. run_model. reflexivity. Defined.

Lemma bootstrap2_runs :
  exists C, estimate_multi_cov differing_num_bootstrap "bootstrap2" (fun _ => [0; 1]%nat) = Ok C.
Proof. eexists. run_model. reflexivity. Defined.

Lemma differing_num_bootstrap_shaped : Forall shaped differing_num_bootstrap.
Proof. repeat constructor. Defined.

(** C9 on [differing_num_bootstrap]: three resamplings for both methods. *)
Lemma C9_nboot_is_max_witness :
  (exists C nboot, estimate_multi_cov differing_num_bootstrap "bootstrap" (fun _ => [0; 1]%nat)
                     = Ok C /\
                   is_max nboot (map num_bootstrap differing_num_bootstrap) /\ nboot = 3%Z) /\
  (exists C nboot, estimate_multi_cov differing_num_bootstrap "bootstrap2" (fun _ => [0; 1]%nat)
                     = Ok C /\
                   is_max nboot (map num_bootstrap differing_num_bootstrap) /\ nboot = 3%Z).
Proof.
  assert (Hmax : forall m, is_max m (map num_bootstrap differing_num_bootstrap) -> m = 3%Z).
  { intros m [Hin Hall]. simpl in Hin, Hall.
    inversion Hall as [|? ? H3 _]; subst.
    destruct Hin as [<- | [<- | []]]; [reflexivity | lia]. }
  split.
  - destruct bootstrap_runs as [C HC].
    destruct (proj1 (C9_nboot_is_max _ _ C differing_num_bootstrap_shaped) HC)
      as (nboot & ? & ? & ? & ? & ? & ? & Hm & _).
    exists C, nboot. split; [exact HC|]. split; [exact Hm | now apply Hmax].
  - destruct bootstrap2_runs as [C HC].
    destruct (proj2 (C9_nboot_is_max _ _ C differing_num_bootstrap_shaped) HC)
      as (nboot & ? & ? & ? & ? & ? & ? & ? & Hm & _).
    exists C, nboot. split; [exact HC|]. split; [exact Hm | now apply Hmax].
Defined.

(** ** Missing or inconsistent patches *)

(** The methods that work on the patch-keyed results. *)
Definition patch_methods : list string :=
  ["jackknife"; "sample"; "bootstrap"; "bootstrap2"]%string.

Definition patches_required : exn :=
  ValueError "Jackknife covariance requires processing using patches.".

Definition patch_mismatch : exn :=
  RuntimeError "All catalogs must use the same number of patches or use 1 patch.".

Lemma patch_methods_start_with_patch_nums corrs m rng e :
  In m patch_methods -> _get_patch_nums corrs = Raise e ->
  estimate_multi_cov corrs m rng = Raise e.
Proof.
  intros Hm He. simpl in Hm.
  destruct Hm as [<- | [<- | [<- | [<- | []]]]].
  - change (_cov_jackknife corrs = Raise e).
    unfold _cov_jackknife. now rewrite He.
  - change (_cov_sample corrs = Raise e).
    unfold _cov_sample. now rewrite He.
  - change (_cov_bootstrap corrs rng = Raise e).
    unfold _cov_bootstrap, bootstrap_resamples. now rewrite He.
  - change (_cov_bootstrap2 corrs rng = Raise e).
    unfold _cov_bootstrap2, bootstrap2_resamples. now rewrite He.
Qed.

Lemma get_patch_nums_empty c0 rest :
  results c0 = [] -> _get_patch_nums (c0 :: rest) = Raise patches_required.
Proof. intros H. unfold _get_patch_nums. now rewrite H. Qed.

Lemma get_patch_nums_mismatch c0 rest :
  axis1 c0 <> axis2 c0 -> axis1 c0 <> 1%nat -> axis2 c0 <> 1%nat ->
  _get_patch_nums (c0 :: rest) = Raise AssertionError \/
  _get_patch_nums (c0 :: rest) = Raise patch_mismatch.
Proof.
  intros H12 H1 H2. unfold _get_patch_nums.
  change (dict_keys (results c0)) with (store_keys c0).
  change (count_distinct (map fst (store_keys c0))) with (axis1 c0).
  change (count_distinct (map snd (store_keys c0))) with (axis2 c0).
  destruct (length (store_keys c0) =? 0)%nat eqn:El.
  { exfalso. apply Nat.eqb_eq in El. apply length_zero_iff_nil in El.
    apply H12. unfold axis1, axis2. now rewrite El. }
  cbn [negb guard bind].
  destruct (is_range (map fst (store_keys c0)) (axis1 c0)); cbn [guard bind]; [|now left].
  destruct (is_range (map snd (store_keys c0)) (axis2 c0)); cbn [guard bind]; [|now left].
  apply Nat.eqb_neq in H12, H1, H2. rewrite H12, H1, H2. right. reflexivity.
Qed.

Lemma other_patch_nums_error npatch cs c :
  In c cs ->
  one_or npatch (axis1 c) && one_or npatch (axis2 c) = false ->
  is_error (other_patch_nums npatch cs).
Proof.
  intros Hin Hbad. induction cs as [|c' cs IH]; [contradiction|].
  cbn [other_patch_nums].
  change (dict_keys (results c')) with (store_keys c').
  change (count_distinct (map fst (store_keys c'))) with (axis1 c').
  change (count_distinct (map snd (store_keys c'))) with (axis2 c').
  destruct (one_or npatch (axis1 c') && one_or npatch (axis2 c')) eqn:E;
    cbn [guard bind]; [|eexists; reflexivity].
  destruct Hin as [-> | Hin]; [congruence|].
  destruct (IH Hin) as [e ->]. eexists; reflexivity.
Qed.

Lemma get_patch_nums_other c0 rest c :
  In c rest ->
  one_or (npatch_of c0) (axis1 c) && one_or (npatch_of c0) (axis2 c) = false ->
  is_error (_get_patch_nums (c0 :: rest)).
Proof.
  intros Hin Hbad. unfold _get_patch_nums.
  repeat match goal with
  | |- is_error (bind (guard ?g ?e) _) =>
      destruct g; cbn [guard bind]; [|eexists; reflexivity]
  end.
  change (dict_keys (results c0)) with (store_keys c0).
  change (count_distinct (map fst (store_keys c0))) with (axis1 c0).
  change (count_distinct (map snd (store_keys c0))) with (axis2 c0).
  change (Nat.max (axis1 c0) (axis2 c0)) with (npatch_of c0).
  destruct (other_patch_nums_error _ _ _ Hin Hbad) as [e ->].
  eexists; reflexivity.
Qed.

(** C8: for each of jackknife, sample, bootstrap and bootstrap2,
    [estimate_multi_cov] raises when the first store has no patch-keyed
    result ("... requires processing using patches"), hence when no store
    has any; when the two axes of the first store have different numbers of
    patches, neither of them 1; and when another store has an axis whose
    number of patches is neither 1 nor [npatch]. *)
Theorem C8_patches_required corrs method rng :
  In method patch_methods ->
  (forall c0 rest, corrs = c0 :: rest -> results c0 = [] ->
     estimate_multi_cov corrs method rng = Raise patches_required) /\
  (Forall (fun c => results c = []) corrs ->
     is_error (estimate_multi_cov corrs method rng)) /\
  (forall c0 rest, corrs = c0 :: rest ->
     axis1 c0 <> axis2 c0 -> axis1 c0 <> 1%nat -> axis2 c0 <> 1%nat ->
     estimate_multi_cov corrs method rng = Raise AssertionError \/
     estimate_multi_cov corrs method rng = Raise patch_mismatch) /\
  (forall c0 rest c, corrs = c0 :: rest -> In c rest ->
     (axis1 c <> 1%nat /\ axis1 c <> npatch_of c0) \/
     (axis2 c <> 1%nat /\ axis2 c <> npatch_of c0) ->
     is_error (estimate_multi_cov corrs method rng)).
Proof.
  intros Hm. split; [|split; [|split]].
  - intros c0 rest -> Hempty.
    apply patch_methods_start_with_patch_nums; [assumption|].
    now apply get_patch_nums_empty.
  - intros Hall. destruct corrs as [|c0 rest].
    + exists IndexError. now apply patch_methods_start_with_patch_nums.
    + inversion Hall as [|? ? Hc0 _]; subst. exists patches_required.
      apply patch_methods_start_with_patch_nums; [assumption|].
      now apply get_patch_nums_empty.
  - intros c0 rest -> H12 H1 H2.
    destruct (get_patch_nums_mismatch c0 rest H12 H1 H2) as [H|H];
      [left | right]; now apply patch_methods_start_with_patch_nums.
  - intros c0 rest c -> Hin Hbad.
    destruct (get_patch_nums_other c0 rest c Hin) as [e He].
    + unfold one_or.
      destruct Hbad as [[Ha Hb] | [Ha Hb]];
        apply Nat.eqb_neq in Ha, Hb; rewrite Ha, Hb; simpl;
        [reflexivity | apply andb_false_r].
    + exists e. now apply patch_methods_start_with_patch_nums.
Qed.

(** A correlation object that was processed without patches. *)
Definition no_patches : Corr :=
  {| results := []; _getStatLen := 1; _getWeight := [1]; _var_num := 1;
     num_bootstrap := 500 |}.

(** C8 on a store with zero entries: jackknife raises. *)
Lemma C8_patches_required_witness :
  estimate_multi_cov [no_patches] "jackknife" (fun _ => []) = Raise patches_required.
Proof.
  apply (proj1 (C8_patches_required [no_patches] "jackknife" (fun _ => [])
                  (or_introl eq_refl)) no_patches []); reflexivity.
Defined.

(** ** Dispatch on the method *)

Definition known_methods : list string :=
  ["shot"; "jackknife"; "sample"; "bootstrap"; "bootstrap2"]%string.

(** C10: for a method that is none of the five known ones,
    [estimate_multi_cov] raises [ValueError("Invalid method: " + method)],
    whatever the correlation objects (and the random source) are: the
    outcome does not depend on any result store. *)
Theorem C10_invalid_method corrs method rng :
  ~ In method known_methods ->
  estimate_multi_cov corrs method rng =
  Raise (ValueError ("Invalid method: " ++ method)).
Proof.
  intros H. unfold estimate_multi_cov.
  repeat match goal with
  | |- context [String.eqb method ?s] =>
      destruct (String.eqb_spec method s) as [->|_];
      [exfalso; apply H; simpl; tauto|]
  end.
  reflexivity.
Qed.

(** C10 on the method ["variance"]. *)
Lemma C10_invalid_method_witness :
  estimate_multi_cov shot_example "variance" (fun _ => []) =
  Raise (ValueError "Invalid method: variance").
Proof.
  apply (C10_invalid_method shot_example "variance" (fun _ => [])).
  intros H. simpl in H.
  repeat (destruct H as [H|H]; [discriminate H|]). exact H.
Defined.

End CovFacts.

(** * Properties of the patched accumulation *)

Module AccumFacts.
Import Accum.

(** ** Keys *)

Lemma dict_get_set {V : Type} (d : dict V) k v k' :
  dict_get (dict_set d k v) k' = if key_eqb k' k then Some v else dict_get d k'.
Proof.
  induction d as [|[k0 v0] d IH]; simpl.
  - reflexivity.
  - destruct (key_eqb k k0) eqn:E; simpl.
    + apply CovFacts.key_eqb_eq in E. subst k0.
      now destruct (key_eqb k' k).
    + rewrite IH. destruct (key_eqb k' k0) eqn:E0; [|reflexivity].
      apply CovFacts.key_eqb_eq in E0. subst k0.
      destruct (key_eqb k' k) eqn:E1; [|reflexivity].
      apply CovFacts.key_eqb_eq in E1. subst k'.
      rewrite CovFacts.key_eqb_refl in E. discriminate.
Qed.

(** The pairs that the auto loops evaluate, for patch numbers [ids]:
    [(i,i)], then [(i,j)] for the [j] above [i]. *)
Definition auto_keys (ids : list nat) : list key :=
  flat_map (fun i => (i, i) :: map (pair i) (filter (Nat.ltb i) ids)) ids.

(** The pairs that the cross loops evaluate. *)
Definition cross_keys (ids1 ids2 : list nat) : list key :=
  flat_map (fun i => map (pair i) ids2) ids1.

Lemma NoDup_flat_map_fst (f : nat -> list key) (ids : list nat) :
  NoDup ids ->
  (forall i, NoDup (f i)) ->
  (forall i k, In k (f i) -> fst k = i) ->
  NoDup (flat_map f ids).
Proof.
  intros Hids Hf Hfst. induction Hids as [|i ids Hnot Hids IH]; simpl.
  - constructor.
  - apply NoDup_app; [apply Hf | exact IH |].
    intros k Hk Hk'. apply in_flat_map in Hk'. destruct Hk' as [i' [Hi' Hk']].
    apply Hfst in Hk, Hk'. congruence.
Qed.

Lemma NoDup_map_pair (i : nat) (l : list nat) : NoDup l -> NoDup (map (pair i) l).
Proof.
  induction 1 as [|x l Hnot _ IH]; simpl; constructor; [|exact IH].
  intros Hin. apply in_map_iff in Hin. destruct Hin as [y [[= ->] Hy]].
  contradiction.
Qed.

Lemma auto_keys_NoDup ids : NoDup ids -> NoDup (auto_keys ids).
Proof.
  intros H. unfold auto_keys. apply NoDup_flat_map_fst; [assumption | |].
  - intros i. constructor.
    + intros Hin. apply in_map_iff in Hin. destruct Hin as [j [[= <-] Hj]].
      apply filter_In in Hj. destruct Hj as [_ Hj]. apply Nat.ltb_lt in Hj. lia.
    + apply NoDup_map_pair. now apply NoDup_filter.
  - intros i k [<- | Hk]; [reflexivity|].
    apply in_map_iff in Hk. destruct Hk as [j [<- _]]. reflexivity.
Qed.

Lemma auto_keys_spec ids i j :
  In (i, j) (auto_keys ids) <-> In i ids /\ In j ids /\ (i <= j)%nat.
Proof.
  unfold auto_keys. rewrite in_flat_map. split.
  - intros [i' [Hi' [[= <- <-] | Hin]]]; [auto|].
    apply in_map_iff in Hin. destruct Hin as [j' [[= <- <-] Hj]].
    apply filter_In in Hj. destruct Hj as [Hj Hlt]. apply Nat.ltb_lt in Hlt.
    repeat split; [assumption | assumption | lia].
  - intros (Hi & Hj & Hle). exists i. split; [assumption|].
    destruct (Nat.eq_dec i j) as [->|Hne]; [now left|].
    right. apply in_map. apply filter_In. split; [assumption|].
    apply Nat.ltb_lt. lia.
Qed.

Lemma cross_keys_NoDup ids1 ids2 :
  NoDup ids1 -> NoDup ids2 -> NoDup (cross_keys ids1 ids2).
Proof.
  intros H1 H2. unfold cross_keys. apply NoDup_flat_map_fst; [assumption | |].
  - intros i. now apply NoDup_map_pair.
  - intros i k Hk. apply in_map_iff in Hk. destruct Hk as [j [<- _]]. reflexivity.
Qed.

Lemma cross_keys_spec ids1 ids2 i j :
  In (i, j) (cross_keys ids1 ids2) <-> In i ids1 /\ In j ids2.
Proof.
  unfold cross_keys. rewrite <- list_prod_as_flat_map. apply in_prod_iff.
Qed.

Section Loops.

Context {T Cat : Type} `{Correlation T Cat}.

(** ** The evaluations, one after the other *)

(** One evaluation: the auto-correlation of a patch, or the
    cross-correlation of two patches. *)
Inductive job : Type :=
| AutoJob (i : nat) (c1 : Cat)
| CrossJob (i j : nat) (c1 c2 : Cat).

Definition job_key (t : job) : key :=
  match t with
  | AutoJob i _ => (i, i)
  | CrossJob i j _ _ => (i, j)
  end.

(** [temp.clear()] followed by the processing call. *)
Definition compute (temp : T) (t : job) : T :=
  match t with
  | AutoJob _ c1 => process_auto (clear temp) c1
  | CrossJob _ _ c1 c2 => process_cross (clear temp) c1 c2
  end.

(** Whether the result [r] computed for the pair [k] is recorded. *)
Definition recorded (k : key) (r : T) : bool :=
  (fst k =? snd k)%nat || has_pairs r.

Definition step (acc : state * T) (t : job) : state * T :=
  let temp := compute (snd acc) t in
  if recorded (job_key t) temp then (record (fst acc) (job_key t) temp, temp)
  else (skip (fst acc) temp, temp).

(** The computed results, each with its pair, in the order of evaluation;
    [temp] is the scratch object before the first one. *)
Fixpoint events (jobs : list job) (temp : T) : list (key * T) :=
  match jobs with
  | [] => []
  | t :: ts => let r := compute temp t in (job_key t, r) :: events ts r
  end.

(** What one computed result does to the accumulated total: [+=] when it
    is recorded, [_add_tot] when it is not. *)
Definition apply_event (s : T) (e : key * T) : T :=
  if recorded (fst e) (snd e) then iadd s (snd e) else _add_tot s (snd e).

(** What one computed result does to the store. *)
Definition store_event (d : dict T) (e : key * T) : dict T :=
  if recorded (fst e) (snd e) then dict_set d (fst e) (snd e) else d.

Definition cross_job_of (ic jc : nat * Cat) : job :=
  CrossJob (patch_of ic) (patch_of jc) (snd ic) (snd jc).

(** The evaluations of [_process_all_auto], in order. *)
Definition auto_jobs (cat1 : list Cat) : list job :=
  flat_map (fun ic =>
              AutoJob (patch_of ic) (snd ic) ::
              flat_map (fun jc => if (patch_of ic <? patch_of jc)%nat
                                  then [cross_job_of ic jc] else [])
                       (enumerate cat1))
           (enumerate cat1).

(** The evaluations of [_process_all_cross], in order. *)
Definition cross_jobs (cat1 cat2 : list Cat) : list job :=
  flat_map (fun ic => map (cross_job_of ic) (enumerate cat2)) (enumerate cat1).

(** The patch numbers of a list of catalogs. *)
Definition patch_ids (cat : list Cat) : list nat := map patch_of (enumerate cat).

Lemma events_keys jobs temp : map fst (events jobs temp) = map job_key jobs.
Proof.
  revert temp. induction jobs as [|t ts IH]; intros temp; simpl; [reflexivity|].
  now rewrite IH.
Qed.

Lemma run_jobs_spec jobs st temp :
  total (fst (fold_left step jobs (st, temp))) =
    fold_left apply_event (events jobs temp) (total st) /\
  results (fst (fold_left step jobs (st, temp))) =
    fold_left store_event (events jobs temp) (results st).
Proof.
  revert st temp. induction jobs as [|t ts IH]; intros st temp; simpl.
  - split; reflexivity.
  - cbn [fold_left events].
    set (r := compute temp t).
    destruct (recorded (job_key t) r) eqn:E.
    + replace (step (st, temp) t) with (record st (job_key t) r, r)
        by (unfold step; cbn [fst snd]; fold r; now rewrite E).
      replace (apply_event (total st) (job_key t, r)) with (iadd (total st) r)
        by (unfold apply_event; cbn [fst snd]; now rewrite E).
      replace (store_event (results st) (job_key t, r))
        with (dict_set (results st) (job_key t) r)
        by (unfold store_event; cbn [fst snd]; now rewrite E).
      apply (IH (record st (job_key t) r) r).
    + replace (step (st, temp) t) with (skip st r, r)
        by (unfold step; cbn [fst snd]; fold r; now rewrite E).
      replace (apply_event (total st) (job_key t, r)) with (_add_tot (total st) r)
        by (unfold apply_event; cbn [fst snd]; now rewrite E).
      replace (store_event (results st) (job_key t, r)) with (results st)
        by (unfold store_event; cbn [fst snd]; now rewrite E).
      apply (IH (skip st r) r).
Qed.

Lemma fold_left_flat_map {A B C : Type} (f : A -> B -> A) (g : C -> list B) l a :
  fold_left f (flat_map g l) a = fold_left (fun a x => fold_left f (g x) a) l a.
Proof.
  revert a. induction l as [|x l IH]; intros a; simpl; [reflexivity|].
  now rewrite fold_left_app, IH.
Qed.

Lemma auto_inner_jobs ic cat1 acc :
  auto_inner (patch_of ic) (snd ic) cat1 acc =
  fold_left step
    (flat_map (fun jc => if (patch_of ic <? patch_of jc)%nat
                         then [cross_job_of ic jc] else [])
              (enumerate cat1)) acc.
Proof.
  unfold auto_inner. rewrite fold_left_flat_map.
  generalize (enumerate cat1) as l. intros l. revert acc.
  induction l as [|jc l IH]; intros acc; simpl; [reflexivity|].
  rewrite <- IH. f_equal. destruct acc as [st temp].
  destruct (Nat.ltb_spec (patch_of ic) (patch_of jc)) as [Hlt|Hge]; simpl; [|reflexivity].
  unfold step, recorded; simpl.
  replace (patch_of ic =? patch_of jc)%nat with false
    by (symmetry; apply Nat.eqb_neq; lia).
  reflexivity.
Qed.

Lemma process_all_auto_jobs st cat1 :
  length cat1 <> 1%nat ->
  _process_all_auto st cat1 = fst (fold_left step (auto_jobs cat1) (st, total st)).
Proof.
  intros Hlen. unfold _process_all_auto.
  assert (Hgen : forall l acc,
            fold_left
              (fun (acc : state * T) (ic : nat * Cat) =>
                 let (st, temp) := acc in
                 auto_inner (patch_of ic) (snd ic) cat1
                   (record st (patch_of ic, patch_of ic)
                           (process_auto (clear temp) (snd ic)),
                    process_auto (clear temp) (snd ic)))
              l acc =
            fold_left step
              (flat_map (fun ic =>
                           AutoJob (patch_of ic) (snd ic) ::
                           flat_map (fun jc => if (patch_of ic <? patch_of jc)%nat
                                               then [cross_job_of ic jc] else [])
                                    (enumerate cat1)) l) acc).
  { induction l as [|ic l IH]; intros acc; [reflexivity|].
    cbn [fold_left flat_map]. rewrite IH.
    rewrite fold_left_app. cbn [fold_left]. f_equal.
    destruct acc as [st' temp]. rewrite auto_inner_jobs. f_equal.
    unfold step, recorded; simpl. now rewrite Nat.eqb_refl. }
  unfold auto_jobs.
  destruct cat1 as [|c [|c' cat1]]; [reflexivity | simpl in Hlen; lia |].
  now rewrite Hgen.
Qed.

Lemma cross_inner_jobs ic cat2 acc :
  cross_inner (patch_of ic) (snd ic) cat2 acc =
  fold_left step (map (cross_job_of ic) (enumerate cat2)) acc.
Proof.
  unfold cross_inner.
  generalize (enumerate cat2) as l. intros l. revert acc.
  induction l as [|jc l IH]; intros acc; simpl; [reflexivity|].
  rewrite <- IH. f_equal. destruct acc as [st temp]. reflexivity.
Qed.

Lemma process_all_cross_jobs st cat1 cat2 :
  ~ (length cat1 = 1%nat /\ length cat2 = 1%nat) ->
  _process_all_cross false st cat1 cat2 =
  Ok (fst (fold_left step (cross_jobs cat1 cat2) (st, total st))).
Proof.
  intros Hlen. unfold _process_all_cross.
  assert (Hgen : forall l acc,
            fold_left
              (fun (acc : state * T) (ic : nat * Cat) =>
                 cross_inner (patch_of ic) (snd ic) cat2 acc) l acc =
            fold_left step
              (flat_map (fun ic => map (cross_job_of ic) (enumerate cat2)) l) acc).
  { induction l as [|ic l IH]; intros acc; [reflexivity|].
    cbn [fold_left flat_map]. rewrite IH, fold_left_app.
    now rewrite cross_inner_jobs. }
  unfold cross_jobs. rewrite <- Hgen.
  destruct cat1 as [|c1 [|c1' cat1]]; try reflexivity.
  destruct cat2 as [|c2 [|c2' cat2]]; try reflexivity.
  exfalso. apply Hlen. split; reflexivity.
Qed.

Lemma auto_jobs_keys_gen (inner l : list (nat * Cat)) :
  map job_key
    (flat_map (fun ic =>
                 AutoJob (patch_of ic) (snd ic) ::
                 flat_map (fun jc => if (patch_of ic <? patch_of jc)%nat
                                     then [cross_job_of ic jc] else [])
                          inner) l) =
  flat_map (fun i => (i, i) :: map (pair i) (filter (Nat.ltb i) (map patch_of inner)))
           (map patch_of l).
Proof.
  assert (Hin : forall ic l',
            map job_key
              (flat_map (fun jc => if (patch_of ic <? patch_of jc)%nat
                                   then [cross_job_of ic jc] else []) l') =
            map (pair (patch_of ic)) (filter (Nat.ltb (patch_of ic)) (map patch_of l'))).
  { intros ic l'. induction l' as [|jc l' IH]; simpl; [reflexivity|].
    rewrite map_app, IH.
    destruct (patch_of ic <? patch_of jc)%nat; reflexivity. }
  induction l as [|ic l IH]; simpl; [reflexivity|].
  rewrite map_app, IH, Hin. reflexivity.
Qed.

Lemma auto_jobs_keys cat1 :
  map job_key (auto_jobs cat1) = auto_keys (patch_ids cat1).
Proof. apply auto_jobs_keys_gen. Qed.

Lemma cross_jobs_keys cat1 cat2 :
  map job_key (cross_jobs cat1 cat2) = cross_keys (patch_ids cat1) (patch_ids cat2).
Proof.
  unfold cross_jobs, cross_keys, patch_ids.
  induction (enumerate cat1) as [|ic l IH]; simpl; [reflexivity|].
  rewrite map_app, IH, !map_map. reflexivity.
Qed.

(** What a sequence of computed results with distinct pairs leaves in a
    store that held none of them. *)
Lemma store_events_get evs (d : dict T) k r :
  NoDup (map fst evs) ->
  (forall e, In e evs -> dict_get d (fst e) = None) ->
  dict_get (fold_left store_event evs d) k = Some r <->
  dict_get d k = Some r \/ (In (k, r) evs /\ recorded k r = true).
Proof.
  revert d. induction evs as [|[k0 r0] evs IH]; intros d Hnd Hfresh; simpl.
  - tauto.
  - inversion Hnd as [|? ? Hnot Hnd']; subst.
    assert (Hd0 : dict_get d k0 = None) by (apply (Hfresh (k0, r0)); now left).
    rewrite IH; [|assumption|].
    + unfold store_event; simpl.
      destruct (recorded k0 r0) eqn:Erec.
      * rewrite dict_get_set. destruct (key_eqb k k0) eqn:Ek.
        -- apply CovFacts.key_eqb_eq in Ek. subst k0. split.
           ++ intros [[= ->] | [Hin _]]; [right; split; [now left | assumption]|].
              exfalso. apply Hnot. change k with (fst (k, r)). now apply in_map.
           ++ intros [Hd | [[[= ->] | Hin] _]]; [congruence | now left |].
              exfalso. apply Hnot. change k with (fst (k, r)). now apply in_map.
        -- apply CovFacts.key_eqb_neq in Ek. split.
           ++ intros [Hd | [Hin Hr]]; [now left | right; split; [now right | assumption]].
           ++ intros [Hd | [[[= -> ->] | Hin] Hr]];
                [now left | contradiction | right; split; assumption].
      * split.
        -- intros [Hd | [Hin Hr]]; [now left | right; split; [now right | assumption]].
        -- intros [Hd | [[[= -> ->] | Hin] Hr]];
             [now left | congruence | right; split; assumption].
    + intros e He. unfold store_event; simpl.
      destruct (recorded k0 r0); [|apply Hfresh; now right].
      rewrite dict_get_set. destruct (key_eqb (fst e) k0) eqn:Ek.
      * apply CovFacts.key_eqb_eq in Ek. exfalso. apply Hnot. rewrite <- Ek.
        now apply in_map.
      * apply Hfresh. now right.
Qed.

Lemma recorded_spec k r :
  recorded k r = true <-> fst k = snd k \/ 0 < Rsum (npairs r).
Proof.
  unfold recorded, has_pairs. rewrite orb_true_iff, Nat.eqb_eq, Rltb_true. tauto.
Qed.

(** What a run of evaluations with distinct pairs, from an empty store,
    leaves behind. *)
Lemma run_jobs_from_empty jobs st :
  Accum.results st = [] -> NoDup (map job_key jobs) ->
  let st' := fst (fold_left step jobs (st, total st)) in
  let evs := events jobs (total st) in
  (forall k r, dict_get (Accum.results st') k = Some r <->
               In (k, r) evs /\ (fst k = snd k \/ 0 < Rsum (npairs r))) /\
  total st' = fold_left apply_event evs (total st).
Proof.
  intros Hempty Hnd. cbv zeta.
  destruct (run_jobs_spec jobs st (total st)) as [Htot Hres].
  split; [|exact Htot].
  intros k r. rewrite Hres, Hempty.
  rewrite store_events_get; [| now rewrite events_keys | reflexivity].
  rewrite recorded_spec. simpl. split; [intros [H0|H0]; [discriminate | exact H0] | auto].
Qed.

End Loops.

(** ** A correlation with one bin *)

(** One bin: the summed weight and the number of pairs. *)
Record counts : Type := {
  c_weight : R;
  c_npairs : R
}.

(** A patch: its number, how many objects it has, and the sum of their
    weights. *)
Record patch_cat : Type := {
  pc_patch : nat;
  pc_ntot : nat;
  pc_sumw : R
}.

(** Every pair of objects falls in the bin: a cross-correlation adds
    [n1 * n2] pairs of total weight [sumw1 * sumw2]. *)
#[local] Instance counts_correlation : Correlation counts patch_cat := {
  clear := fun _ => {| c_weight := 0; c_npairs := 0 |};
  process_auto := fun t c =>
    {| c_weight := c_weight t + pc_sumw c * pc_sumw c;
       c_npairs := c_npairs t + INR (pc_ntot c) * INR (pc_ntot c) |};
  process_cross := fun t c1 c2 =>
    {| c_weight := c_weight t + pc_sumw c1 * pc_sumw c2;
       c_npairs := c_npairs t + INR (pc_ntot c1) * INR (pc_ntot c2) |};
  process_pairwise := fun t c1 c2 =>
    {| c_weight := c_weight t + pc_sumw c1 * pc_sumw c2;
       c_npairs := c_npairs t + INR (pc_ntot c1) |};
  iadd := fun s r =>
    {| c_weight := c_weight s + c_weight r; c_npairs := c_npairs s + c_npairs r |};
  _add_tot := fun s _ => s;
  npairs := fun t => [c_npairs t];
  _getWeight := fun t => [c_weight t];
  patch := fun c => Some (pc_patch c);
  ntot := pc_ntot
}.

(** Patch 0 holds one object of weight 1; patch 1 holds two objects, of
    weights 1 and -1. *)
Definition opposite_weights : list patch_cat :=
  [ {| pc_patch := 0; pc_ntot := 1; pc_sumw := 1 |};
    {| pc_patch := 1; pc_ntot := 2; pc_sumw := 0 |} ].

Definition fresh : state :=
  {| total := {| c_weight := 0; c_npairs := 0 |}; results := [] |}.

(** C7, as stated, fails: the cross result of patches 0 and 1 has two
    pairs and zero accumulated weight, and it is stored under [(0,1)]. *)
Lemma C7_stored_with_zero_weight :
  exists r,
    dict_get (results (_process_all_auto fresh opposite_weights)) (0, 1)%nat = Some r /\
    Rsum (_getWeight r) = 0 /\ Rsum (npairs r) = 2.
Proof.
  exists {| c_weight := 0 + 1 * 0; c_npairs := 0 + INR 1 * INR 2 |}.
  split; [|split].
  - rewrite process_all_auto_jobs by (simpl; lia).
    apply (run_jobs_from_empty (auto_jobs opposite_weights) fresh).
    + reflexivity.
    + rewrite auto_jobs_keys. apply auto_keys_NoDup.
      repeat constructor; simpl; intuition discriminate.
    + split; [simpl; tauto|]. right. simpl. lra.
  - simpl. lra.
  - simpl. lra.
Qed.

(** C7 (amended): in a patched accumulation that starts from an empty
    store, over catalogs with distinct patch numbers,
    - auto mode computes a result for exactly the pairs [(i,j)], [i <= j],
      of patch numbers, and cross mode for all the pairs [(i,j)] with [i]
      from the first list and [j] from the second;
    - a computed result is stored under its pair if and only if [i == j] or
      the sum of its pair counts ([np.sum(npairs)]) is positive;
    - the accumulated total is the initial one to which every computed
      result has been applied in order: merged ([+=]) when it is stored,
      passed to [_add_tot] when it is not. *)
Theorem C7_patched_accumulation {T Cat : Type} `{Correlation T Cat} :
  (forall st cat1,
     length cat1 <> 1%nat -> results st = [] -> NoDup (patch_ids cat1) ->
     let st' := _process_all_auto st cat1 in
     let evs := events (auto_jobs cat1) (total st) in
     (forall i j, In (i, j) (map fst evs) <->
                  In i (patch_ids cat1) /\ In j (patch_ids cat1) /\ (i <= j)%nat) /\
     (forall k r, dict_get (results st') k = Some r <->
                  In (k, r) evs /\ (fst k = snd k \/ 0 < Rsum (npairs r))) /\
     total st' = fold_left apply_event evs (total st)) /\
  (forall st cat1 cat2,
     ~ (length cat1 = 1%nat /\ length cat2 = 1%nat) -> results st = [] ->
     NoDup (patch_ids cat1) -> NoDup (patch_ids cat2) ->
     exists st', _process_all_cross false st cat1 cat2 = Ok st' /\
     let evs := events (cross_jobs cat1 cat2) (total st) in
     (forall i j, In (i, j) (map fst evs) <->
                  In i (patch_ids cat1) /\ In j (patch_ids cat2)) /\
     (forall k r, dict_get (results st') k = Some r <->
                  In (k, r) evs /\ (fst k = snd k \/ 0 < Rsum (npairs r))) /\
     total st' = fold_left apply_event evs (total st)).
Proof.
  split.
  - intros st cat1 Hlen Hempty Hnd. cbv zeta.
    rewrite process_all_auto_jobs by assumption.
    assert (Hk : NoDup (map job_key (auto_jobs cat1)))
      by (rewrite auto_jobs_keys; now apply auto_keys_NoDup).
    destruct (run_jobs_from_empty (auto_jobs cat1) st Hempty Hk) as [Hres Htot].
    split; [|split; assumption].
    intros i j. rewrite events_keys, auto_jobs_keys. apply auto_keys_spec.
  - intros st cat1 cat2 Hlen Hempty Hnd1 Hnd2.
    eexists. split; [now apply process_all_cross_jobs|]. cbv zeta.
    assert (Hk : NoDup (map job_key (cross_jobs cat1 cat2)))
      by (rewrite cross_jobs_keys; now apply cross_keys_NoDup).
    destruct (run_jobs_from_empty (cross_jobs cat1 cat2) st Hempty Hk) as [Hres Htot].
    split; [|split; assumption].
    intros i j. rewrite events_keys, cross_jobs_keys. apply cross_keys_spec.
Qed.

(** C7 (amended) on [opposite_weights], in auto mode: the results computed
    are those of the pairs [(0,0)], [(0,1)], [(1,1)]. *)
Lemma C7_patched_accumulation_witness :
  map fst (events (auto_jobs opposite_weights) (total fresh)) =
    [(0, 0); (0, 1); (1, 1)]%nat /\
  total (_process_all_auto fresh opposite_weights) =
    fold_left apply_event (events (auto_jobs opposite_weights) (total fresh))
              (total fresh).
Proof.
  split; [reflexivity|].
  apply (proj1 C7_patched_accumulation fresh opposite_weights).
  - simpl. lia.
  - reflexivity.
  - repeat constructor; simpl; intuition discriminate.
Defined.

End AccumFacts.

(** * More on the bin geometry *)

Module BinningMore.
Import Binning BinningFacts.

Lemma init_of_layout cfg l :
  0 < cfg_sep_units cfg -> resolve_layout cfg = Ok l ->
  __init__ cfg = Ok (finish cfg (ln (cfg_sep_units cfg)) l).
Proof.
  intros Hsu Hl. unfold __init__. rewrite math_log_ok by assumption.
  cbn [bind]. now rewrite Hl.
Qed.

(** ** Log bins cover the range *)

(** The bins of a 1-d binning tile [[min_sep, max_sep]]: the first left
    edge is [min_sep], each right edge is the next left edge, the last
    right edge is [max_sep], and every bin has its left edge below its
    right edge. *)
Definition tiles (r : BinnedCorr2) (left_edges right_edges : list R) : Prop :=
  let n := Z.to_nat (nbins r) in
  length left_edges = n /\ length right_edges = n /\
  nth 0 left_edges 0 = min_sep r /\
  (forall i, (S i < n)%nat -> nth i right_edges 0 = nth (S i) left_edges 0) /\
  nth (n - 1) right_edges 0 = max_sep r /\
  (forall i, (i < n)%nat -> nth i left_edges 0 < nth i right_edges 0).

Lemma log_rule_covers cfg r :
  valid_log cfg -> log_rule cfg r ->
  (0 < nbins r)%Z /\ 0 < min_sep r /\
  IZR (nbins r) * bin_size r = ln (max_sep r / min_sep r).
Proof.
  intros [Hbt Hc Hsu Hnb Hbs Hmn Hmx Hord] Hrule.
  unfold log_rule in Hrule.
  destruct (cfg_nbins cfg) as [nb|], (cfg_bin_size cfg) as [bs|],
           (cfg_min_sep cfg) as [mn|], (cfg_max_sep cfg) as [mx|];
    try contradiction; destruct Hrule as (H1 & H2 & H3 & H4).
  - (* max_sep derived *)
    specialize (Hnb _ eq_refl). specialize (Hmn _ eq_refl).
    rewrite H1, H2, H3, H4. repeat split; try assumption.
    replace (mn * exp (IZR nb * bs) / mn) with (exp (IZR nb * bs)) by (field; lra).
    now rewrite ln_exp.
  - (* min_sep derived *)
    specialize (Hnb _ eq_refl). specialize (Hmx _ eq_refl).
    rewrite H1, H2, H3, H4.
    assert (He : 0 < exp (- (IZR nb * bs))) by apply exp_pos.
    repeat split; try assumption.
    + now apply Rmult_lt_0_compat.
    + replace (mx / (mx * exp (- (IZR nb * bs)))) with (/ exp (- (IZR nb * bs)))
        by (field; lra).
      rewrite <- exp_Ropp, Ropp_involutive. now rewrite ln_exp.
  - (* bin_size derived *)
    specialize (Hnb _ eq_refl). specialize (Hmn _ eq_refl).
    rewrite H1, H2, H3, H4. repeat split; try assumption.
    field. apply not_0_IZR. lia.
  - (* nbins derived *)
    specialize (Hbs _ eq_refl). specialize (Hmn _ eq_refl).
    specialize (Hord _ _ eq_refl eq_refl).
    pose proof (ln_div_pos mn mx Hmn Hord) as Hln.
    assert (Hd : 0 < ln (mx / mn) / bs) by (apply Rdiv_lt_0_compat; lra).
    pose proof (ceil_pos _ Hd) as Hpos.
    rewrite H2, H3, H4. rewrite H1 in *. repeat split; try assumption.
    field. apply not_0_IZR. lia.
Qed.

Lemma ln_pos_arg x : 0 < ln x -> 0 < x.
Proof.
  intros H. destruct (Rle_or_lt x 0) as [Hle|Hlt]; [|assumption].
  exfalso. unfold ln in H. destruct (Rlt_dec 0 x); lra.
Qed.

Lemma INR_pred n : (0 < n)%nat -> INR (n - 1) = INR n - 1.
Proof. intros H. rewrite minus_INR by lia. reflexivity. Qed.

Lemma INR_Z_to_nat z : (0 <= z)%Z -> INR (Z.to_nat z) = IZR z.
Proof. intros H. rewrite INR_IZR_INZ, Z2Nat.id by assumption. reflexivity. Qed.

(** X1: the bins of every valid Log specification tile
    [[min_sep, max_sep]] exactly, whichever parameter was derived. *)
Theorem log_bins_tile_range cfg :
  valid_log cfg ->
  exists r logr rnom left_edges right_edges,
    __init__ cfg = Ok r /\
    geom r = GeomLog logr rnom left_edges right_edges /\
    tiles r left_edges right_edges.
Proof.
  intros Hv.
  destruct (log_rule_and_geometry cfg Hv) as (r & Hr & Hrule & Hg).
  destruct (log_rule_covers cfg r Hv Hrule) as (Hnb & Hmn & Hcov).
  destruct Hg as (logr & rnom & le & re & Hgeom & Hl1 & Hl2 & Hl3 & Hl4 & Hnth).
  exists r, logr, rnom, le, re. split; [exact Hr|]. split; [exact Hgeom|].
  set (n := Z.to_nat (nbins r)) in *.
  assert (Hn : (0 < n)%nat) by (unfold n; lia).
  assert (Hleft : forall i, (i < n)%nat ->
            nth i le 0 = min_sep r * exp (INR i * bin_size r)).
  { intros i Hi. destruct (Hnth i Hi) as (H1 & H2 & H3 & _).
    rewrite H3, H2, H1. unfold Rdiv. rewrite <- exp_Ropp, <- exp_plus.
    replace (ln (min_sep r) + bin_size r * / 2 + INR i * bin_size r + - (bin_size r * / 2))
      with (ln (min_sep r) + INR i * bin_size r) by lra.
    rewrite exp_plus, exp_ln by assumption. reflexivity. }
  assert (Hright : forall i, (i < n)%nat ->
            nth i re 0 = min_sep r * exp (INR (S i) * bin_size r)).
  { intros i Hi. destruct (Hnth i Hi) as (H1 & H2 & _ & H4).
    rewrite H4, H2, H1. rewrite <- exp_plus. rewrite S_INR.
    replace (ln (min_sep r) + bin_size r / 2 + INR i * bin_size r + bin_size r / 2)
      with (ln (min_sep r) + (INR i + 1) * bin_size r) by lra.
    rewrite exp_plus, exp_ln by assumption. reflexivity. }
  assert (Hbs : 0 < bin_size r).
  { assert (Hpos : 0 < IZR (nbins r)) by (apply IZR_lt; lia).
    assert (Hln : 0 < ln (max_sep r / min_sep r)).
    { destruct Hv as [Hbt Hc Hsu Hnb' Hbs' Hmn' Hmx' Hord].
      unfold log_rule in Hrule.
      destruct (cfg_nbins cfg) as [nb|], (cfg_bin_size cfg) as [bs|],
               (cfg_min_sep cfg) as [mn|], (cfg_max_sep cfg) as [mx|];
        try contradiction; destruct Hrule as (H1 & H2 & H3 & H4).
      - rewrite <- Hcov, H1, H2. apply Rmult_lt_0_compat; [|now apply Hbs'].
        apply IZR_lt. now apply Hnb'.
      - rewrite <- Hcov, H1, H2. apply Rmult_lt_0_compat; [|now apply Hbs'].
        apply IZR_lt. now apply Hnb'.
      - rewrite H3, H4. apply ln_div_pos; [now apply Hmn' | now apply Hord].
      - rewrite H3, H4. apply ln_div_pos; [now apply Hmn' | now apply Hord]. }
    rewrite <- Hcov in Hln. nra. }
  unfold tiles. fold n. repeat split; try assumption.
  - rewrite Hleft by assumption. simpl. rewrite Rmult_0_l, exp_0. lra.
  - intros i Hi. rewrite Hright, Hleft by lia. reflexivity.
  - rewrite Hright by lia.
    replace (S (n - 1)) with n by lia.
    unfold n. rewrite INR_Z_to_nat by lia. rewrite Hcov.
    rewrite exp_ln.
    + field. lra.
    + apply ln_pos_arg. rewrite <- Hcov.
      apply Rmult_lt_0_compat; [apply IZR_lt; lia | assumption].
  - intros i Hi. rewrite Hleft, Hright by assumption.
    apply Rmult_lt_compat_l; [assumption|]. apply exp_increasing.
    rewrite S_INR. nra.
Qed.

(** The scenario [min_sep=1, max_sep=10, nbins=5]: its five bins tile
    [[1, 10]]. *)
Lemma log_bins_tile_range_witness :
  exists r logr rnom left_edges right_edges,
    __init__ log_1_10_5 = Ok r /\
    geom r = GeomLog logr rnom left_edges right_edges /\
    tiles r left_edges right_edges.
Proof. apply (log_bins_tile_range log_1_10_5). exact valid_log_1_10_5. Defined.

(** ** What every resolved binning satisfies *)

Lemma linspace_inv start stop num l :
  linspace start stop num = Ok l ->
  (0 <= num)%Z /\
  l = map (fun i => INR i * ((stop - start) / IZR num) + start) (seq 0 (Z.to_nat num)).
Proof.
  unfold linspace. destruct (Z.ltb_spec num 0); [discriminate|].
  intros [= <-]. split; [lia | reflexivity].
Qed.

Lemma math_log_inv x y : math_log x = Ok y -> 0 < x /\ y = ln x.
Proof.
  unfold math_log. destruct (Rltb 0 x) eqn:E; [|discriminate].
  intros [= <-]. split; [now apply Rltb_true | reflexivity].
Qed.

Lemma log_arrays_inv nb bs mn mx l :
  log_arrays (nb, bs, mn, mx) = Ok l ->
  (0 <= nb)%Z /\ 0 < mn /\ bs <> 0 /\
  l_nbins l = nb /\ l_bin_size l = bs /\ l_min_sep l = mn /\ l_max_sep l = mx /\
  l__nbins l = nb /\
  exists logr rnom left_edges right_edges,
    l_geom l = GeomLog logr rnom left_edges right_edges /\
    length logr = Z.to_nat nb /\ length rnom = Z.to_nat nb /\
    length left_edges = Z.to_nat nb /\ length right_edges = Z.to_nat nb.
Proof.
  unfold log_arrays. intros H. repeat inv_bind H. injection H as <-. simpl.
  apply linspace_inv in E. destruct E as [Hnb ->].
  apply math_log_inv in E0. destruct E0 as [Hmn _].
  apply py_div_inv in E1. destruct E1 as [_ Hbs].
  repeat (split; [first [assumption | reflexivity]|]).
  do 4 eexists. split; [reflexivity|].
  rewrite !length_map, length_seq. auto.
Qed.

Lemma linear_arrays_inv nb bs mn mx l :
  linear_arrays (nb, bs, mn, mx) = Ok l ->
  (0 <= nb)%Z /\ mx <> 0 /\ mn + bs / 2 <> 0 /\
  l_nbins l = nb /\ l_bin_size l = bs /\ l_min_sep l = mn /\ l_max_sep l = mx /\
  l__nbins l = nb /\
  exists rnom left_edges right_edges logr,
    l_geom l = GeomLinear rnom left_edges right_edges logr /\
    length rnom = Z.to_nat nb /\ length left_edges = Z.to_nat nb /\
    length right_edges = Z.to_nat nb /\ length logr = Z.to_nat nb.
Proof.
  unfold linear_arrays. intros H. repeat inv_bind H. injection H as <-. simpl.
  apply linspace_inv in E. destruct E as [Hnb ->].
  apply py_div_inv in E0, E1. destruct E0 as [_ Hmx], E1 as [_ Hmn].
  repeat (split; [first [assumption | reflexivity]|]).
  do 4 eexists. split; [reflexivity|].
  rewrite !length_map, length_seq. auto.
Qed.

(** An [n] by [n] array. *)
Definition square {A : Type} (n : nat) (m : list (list A)) : Prop :=
  length m = n /\ Forall (fun row => length row = n) m.

Lemma square_map_rows {A B C : Type} (f : A -> C -> B) (l : list A) (l' : list C) :
  length l = length l' ->
  square (length l) (map (fun y => map (f y) l') l).
Proof.
  intros Hlen. split; [now rewrite length_map|].
  apply Forall_forall. intros row Hrow. apply in_map_iff in Hrow.
  destruct Hrow as [y [<- _]]. now rewrite length_map.
Qed.

Lemma square_map_map {A B : Type} (f : A -> B) n (m : list (list A)) :
  square n m -> square n (map (map f) m).
Proof.
  intros [Hlen Hrows]. split; [now rewrite length_map|].
  apply Forall_forall. intros row Hrow. apply in_map_iff in Hrow.
  destruct Hrow as [row' [<- Hin]]. rewrite length_map.
  rewrite Forall_forall in Hrows. now apply Hrows.
Qed.

Lemma twod_arrays_inv o nb bs mx l :
  twod_arrays o (nb, bs, mx) = Ok l ->
  (0 <= nb)%Z /\ mx <> 0 /\
  l_nbins l = nb /\ l_bin_size l = bs /\ o = Some (l_min_sep l) /\ l_max_sep l = mx /\
  l__nbins l = (nb ^ 2)%Z /\
  exists dx dy left_edges right_edges bottom_edges top_edges rnom logr,
    l_geom l = GeomTwoD dx dy left_edges right_edges bottom_edges top_edges rnom logr /\
    square (Z.to_nat nb) dx /\ square (Z.to_nat nb) dy /\
    square (Z.to_nat nb) left_edges /\ square (Z.to_nat nb) right_edges /\
    square (Z.to_nat nb) bottom_edges /\ square (Z.to_nat nb) top_edges /\
    square (Z.to_nat nb) rnom /\ square (Z.to_nat nb) logr.
Proof.
  unfold twod_arrays. intros H. repeat inv_bind H. injection H as <-. simpl.
  apply linspace_inv in E. destruct E as [Hnb ->].
  apply py_div_inv in E0. destruct E0 as [_ Hmx].
  destruct o as [mn|]; [|discriminate]. injection E1 as <-.
  repeat (split; [first [assumption | reflexivity]|]).
  do 8 eexists. split; [reflexivity|].
  set (sep := map (fun x => x + 0.5 * bs) _).
  assert (Hsep : length sep = Z.to_nat nb)
    by (unfold sep; now rewrite !length_map, length_seq).
  assert (Hdx : square (Z.to_nat nb) (map (fun _ : R => sep) sep)).
  { split; [now rewrite length_map|]. apply Forall_forall. intros row Hrow.
    apply in_map_iff in Hrow. destruct Hrow as [y [<- _]]. exact Hsep. }
  assert (Hdy : square (Z.to_nat nb) (map (fun y : R => map (fun _ : R => y) sep) sep)).
  { rewrite <- Hsep. now apply (square_map_rows (fun y _ => y)). }
  assert (Hrn : square (Z.to_nat nb)
                  (map (fun y : R => map (fun x : R => sqrt (x ^ 2 + y ^ 2)) sep) sep)).
  { rewrite <- Hsep. now apply (square_map_rows (fun y x => sqrt (x ^ 2 + y ^ 2))). }
  repeat split; try apply square_map_map; first [apply Hdx | apply Hdy | apply Hrn | idtac];
    try (destruct Hdx; assumption); try (destruct Hdy; assumption);
    try (destruct Hrn; assumption).
Qed.

(** The shape of the arrays of a resolved binning. *)
Definition well_shaped (r : BinnedCorr2) : Prop :=
  let n := Z.to_nat (nbins r) in
  match geom r with
  | GeomLog logr rnom left_edges right_edges =>
      _nbins r = nbins r /\
      length logr = n /\ length rnom = n /\
      length left_edges = n /\ length right_edges = n
  | GeomLinear rnom left_edges right_edges logr =>
      _nbins r = nbins r /\
      length rnom = n /\ length left_edges = n /\
      length right_edges = n /\ length logr = n
  | GeomTwoD dx dy left_edges right_edges bottom_edges top_edges rnom logr =>
      _nbins r = (nbins r ^ 2)%Z /\
      square n dx /\ square n dy /\ square n left_edges /\ square n right_edges /\
      square n bottom_edges /\ square n top_edges /\ square n rnom /\ square n logr
  end.

(** X2: whatever the configuration, a binning that the constructor accepts
    has [nbins >= 0], a positive unit, the kind of arrays of its bin type, and
    arrays of [nbins] entries ([nbins] by [nbins] for TwoD, where [_nbins]
    is [nbins^2]). *)
Theorem resolved_binning_shape cfg r :
  __init__ cfg = Ok r ->
  (0 <= nbins r)%Z /\ 0 < cfg_sep_units cfg /\
  bin_type_of r = cfg_bin_type cfg /\
  match cfg_bin_type cfg, geom r with
  | Log, GeomLog _ _ _ _ | Linear, GeomLinear _ _ _ _
  | TwoD, GeomTwoD _ _ _ _ _ _ _ _ => True
  | _, _ => False
  end /\
  well_shaped r.
Proof.
  intros H. destruct (init_inv _ _ H) as (lsu & l & Hsu & Hl & ->).
  apply math_log_inv in Hsu. destruct Hsu as [Hsu _].
  unfold resolve_layout in Hl. inv_bind Hl.
  unfold well_shaped, finish; cbn [nbins geom _nbins bin_type_of].
  destruct (cfg_bin_type cfg).
  - unfold layout_log in Hl. inv_bind Hl. destruct x0 as [[[nb bs] mn] mx].
    apply log_arrays_inv in Hl.
    destruct Hl as (Hnb & _ & _ & -> & _ & _ & _ & -> & a & b0 & c & d & -> & Hlen).
    repeat split; try assumption; try reflexivity; apply Hlen.
  - unfold layout_linear in Hl. inv_bind Hl. destruct x0 as [[[nb bs] mn] mx].
    apply linear_arrays_inv in Hl.
    destruct Hl as (Hnb & _ & _ & -> & _ & _ & _ & -> & a & b0 & c & d & -> & Hlen).
    repeat split; try assumption; try reflexivity; apply Hlen.
  - unfold layout_twod in Hl. inv_bind Hl. destruct x0 as [[nb bs] mx].
    apply twod_arrays_inv in Hl.
    destruct Hl as (Hnb & _ & -> & _ & _ & _ & -> & a & b0 & c & d & e & f & g & h & -> & Hsq).
    split; [assumption|]. split; [assumption|]. split; [reflexivity|].
    split; [exact I|]. split; [reflexivity | exact Hsq].
Qed.

(** On the TwoD binning with [min_sep=1, max_sep=10, bin_size=1]. *)
Lemma resolved_binning_shape_witness :
  exists r, __init__ twod_with_min_sep = Ok r /\ (0 <= nbins r)%Z /\ well_shaped r.
Proof.
  destruct twod_with_min_sep_resolves as (r & Hr & _).
  exists r. split; [exact Hr|].
  destruct (resolved_binning_shape twod_with_min_sep r Hr) as (H1 & _ & _ & _ & H2).
  split; assumption.
Defined.

(** ** Rounding the number of bins up *)

Lemma read_params_no_nbins cfg p :
  cfg_nbins cfg = None -> read_params cfg = Ok p ->
  exists mx bs,
    cfg_max_sep cfg = Some mx /\ cfg_bin_size cfg = Some bs /\
    get_min_sep cfg < mx /\
    p = {| p_min_sep := Some (get_min_sep cfg); p_max_sep := Some mx;
           p_bin_size := Some bs; p_nbins := None |}.
Proof.
  intros Hnb. unfold read_params. rewrite Hnb.
  destruct (cfg_max_sep cfg) as [mx|]; [|discriminate]. cbn [require bind].
  destruct (negb (missing_min_sep cfg)); [|discriminate]. cbn [guard bind].
  destruct (cfg_bin_size cfg) as [bs|]; [|discriminate]. cbn [require bind].
  destruct (Rleb mx (get_min_sep cfg)) eqn:E; [discriminate|]. cbn [negb guard bind].
  intros [= <-]. apply Rleb_false in E. exists mx, bs. auto.
Qed.

(** The extent that the bins have to cover, in the units in which
    [bin_size] is counted. *)
Definition extent (r : BinnedCorr2) : R :=
  match bin_type_of r with
  | Log => ln (max_sep r / min_sep r)
  | Linear => max_sep r - min_sep r
  | TwoD => 2 * max_sep r
  end.

Lemma rounded_up d bs0 nb bs range :
  0 < bs0 -> d = range / bs0 -> nb = ceil d -> (0 <= nb)%Z -> IZR nb <> 0 ->
  bs = range / IZR nb ->
  (0 < nb)%Z /\ IZR nb * bs = range /\ 0 < bs /\ bs <= bs0 /\
  range <= IZR nb * bs0 < range + bs0.
Proof.
  intros Hbs0 Hd Hnb Hnb0 Hnz Hbs.
  assert (Hpos : (0 < nb)%Z).
  { destruct (Z.eq_dec nb 0) as [->|]; [now exfalso; apply Hnz | lia]. }
  assert (Hpos' : 0 < IZR nb) by (apply IZR_lt; lia).
  destruct (ceil_spec d) as [Hlo Hhi]. rewrite <- Hnb in Hlo, Hhi.
  assert (Hr : range = d * bs0) by (rewrite Hd; field; lra).
  assert (Hd0 : 0 < d).
  { assert (1 <= IZR nb) by (apply IZR_le; lia). lra. }
  assert (Hrange : 0 < range) by (rewrite Hr; nra).
  split; [assumption|]. split; [rewrite Hbs; field; lra|].
  split; [rewrite Hbs; now apply Rdiv_lt_0_compat|].
  split.
  - rewrite Hbs. apply Rmult_le_reg_r with (IZR nb); [assumption|].
    unfold Rdiv. rewrite Rmult_assoc, Rinv_l by lra. nra.
  - rewrite Hr. nra.
Qed.

(** X3: when [nbins] is not given, the constructor takes the least number
    of bins of the requested [bin_size] that covers the extent (for every bin
    type), then shrinks [bin_size] so that the bins cover it exactly: the
    final [bin_size] is positive and at most the requested one. *)
Theorem nbins_rounded_up cfg r bs0 :
  __init__ cfg = Ok r ->
  cfg_nbins cfg = None -> cfg_bin_size cfg = Some bs0 -> 0 < bs0 ->
  (0 < nbins r)%Z /\
  IZR (nbins r) * bin_size r = extent r /\
  0 < bin_size r <= bs0 /\
  extent r <= IZR (nbins r) * bs0 < extent r + bs0.
Proof.
  intros H Hnone Hbs Hbs0.
  destruct (init_inv _ _ H) as (lsu & l & _ & Hl & ->).
  unfold resolve_layout in Hl. inv_bind Hl.
  destruct (read_params_no_nbins cfg x Hnone E) as (mx & bs & Hmx & Hbs' & Hlt & ->).
  rewrite Hbs in Hbs'. injection Hbs' as <-.
  unfold extent, finish; cbn [nbins bin_size min_sep max_sep bin_type_of].
  destruct (cfg_bin_type cfg).
  - unfold layout_log in Hl. inv_bind Hl. destruct x as [[[nb bs] mn] mx'].
    unfold log_params in E0. cbn [p_nbins p_max_sep p_min_sep p_bin_size the require bind] in E0.
    repeat inv_bind E0. injection E0 as <- <- <- <-.
    apply log_arrays_inv in Hl.
    destruct Hl as (Hnb & _ & _ & -> & -> & -> & -> & _).
    apply py_div_inv in E1, E3, E4.
    destruct E1 as [-> _], E3 as [Hd _], E4 as [Hb Hnz].
    apply math_log_inv in E2. destruct E2 as [_ ->].
    destruct (rounded_up _ _ _ _ _ Hbs0 Hd eq_refl Hnb Hnz Hb) as (H1 & H2 & H3 & H4 & H5).
    repeat split; try assumption; apply H5.
  - unfold layout_linear in Hl. inv_bind Hl. destruct x as [[[nb bs] mn] mx'].
    unfold linear_params in E0.
    cbn [p_nbins p_max_sep p_min_sep p_bin_size the require bind] in E0.
    repeat inv_bind E0. injection E0 as <- <- <- <-.
    apply linear_arrays_inv in Hl.
    destruct Hl as (Hnb & _ & _ & -> & -> & -> & -> & _).
    apply py_div_inv in E1, E2.
    destruct E1 as [Hd _], E2 as [Hb Hnz].
    destruct (rounded_up _ _ _ _ _ Hbs0 Hd eq_refl Hnb Hnz Hb) as (H1 & H2 & H3 & H4 & H5).
    repeat split; try assumption; apply H5.
  - unfold layout_twod in Hl. inv_bind Hl. destruct x as [[nb bs] mx'].
    unfold twod_params in E0.
    cbn [p_nbins p_max_sep p_min_sep p_bin_size the require bind] in E0.
    repeat inv_bind E0. injection E0 as <- <- <-.
    apply twod_arrays_inv in Hl.
    destruct Hl as (Hnb & _ & -> & -> & _ & -> & _).
    apply py_div_inv in E1, E2.
    destruct E1 as [Hd _], E2 as [Hb Hnz].
    destruct (rounded_up _ _ _ _ _ Hbs0 Hd eq_refl Hnb Hnz Hb) as (H1 & H2 & H3 & H4 & H5).
    repeat split; try assumption; apply H5.
Qed.

(** On the TwoD binning with [max_sep=10, bin_size=1]: 20 bins of size 1. *)
Lemma nbins_rounded_up_witness :
  exists r, __init__ twod_with_min_sep = Ok r /\
            IZR (nbins r) * bin_size r = extent r /\ 0 < bin_size r <= 1.
Proof.
  destruct twod_with_min_sep_resolves as (r & Hr & _).
  exists r. split; [exact Hr|].
  destruct (nbins_rounded_up twod_with_min_sep r 1 Hr eq_refl eq_refl) as (_ & H1 & H2 & _).
  - lra.
  - split; assumption.
Defined.

(** ** Linear binning *)

(** The rule by which the missing parameter of a Linear binning is
    derived. *)
Definition linear_rule (cfg : config) (r : BinnedCorr2) : Prop :=
  match cfg_nbins cfg, cfg_bin_size cfg, cfg_min_sep cfg, cfg_max_sep cfg with
  | None, Some bs, Some mn, Some mx =>
      nbins r = ceil ((mx - mn) / bs) /\
      bin_size r = (mx - mn) / IZR (nbins r) /\
      min_sep r = mn /\ max_sep r = mx
  | Some nb, None, Some mn, Some mx =>
      nbins r = nb /\ bin_size r = (mx - mn) / IZR nb /\
      min_sep r = mn /\ max_sep r = mx
  | Some nb, Some bs, Some mn, None =>
      nbins r = nb /\ bin_size r = bs /\
      min_sep r = mn /\ max_sep r = mn + IZR nb * bs
  | Some nb, Some bs, None, Some mx =>
      nbins r = nb /\ bin_size r = bs /\
      min_sep r = mx - IZR nb * bs /\ max_sep r = mx
  | _, _, _, _ => False
  end.

(** The arrays of a Linear binning: centers evenly spaced in [sep] from
    [min_sep + bin_size/2], edges half a bin on either side, and [logr] the
    logarithm of the centers. *)
Definition linear_geometry (r : BinnedCorr2) : Prop :=
  exists rnom left_edges right_edges logr,
    geom r = GeomLinear rnom left_edges right_edges logr /\
    tiles r left_edges right_edges /\
    length rnom = Z.to_nat (nbins r) /\ length logr = Z.to_nat (nbins r) /\
    forall i, (i < Z.to_nat (nbins r))%nat ->
      nth i rnom 0 = min_sep r + bin_size r / 2 + INR i * bin_size r /\
      nth i left_edges 0 = nth i rnom 0 - bin_size r / 2 /\
      nth i right_edges 0 = nth i rnom 0 + bin_size r / 2 /\
      nth i logr NaN = Fin (ln (nth i rnom 0)).

(** A valid Linear specification: exactly three of the four parameters,
    [nbins] and [bin_size] positive, [min_sep] not negative (also when it
    is the derived one), and [min_sep < max_sep] when both are there. *)
Record valid_linear (cfg : config) : Prop := {
  vlin_type : cfg_bin_type cfg = Linear;
  vlin_count : count_given cfg = 3%nat;
  vlin_units : 0 < cfg_sep_units cfg;
  vlin_nbins : forall nb, cfg_nbins cfg = Some nb -> (0 < nb)%Z;
  vlin_bin_size : forall bs, cfg_bin_size cfg = Some bs -> 0 < bs;
  vlin_min_sep : forall mn, cfg_min_sep cfg = Some mn -> 0 <= mn;
  vlin_order : forall mn mx,
      cfg_min_sep cfg = Some mn -> cfg_max_sep cfg = Some mx -> mn < mx;
  vlin_derived_min : forall nb bs mx,
      cfg_nbins cfg = Some nb -> cfg_bin_size cfg = Some bs ->
      cfg_max_sep cfg = Some mx -> cfg_min_sep cfg = None -> IZR nb * bs <= mx
}.

Lemma init_linear_ok cfg nb bs mn mx :
  cfg_bin_type cfg = Linear -> 0 < cfg_sep_units cfg ->
  (p <- read_params cfg ;; linear_params p) = Ok (nb, bs, mn, mx) ->
  (0 < nb)%Z -> 0 < bs -> 0 <= mn -> IZR nb * bs = mx - mn ->
  exists r, __init__ cfg = Ok r /\
    nbins r = nb /\ bin_size r = bs /\ min_sep r = mn /\ max_sep r = mx /\
    linear_geometry r.
Proof.
  intros Hbt Hsu Hpq Hnb Hbs Hmn Hcov.
  assert (Hnb0 : IZR nb <> 0) by (apply not_0_IZR; lia).
  assert (Hnbpos : 0 < IZR nb) by (apply IZR_lt; lia).
  assert (Hmx : 0 < mx) by nra.
  assert (Hstep : (mx - mn) / IZR nb = bs) by (rewrite <- Hcov; field; lra).
  set (lin := map (fun i => INR i * ((mx - mn) / IZR nb) + mn) (seq 0 (Z.to_nat nb))).
  set (rnom := map (fun x => x + 0.5 * bs) lin).
  set (l := {| l_nbins := nb; l_bin_size := bs; l_min_sep := mn; l_max_sep := mx;
               l_geom := GeomLinear rnom (map (fun r => r - 0.5 * bs) rnom)
                                    (map (fun r => r + 0.5 * bs) rnom)
                                    (map np_log rnom);
               l__nbins := nb;
               l_min_log_bin_size := bs / mx;
               l_max_good_slop := 0.1 / (bs / (mn + bs / 2)) |}).
  assert (Hl : linear_arrays (nb, bs, mn, mx) = Ok l).
  { unfold linear_arrays. rewrite linspace_ok by lia. cbn [bind].
    rewrite (py_div_ok bs mx) by lra. cbn [bind].
    rewrite (py_div_ok bs (mn + bs / 2)) by lra. cbn [bind].
    rewrite py_div_ok; [reflexivity|].
    apply Rgt_not_eq. apply Rdiv_lt_0_compat; lra. }
  assert (Hres : resolve_layout cfg = Ok l).
  { unfold resolve_layout.
    destruct (read_params cfg) as [p|]; [|discriminate]. cbn [bind] in Hpq |- *.
    rewrite Hbt. unfold layout_linear. rewrite Hpq. cbn [bind]. exact Hl. }
  exists (finish cfg (ln (cfg_sep_units cfg)) l).
  split; [now apply init_of_layout|].
  unfold finish; cbn [nbins bin_size min_sep max_sep]. unfold l at 1 2 3 4.
  cbn [l_nbins l_bin_size l_min_sep l_max_sep].
  repeat (split; [reflexivity|]).
  assert (Hlen : length lin = Z.to_nat nb)
    by (unfold lin; now rewrite length_map, length_seq).
  assert (Hrn : forall i, (i < Z.to_nat nb)%nat ->
            nth i rnom 0 = mn + bs / 2 + INR i * bs).
  { intros i Hi. unfold rnom. rewrite (nth_map_lt _ _ _ 0) by lia.
    unfold lin. rewrite (nth_map_lt _ _ _ 0%nat) by now rewrite length_seq.
    rewrite seq_nth by assumption. rewrite Hstep. simpl. lra. }
  assert (Hle : forall i, (i < Z.to_nat nb)%nat ->
            nth i (map (fun r => r - 0.5 * bs) rnom) 0 = nth i rnom 0 - bs / 2).
  { intros i Hi. rewrite (nth_map_lt _ _ _ 0) by (unfold rnom; rewrite length_map; lia).
    lra. }
  assert (Hre : forall i, (i < Z.to_nat nb)%nat ->
            nth i (map (fun r => r + 0.5 * bs) rnom) 0 = nth i rnom 0 + bs / 2).
  { intros i Hi. rewrite (nth_map_lt _ _ _ 0) by (unfold rnom; rewrite length_map; lia).
    lra. }
  unfold linear_geometry, tiles.
  cbn [geom nbins bin_size min_sep max_sep finish]. unfold l.
  cbn [l_geom l_nbins l_bin_size l_min_sep l_max_sep].
  do 4 eexists. split; [reflexivity|].
  assert (Hn : (0 < Z.to_nat nb)%nat) by lia.
  split; [|split; [|split]].
  - repeat split.
    + unfold rnom. now rewrite !length_map.
    + unfold rnom. now rewrite !length_map.
    + rewrite Hle, Hrn by assumption. simpl. lra.
    + intros i Hi. rewrite Hre, Hle, !Hrn by lia. rewrite S_INR. lra.
    + rewrite Hre, Hrn by lia. rewrite INR_pred by assumption.
      rewrite INR_Z_to_nat by lia. nra.
    + intros i Hi. rewrite Hle, Hre by assumption. lra.
  - unfold rnom. now rewrite length_map.
  - unfold rnom. now rewrite !length_map.
  - intros i Hi. repeat split.
    + now apply Hrn.
    + now apply Hle.
    + now apply Hre.
    + rewrite (nth_map_lt _ _ _ 0) by (unfold rnom; rewrite length_map; lia).
      unfold np_log. rewrite Rltb_true_intro; [reflexivity|].
      rewrite Hrn by assumption.
      assert (0 <= INR i) by apply pos_INR. nra.
Qed.

(** X4: for every valid Linear specification the constructor succeeds, derives
    the missing parameter by the rule of its branch, and lays out [nbins]
    bins of width [bin_size] that tile [[min_sep, max_sep]], with their
    centers in the middle. *)
Theorem linear_resolution cfg :
  valid_linear cfg ->
  exists r, __init__ cfg = Ok r /\ linear_rule cfg r /\ linear_geometry r.
Proof.
  intros [Hbt Hc Hsu Hnb Hbs Hmn Hord Hder].
  destruct cfg as [bt nb bs mn mx sl su]; simpl in *. subst bt.
  unfold count_given in Hc; simpl in Hc.
  destruct nb as [nb|], bs as [bs|], mn as [mn|], mx as [mx|];
    simpl in Hc; try discriminate.
  - (* max_sep derived *)
    specialize (Hnb _ eq_refl). specialize (Hbs _ eq_refl). specialize (Hmn _ eq_refl).
    edestruct (init_linear_ok
                 {| cfg_bin_type := Linear; cfg_nbins := Some nb; cfg_bin_size := Some bs;
                    cfg_min_sep := Some mn; cfg_max_sep := None;
                    cfg_bin_slop := sl; cfg_sep_units := su |}
                 nb bs mn (mn + IZR nb * bs))
      as (r & Hr & H1 & H2 & H3 & H4 & Hg); simpl; try eassumption; try reflexivity.
    + lra.
    + exists r. split; [exact Hr|]. split; [|exact Hg].
      unfold linear_rule; simpl. repeat split; assumption.
  - (* min_sep derived *)
    specialize (Hnb _ eq_refl). specialize (Hbs _ eq_refl).
    specialize (Hder _ _ _ eq_refl eq_refl eq_refl eq_refl).
    edestruct (init_linear_ok
                 {| cfg_bin_type := Linear; cfg_nbins := Some nb; cfg_bin_size := Some bs;
                    cfg_min_sep := None; cfg_max_sep := Some mx;
                    cfg_bin_slop := sl; cfg_sep_units := su |}
                 nb bs (mx - IZR nb * bs) mx)
      as (r & Hr & H1 & H2 & H3 & H4 & Hg); simpl; try eassumption; try reflexivity.
    + lra.
    + lra.
    + exists r. split; [exact Hr|]. split; [|exact Hg].
      unfold linear_rule; simpl. repeat split; assumption.
  - (* bin_size derived *)
    specialize (Hnb _ eq_refl). specialize (Hmn _ eq_refl).
    specialize (Hord _ _ eq_refl eq_refl).
    assert (Hnb0 : IZR nb <> 0) by (apply not_0_IZR; lia).
    assert (Hnbpos : 0 < IZR nb) by (apply IZR_lt; lia).
    edestruct (init_linear_ok
                 {| cfg_bin_type := Linear; cfg_nbins := Some nb; cfg_bin_size := None;
                    cfg_min_sep := Some mn; cfg_max_sep := Some mx;
                    cfg_bin_slop := sl; cfg_sep_units := su |}
                 nb ((mx - mn) / IZR nb) mn mx)
      as (r & Hr & H1 & H2 & H3 & H4 & Hg); simpl; try eassumption; try reflexivity.
    + unfold read_params, get_min_sep, missing_min_sep; simpl.
      rewrite Rleb_false_intro by lra. simpl.
      unfold linear_params; simpl. now rewrite py_div_ok by assumption.
    + apply Rdiv_lt_0_compat; lra.
    + field. assumption.
    + exists r. split; [exact Hr|]. split; [|exact Hg].
      unfold linear_rule; simpl. repeat split; assumption.
  - (* nbins derived *)
    specialize (Hbs _ eq_refl). specialize (Hmn _ eq_refl).
    specialize (Hord _ _ eq_refl eq_refl).
    assert (Hd : 0 < (mx - mn) / bs) by (apply Rdiv_lt_0_compat; lra).
    pose proof (ceil_pos _ Hd) as Hpos.
    assert (Hnb0 : IZR (ceil ((mx - mn) / bs)) <> 0) by (apply not_0_IZR; lia).
    assert (Hnbpos : 0 < IZR (ceil ((mx - mn) / bs))) by (apply IZR_lt; lia).
    edestruct (init_linear_ok
                 {| cfg_bin_type := Linear; cfg_nbins := None; cfg_bin_size := Some bs;
                    cfg_min_sep := Some mn; cfg_max_sep := Some mx;
                    cfg_bin_slop := sl; cfg_sep_units := su |}
                 (ceil ((mx - mn) / bs)) ((mx - mn) / IZR (ceil ((mx - mn) / bs))) mn mx)
      as (r & Hr & H1 & H2 & H3 & H4 & Hg); simpl; try eassumption; try reflexivity.
    + unfold read_params, get_min_sep, missing_min_sep; simpl.
      rewrite Rleb_false_intro by lra. simpl.
      unfold linear_params; simpl.
      rewrite py_div_ok by lra. simpl. now rewrite py_div_ok by assumption.
    + apply Rdiv_lt_0_compat; lra.
    + field. assumption.
    + exists r. split; [exact Hr|]. split; [|exact Hg].
      unfold linear_rule; simpl. rewrite H1. repeat split; assumption.
Qed.

(** Linear bins of [0..10] with [bin_size = 2.5]: [nbins] is derived. *)
Definition linear_0_10 : config :=
  {| cfg_bin_type := Linear; cfg_nbins := None; cfg_bin_size := Some 2.5;
     cfg_min_sep := Some 0; cfg_max_sep := Some 10; cfg_bin_slop := None;
     cfg_sep_units := 1 |}.

Lemma linear_resolution_witness :
  exists r, __init__ linear_0_10 = Ok r /\ linear_rule linear_0_10 r /\ linear_geometry r.
Proof.
  apply (linear_resolution linear_0_10).
  split; simpl; try reflexivity; try lra; try discriminate.
  - intros bs [= <-]. lra.
  - intros mn [= <-]. lra.
  - intros mn mx [= <-] [= <-]. lra.
Defined.

(** ** TwoD binning *)

(** Position [i] on the axis of a TwoD binning. *)
Definition axis (r : BinnedCorr2) (i : nat) : R :=
  - max_sep r + bin_size r / 2 + INR i * bin_size r.

(** Entry [(row, col)] of a 2-d array of reals, and of a 2-d array of
    logarithms. *)
Definition at2 (m : list (list R)) (row col : nat) : R := nth col (nth row m []) 0.
Definition xat2 (m : list (list xreal)) (row col : nat) : xreal :=
  nth col (nth row m []) NaN.

(** The arrays of a TwoD binning: an [nbins] by [nbins] grid over
    [[-max_sep, max_sep]] in both directions, [dx] running along the
    columns and [dy] along the rows, symmetric about the origin. *)
Definition twod_geometry (r : BinnedCorr2) : Prop :=
  let n := Z.to_nat (nbins r) in
  IZR (nbins r) * bin_size r = 2 * max_sep r /\
  _nbins r = (nbins r ^ 2)%Z /\
  (forall i, (i < n)%nat -> axis r (n - 1 - i) = - axis r i) /\
  exists dx dy left_edges right_edges bottom_edges top_edges rnom logr,
    geom r = GeomTwoD dx dy left_edges right_edges bottom_edges top_edges rnom logr /\
    forall row col, (row < n)%nat -> (col < n)%nat ->
      at2 dx row col = axis r col /\
      at2 dy row col = axis r row /\
      at2 left_edges row col = axis r col - bin_size r / 2 /\
      at2 right_edges row col = axis r col + bin_size r / 2 /\
      at2 bottom_edges row col = axis r row - bin_size r / 2 /\
      at2 top_edges row col = axis r row + bin_size r / 2 /\
      at2 rnom row col = sqrt (axis r col ^ 2 + axis r row ^ 2) /\
      xat2 logr row col =
        if Reqb (at2 rnom row col) 0 then NegInf else Fin (ln (at2 rnom row col)).

(** A valid TwoD specification: exactly two of [nbins], [bin_size],
    [max_sep], positive; [min_sep] is optional, not negative, and below
    [max_sep] when that is given. *)
Record valid_twod (cfg : config) : Prop := {
  vt_type : cfg_bin_type cfg = TwoD;
  vt_count : count_given_twod cfg = 2%nat;
  vt_units : 0 < cfg_sep_units cfg;
  vt_nbins : forall nb, cfg_nbins cfg = Some nb -> (0 < nb)%Z;
  vt_bin_size : forall bs, cfg_bin_size cfg = Some bs -> 0 < bs;
  vt_min_sep : 0 <= get_min_sep cfg;
  vt_order : forall mx, cfg_max_sep cfg = Some mx -> get_min_sep cfg < mx
}.

Lemma nth_rows {A B : Type} (f : A -> list B) (l : list A) (d : A) i :
  (i < length l)%nat -> nth i (map f l) [] = f (nth i l d).
Proof. intros H. now apply nth_map_lt. Qed.

Lemma init_twod_ok cfg nb bs mx :
  cfg_bin_type cfg = TwoD -> 0 < cfg_sep_units cfg ->
  (exists p, read_params cfg = Ok p /\ p_min_sep p = Some (get_min_sep cfg) /\
             twod_params p = Ok (nb, bs, mx)) ->
  (0 < nb)%Z -> 0 < bs -> 0 <= get_min_sep cfg -> IZR nb * bs = 2 * mx ->
  exists r, __init__ cfg = Ok r /\
    nbins r = nb /\ bin_size r = bs /\ min_sep r = get_min_sep cfg /\ max_sep r = mx /\
    twod_geometry r.
Proof.
  intros Hbt Hsu (p & Hp & Hpmn & Hq) Hnb Hbs Hmn Hcov.
  assert (Hnb0 : IZR nb <> 0) by (apply not_0_IZR; lia).
  assert (Hnbpos : 0 < IZR nb) by (apply IZR_lt; lia).
  assert (Hmx : 0 < mx) by nra.
  assert (Hstep : (mx - - mx) / IZR nb = bs) by (replace (mx - - mx) with (IZR nb * bs) by lra; field; lra).
  set (mn := get_min_sep cfg) in *.
  set (lin := map (fun i => INR i * ((mx - - mx) / IZR nb) + - mx) (seq 0 (Z.to_nat nb))).
  set (sep := map (fun x => x + 0.5 * bs) lin).
  set (rnom := map (fun y => map (fun x => sqrt (x ^ 2 + y ^ 2)) sep) sep).
  set (dx := map (fun _ : R => sep) sep).
  set (dy := map (fun y : R => map (fun _ : R => y) sep) sep).
  set (shift := fun d : R => map (map (fun x => x + d))).
  set (l := {| l_nbins := nb; l_bin_size := bs; l_min_sep := mn; l_max_sep := mx;
               l_geom := GeomTwoD dx dy (shift (- (0.5 * bs)) dx) (shift (0.5 * bs) dx)
                                  (shift (- (0.5 * bs)) dy) (shift (0.5 * bs) dy)
                                  rnom (map (map log_where_pos) rnom);
               l__nbins := (nb ^ 2)%Z;
               l_min_log_bin_size := bs / mx;
               l_max_good_slop := 0.1 / (bs / (mn + bs / 2)) |}).
  assert (Hl : twod_arrays (Some mn) (nb, bs, mx) = Ok l).
  { unfold twod_arrays. rewrite linspace_ok by lia. cbn [bind].
    rewrite (py_div_ok bs mx) by lra. cbn [bind the require].
    rewrite (py_div_ok bs (mn + bs / 2)) by lra. cbn [bind].
    rewrite py_div_ok; [reflexivity|].
    apply Rgt_not_eq. apply Rdiv_lt_0_compat; lra. }
  assert (Hres : resolve_layout cfg = Ok l).
  { unfold resolve_layout. rewrite Hp. cbn [bind]. rewrite Hbt.
    unfold layout_twod. rewrite Hq. cbn [bind]. rewrite Hpmn. exact Hl. }
  exists (finish cfg (ln (cfg_sep_units cfg)) l).
  split; [now apply init_of_layout|].
  unfold finish; cbn [nbins bin_size min_sep max_sep]. unfold l at 1 2 3 4.
  cbn [l_nbins l_bin_size l_min_sep l_max_sep].
  repeat (split; [reflexivity|]).
  assert (Hlen : length sep = Z.to_nat nb)
    by (unfold sep, lin; now rewrite !length_map, length_seq).
  assert (Hsepn : forall i, (i < Z.to_nat nb)%nat ->
            nth i sep 0 = - mx + bs / 2 + INR i * bs).
  { intros i Hi. unfold sep. rewrite (nth_map_lt _ _ _ 0)
      by (unfold lin; rewrite length_map, length_seq; lia).
    unfold lin. rewrite (nth_map_lt _ _ _ 0%nat) by now rewrite length_seq.
    rewrite seq_nth by assumption. rewrite Hstep. simpl. lra. }
  unfold twod_geometry, axis.
  cbn [geom nbins bin_size min_sep max_sep _nbins finish]. unfold l.
  cbn [l_geom l_nbins l_bin_size l_min_sep l_max_sep l__nbins].
  split; [exact Hcov|]. split; [reflexivity|]. split.
  - intros i Hi. rewrite !minus_INR by lia. rewrite INR_Z_to_nat by lia.
    simpl. nra.
  - do 8 eexists. split; [reflexivity|].
    intros row col Hrow Hcol.
    assert (Hdx : nth row dx [] = sep) by (unfold dx; now rewrite (nth_rows _ _ 0) by lia).
    assert (Hdy : nth row dy [] = map (fun _ : R => nth row sep 0) sep)
      by (unfold dy; now rewrite (nth_rows _ _ 0) by lia).
    assert (Hrn : nth row rnom [] =
                  map (fun x => sqrt (x ^ 2 + nth row sep 0 ^ 2)) sep)
      by (unfold rnom; now rewrite (nth_rows _ _ 0) by lia).
    assert (Hshift : forall d m, (row < length m)%nat ->
              nth row (shift d m) [] = map (fun x => x + d) (nth row m [])).
    { intros d m Hm. unfold shift. now rewrite (nth_rows _ _ []) by assumption. }
    assert (Hdxl : length dx = Z.to_nat nb) by (unfold dx; now rewrite length_map).
    assert (Hdyl : length dy = Z.to_nat nb) by (unfold dy; now rewrite length_map).
    assert (Hrnl : length rnom = Z.to_nat nb) by (unfold rnom; now rewrite length_map).
    unfold at2, xat2.
    rewrite !Hshift by lia. rewrite Hdx, Hdy, Hrn.
    rewrite (nth_rows _ _ []) by lia. rewrite Hrn.
    rewrite !(nth_map_lt _ _ _ 0) by (rewrite ?length_map; lia).
    rewrite !Hsepn by assumption.
    repeat split; try lra.
    unfold log_where_pos.
    destruct (Reqb _ 0) eqn:E; [reflexivity|].
    apply Reqb_false in E.
    rewrite Rltb_true_intro; [reflexivity|].
    match goal with |- 0 < sqrt ?x => pose proof (sqrt_pos x); lra end.
Qed.

(** X5: for every valid TwoD specification the constructor succeeds, with
    [nbins * bin_size = 2 * max_sep] whichever of the three was derived,
    and lays out the [nbins] by [nbins] grid of cells: the axis is symmetric
    about the origin, [rnom] is the distance of the cell center from the
    origin, and [logr] is [-inf] exactly where [rnom] is 0. *)
Theorem twod_resolution cfg :
  valid_twod cfg ->
  exists r, __init__ cfg = Ok r /\ min_sep r = get_min_sep cfg /\ twod_geometry r.
Proof.
  intros [Hbt Hc Hsu Hnb Hbs Hmn Hord].
  destruct cfg as [bt nb bs mn mx sl su]; simpl in *. subst bt.
  unfold count_given_twod in Hc; simpl in Hc.
  set (m := get_min_sep
              {| cfg_bin_type := TwoD; cfg_nbins := nb; cfg_bin_size := bs;
                 cfg_min_sep := mn; cfg_max_sep := mx; cfg_bin_slop := sl;
                 cfg_sep_units := su |}) in *.
  destruct nb as [nb|], bs as [bs|], mx as [mx|]; simpl in Hc; try discriminate.
  - (* max_sep derived *)
    specialize (Hnb _ eq_refl). specialize (Hbs _ eq_refl).
    edestruct (init_twod_ok
                 {| cfg_bin_type := TwoD; cfg_nbins := Some nb; cfg_bin_size := Some bs;
                    cfg_min_sep := mn; cfg_max_sep := None;
                    cfg_bin_slop := sl; cfg_sep_units := su |}
                 nb bs (IZR nb * bs / 2))
      as (r & Hr & H1 & H2 & H3 & H4 & Hg); simpl; try eassumption; try reflexivity.
    + eexists. unfold read_params, missing_min_sep; simpl.
      rewrite andb_false_r. simpl. split; [reflexivity|]. split; reflexivity.
    + lra.
    + exists r. split; [exact Hr|]. split; assumption.
  - (* bin_size derived *)
    specialize (Hnb _ eq_refl). specialize (Hord _ eq_refl).
    assert (Hnb0 : IZR nb <> 0) by (apply not_0_IZR; lia).
    assert (Hnbpos : 0 < IZR nb) by (apply IZR_lt; lia).
    edestruct (init_twod_ok
                 {| cfg_bin_type := TwoD; cfg_nbins := Some nb; cfg_bin_size := None;
                    cfg_min_sep := mn; cfg_max_sep := Some mx;
                    cfg_bin_slop := sl; cfg_sep_units := su |}
                 nb (2 * mx / IZR nb) mx)
      as (r & Hr & H1 & H2 & H3 & H4 & Hg); simpl; try eassumption; try reflexivity.
    + eexists. unfold read_params, missing_min_sep; simpl.
      rewrite andb_false_r. simpl. fold m. rewrite Rleb_false_intro by lra. simpl.
      split; [reflexivity|]. split; [reflexivity|].
      unfold twod_params; simpl. now rewrite py_div_ok by assumption.
    + apply Rdiv_lt_0_compat; lra.
    + field. assumption.
    + exists r. split; [exact Hr|]. split; assumption.
  - (* nbins derived *)
    specialize (Hbs _ eq_refl). specialize (Hord _ eq_refl).
    assert (Hd : 0 < 2 * mx / bs) by (apply Rdiv_lt_0_compat; lra).
    pose proof (ceil_pos _ Hd) as Hpos.
    assert (Hnb0 : IZR (ceil (2 * mx / bs)) <> 0) by (apply not_0_IZR; lia).
    assert (Hnbpos : 0 < IZR (ceil (2 * mx / bs))) by (apply IZR_lt; lia).
    edestruct (init_twod_ok
                 {| cfg_bin_type := TwoD; cfg_nbins := None; cfg_bin_size := Some bs;
                    cfg_min_sep := mn; cfg_max_sep := Some mx;
                    cfg_bin_slop := sl; cfg_sep_units := su |}
                 (ceil (2 * mx / bs)) (2 * mx / IZR (ceil (2 * mx / bs))) mx)
      as (r & Hr & H1 & H2 & H3 & H4 & Hg); simpl; try eassumption; try reflexivity.
    + eexists. unfold read_params, missing_min_sep; simpl.
      rewrite andb_false_r. simpl. fold m. rewrite Rleb_false_intro by lra. simpl.
      split; [reflexivity|]. split; [reflexivity|].
      unfold twod_params; simpl.
      rewrite py_div_ok by lra. simpl. now rewrite py_div_ok by assumption.
    + apply Rdiv_lt_0_compat; lra.
    + field. assumption.
    + exists r. split; [exact Hr|]. split; assumption.
Qed.

(** A 4 by 4 grid over [[-2, 2]]. *)
Definition twod_4 : config :=
  {| cfg_bin_type := TwoD; cfg_nbins := Some 4%Z; cfg_bin_size := None;
     cfg_min_sep := None; cfg_max_sep := Some 2; cfg_bin_slop := None;
     cfg_sep_units := 1 |}.

Lemma twod_resolution_witness :
  exists r, __init__ twod_4 = Ok r /\ min_sep r = 0 /\ twod_geometry r.
Proof.
  apply (twod_resolution twod_4).
  split; unfold get_min_sep; simpl; try reflexivity; try lra; try discriminate.
  - intros nb [= <-]. lia.
  - intros mx [= <-]. lra.
Defined.

(** ** The default [bin_slop] *)

(** X6: when the caller gives no [bin_slop], or a negative one, the
    constructor uses [min(0.1/max_log_bin_size, 1)]: the result is the same object for
    every negative value, its [bin_slop] is at most 1, the warning about a
    large [bin_slop] is not logged, and for a Log binning with a positive
    [bin_size] the tolerance is [b = min(0.1, bin_size)]. *)
Theorem default_bin_slop cfg r :
  __init__ cfg = Ok r -> get_bin_slop cfg < 0 ->
  bin_slop r = Rmin (0.1 / max_log_bin_size r) 1 /\
  bin_slop r <= 1 /\
  slop_warning r = false /\
  (forall s, s < 0 -> __init__ (with_bin_slop cfg (Some s)) = Ok r) /\
  __init__ (with_bin_slop cfg None) = Ok r /\
  (cfg_bin_type cfg = Log -> 0 < bin_size r -> b r = Rmin 0.1 (bin_size r)).
Proof.
  intros H Hneg. destruct (init_inv _ _ H) as (lsu & l & Hsu & Hl & ->).
  pose proof (resolve_layout_slop _ _ Hl) as Hs.
  assert (Hmgs : l_max_good_slop l = 0.1 / max_log_bin_size (finish cfg lsu l)).
  { unfold max_log_bin_size, finish; simpl. destruct (cfg_bin_type cfg); apply Hs. }
  assert (Hslop : bin_slop (finish cfg lsu l) = Rmin (l_max_good_slop l) 1).
  { unfold finish; simpl. rewrite (Rltb_true_intro _ _ Hneg). apply py_min_Rmin. }
  assert (Hsame : forall o, match o with Some s => s | None => -1 end < 0 ->
            __init__ (with_bin_slop cfg o) = Ok (finish cfg lsu l)).
  { intros o Ho. unfold __init__. simpl. rewrite Hsu. cbn [bind].
    rewrite resolve_layout_with_bin_slop, Hl. cbn [bind]. f_equal.
    unfold finish, get_bin_slop; simpl.
    fold (get_bin_slop cfg).
    now rewrite (Rltb_true_intro _ _ Ho), (Rltb_true_intro _ _ Hneg). }
  split; [now rewrite Hslop, Hmgs|].
  split; [rewrite Hslop; apply Rmin_r|].
  split.
  { unfold finish at 1; cbn [slop_warning]. rewrite (Rltb_true_intro _ _ Hneg).
    apply Rltb_false_intro. rewrite py_min_Rmin.
    pose proof (Rmin_l (l_max_good_slop l) 1). lra. }
  split; [intros s Hs0; now apply (Hsame (Some s))|].
  split; [apply (Hsame None); lra|].
  intros Hbt Hbs.
  unfold finish at 1; cbn [b]. rewrite Hbt in *. cbn [is_linear_or_twod].
  rewrite (Rltb_true_intro _ _ Hneg). rewrite py_min_Rmin.
  destruct Hs as [Hmin Hgood]. rewrite Hmin, Hgood.
  unfold finish in Hbs; cbn [bin_size] in Hbs.
  change (bin_size (finish cfg lsu l)) with (l_bin_size l).
  unfold Rmin. destruct (Rle_dec (0.1 / l_bin_size l) 1) as [Hle|Hgt];
    destruct (Rle_dec 0.1 (l_bin_size l)) as [Hle'|Hgt'].
  - unfold Rdiv. rewrite (Rmult_comm 0.1), <- Rmult_assoc, Rinv_r by lra. lra.
  - exfalso. apply Hgt'.
    apply (Rmult_le_compat_r (l_bin_size l)) in Hle; [|lra].
    unfold Rdiv in Hle. rewrite Rmult_assoc, Rinv_l in Hle by lra. lra.
  - exfalso. apply Hgt.
    apply Rmult_le_reg_r with (l_bin_size l); [assumption|].
    unfold Rdiv. rewrite Rmult_assoc, Rinv_l by lra. lra.
  - lra.
Qed.

(** On the Log scenario [min_sep=1, max_sep=10, nbins=5]: no warning, and
    [b] is at most 0.1. *)
Lemma default_bin_slop_witness :
  exists r, __init__ log_1_10_5 = Ok r /\ slop_warning r = false /\ bin_slop r <= 1.
Proof.
  destruct (log_rule_and_geometry _ valid_log_1_10_5) as (r & Hr & _).
  exists r. split; [exact Hr|].
  destruct (default_bin_slop log_1_10_5 r Hr) as (_ & H1 & H2 & _).
  - unfold get_bin_slop; simpl. lra.
  - split; assumption.
Defined.

End BinningMore.

(** * Properties of the metric options *)

Module MetricFacts.
Import Metric.

Lemma string_in_spec s l : string_in s l = true <-> In s l.
Proof.
  unfold string_in. rewrite existsb_exists. split.
  - intros [x [Hx Heq]]. apply String.eqb_eq in Heq. now subst.
  - intros H. exists s. split; [assumption | apply String.eqb_refl].
Qed.

Lemma opt_eqb_refl o : opt_eqb o o = true.
Proof. destruct o; simpl; [apply String.eqb_refl | reflexivity]. Qed.

Section WithEnvironment.

Variable float_max : R.
Variable parse_metric : string -> string -> option string -> result (string * string).
Variable coord_enum : string -> Z.
Variable metric_enum : string -> Z.

Local Abbreviation set_metric := (_set_metric float_max parse_metric coord_enum metric_enum).

(** The metric that [_set_metric] works with: its argument, or the one of
    the configuration, or Euclidean. *)
Definition effective_metric (cfg : config) (metric_arg : option string) : string :=
  match metric_arg with
  | None => get_or (cfg_metric cfg) "Euclidean"%string
  | Some m => m
  end.

(** What [_set_metric] demands of the object, for the metric [metric0] it
    was asked for and the coordinates and metric that [parse_metric] made
    of it. *)
Definition accepted (self : attrs) (metric0 coords' metric' : string) : Prop :=
  (In metric0 rpar_metrics \/
   (min_rpar self = - float_max /\ max_rpar self = float_max)) /\
  (sep_units self = EmptyString \/ coords' <> "3d"%string \/ metric' = "Arc"%string) /\
  (metric' = "Periodic"%string ->
   xperiod self <> 0 /\ yperiod self <> 0 /\
   (coords' = "3d"%string -> zperiod self <> 0)) /\
  (metric' <> "Periodic"%string ->
   xperiod self = 0 /\ yperiod self = 0 /\ zperiod self = 0).

(** The object after a successful [_set_metric]. *)
Definition with_metric (self : attrs) (coords' metric' : string) : attrs :=
  {| sep_units := sep_units self;
     min_rpar := min_rpar self;
     max_rpar := max_rpar self;
     xperiod := xperiod self;
     yperiod := yperiod self;
     zperiod := zperiod self;
     coords := Some coords';
     metric := Some metric';
     _coords := Some (coord_enum coords');
     _metric := Some (metric_enum metric') |}.

Ltac case_bool :=
  match goal with
  | H : context [Reqb ?x ?y] |- _ =>
      let E := fresh "E" in
      destruct (Reqb x y) eqn:E;
      [apply Reqb_true in E | apply Reqb_false in E]
  | |- context [Reqb ?x ?y] =>
      let E := fresh "E" in
      destruct (Reqb x y) eqn:E;
      [apply Reqb_true in E | apply Reqb_false in E]
  | H : context [String.eqb ?x ?y] |- _ => destruct (String.eqb_spec x y)
  | |- context [String.eqb ?x ?y] => destruct (String.eqb_spec x y)
  | H : context [string_in ?x ?y] |- _ =>
      let E := fresh "E" in
      destruct (string_in x y) eqn:E;
      [apply string_in_spec in E
      | assert (~ In x y) by (rewrite <- string_in_spec; congruence); clear E]
  | |- context [string_in ?x ?y] =>
      let E := fresh "E" in
      destruct (string_in x y) eqn:E;
      [apply string_in_spec in E
      | assert (~ In x y) by (rewrite <- string_in_spec; congruence); clear E]
  end.

(** The warnings that [_set_metric] logs when it stores [coords'] and
    [metric']. *)
Definition logged (self : attrs) (coords' metric' : string) : list string :=
  if negb (opt_eqb (coords self) None) || negb (opt_eqb (metric self) None) then
    (if negb (opt_eqb (Some coords') (coords self)) then [coords_warning] else []) ++
    (if negb (opt_eqb (Some metric') (metric self)) then [metric_warning] else [])
  else [].

Lemma set_metric_spec cfg self metric_arg coords1 coords2 after warnings :
  set_metric cfg self metric_arg coords1 coords2 = Ok (after, warnings) <->
  exists coords' metric',
    parse_metric (effective_metric cfg metric_arg) coords1 coords2 = Ok (coords', metric') /\
    accepted self (effective_metric cfg metric_arg) coords' metric' /\
    after = with_metric self coords' metric' /\
    warnings = logged self coords' metric'.
Proof.
  unfold _set_metric. fold (effective_metric cfg metric_arg).
  set (m0 := effective_metric cfg metric_arg).
  split.
  - intros H.
    destruct (string_in m0 rpar_metrics) eqn:Ein.
    + cbn [bind] in H.
      destruct (parse_metric m0 coords1 coords2) as [[c' m']|]; [|discriminate].
      cbn [bind] in H. exists c', m'. split; [reflexivity|].
      fold (logged self c' m') in H.
      apply string_in_spec in Ein.
      unfold accepted.
      repeat case_bool; cbn [negb andb orb guard bind] in H; try discriminate;
        injection H as <- <-;
        (split; [|split; reflexivity]);
        repeat split; auto; try congruence; try tauto.
    + assert (Hnin : ~ In m0 rpar_metrics) by (rewrite <- string_in_spec; congruence).
      destruct (Reqb (min_rpar self) (- float_max)) eqn:E1;
        cbn [guard bind] in H; [|discriminate].
      destruct (Reqb (max_rpar self) float_max) eqn:E2;
        cbn [guard bind] in H; [|discriminate].
      apply Reqb_true in E1, E2.
      destruct (parse_metric m0 coords1 coords2) as [[c' m']|]; [|discriminate].
      cbn [bind] in H. exists c', m'. split; [reflexivity|].
      fold (logged self c' m') in H.
      unfold accepted.
      repeat case_bool; cbn [negb andb orb guard bind] in H; try discriminate;
        injection H as <- <-;
        (split; [|split; reflexivity]);
        repeat split; auto; try congruence; try tauto.
  - intros (c' & m' & Hp & (Hrpar & Hunits & Hper & Hnper) & -> & ->).
    rewrite Hp.
    assert (Hfirst :
      (if string_in m0 rpar_metrics then Ok tt
       else
         _ <- guard (Reqb (min_rpar self) (- float_max))
                (ValueError ("min_rpar is not valid for " ++ m0 ++ " metric.")) ;;
         guard (Reqb (max_rpar self) float_max)
           (ValueError ("max_rpar is not valid for " ++ m0 ++ " metric."))) = Ok tt).
    { destruct (string_in m0 rpar_metrics) eqn:Ein; [reflexivity|].
      destruct Hrpar as [Hin | [H1 H2]].
      - apply string_in_spec in Hin. congruence.
      - now rewrite (Reqb_true_intro _ _ H1), (Reqb_true_intro _ _ H2). }
    rewrite Hfirst. cbn [bind].
    assert (Hsecond :
      negb (negb (String.eqb (sep_units self) EmptyString) && String.eqb c' "3d"
            && negb (String.eqb m' "Arc")) = true).
    { clear Hfirst Hp.
      destruct (String.eqb_spec (sep_units self) EmptyString);
        destruct (String.eqb_spec c' "3d"); destruct (String.eqb_spec m' "Arc");
        cbn [negb andb]; try reflexivity.
      destruct Hunits as [? | [? | ?]]; congruence. }
    rewrite Hsecond. cbn [guard bind].
    fold (logged self c' m').
    destruct (String.eqb_spec m' "Periodic") as [Hm|Hm].
    + destruct (Hper Hm) as (Hx & Hy & Hz).
      rewrite (Reqb_false_intro _ _ Hx), (Reqb_false_intro _ _ Hy). cbn [orb].
      destruct (String.eqb_spec c' "3d") as [Hc|Hc]; cbn [andb].
      * rewrite (Reqb_false_intro _ _ (Hz Hc)). cbn [negb guard bind]. reflexivity.
      * cbn [negb guard bind]. reflexivity.
    + destruct (Hnper Hm) as (Hx & Hy & Hz).
      rewrite (Reqb_true_intro _ _ Hx), (Reqb_true_intro _ _ Hy),
              (Reqb_true_intro _ _ Hz).
      cbn [negb orb guard bind]. reflexivity.
Qed.

(** X7: [_set_metric] succeeds exactly when [parse_metric] does and the
    object passes the checks on [min_rpar]/[max_rpar], on [sep_units] and
    on the periods; it then records the parsed coordinates and metric (and
    their enums) and changes nothing else. *)
Theorem set_metric_succeeds_iff cfg self metric_arg coords1 coords2 after :
  (exists warnings, set_metric cfg self metric_arg coords1 coords2 = Ok (after, warnings)) <->
  exists coords' metric',
    parse_metric (effective_metric cfg metric_arg) coords1 coords2 = Ok (coords', metric') /\
    accepted self (effective_metric cfg metric_arg) coords' metric' /\
    after = with_metric self coords' metric'.
Proof.
  split.
  - intros [w H]. apply set_metric_spec in H.
    destruct H as (c' & m' & Hp & Hacc & Hafter & _). exists c', m'. auto.
  - intros (c' & m' & Hp & Hacc & Hafter). exists (logged self c' m').
    apply set_metric_spec. exists c', m'. auto.
Qed.

Lemma opt_eqb_spec o1 o2 : opt_eqb o1 o2 = true <-> o1 = o2.
Proof.
  destruct o1 as [s1|], o2 as [s2|]; simpl; try (split; [discriminate | congruence]).
  - rewrite String.eqb_eq. split; congruence.
  - tauto.
Qed.

Lemma opt_neqb_spec o1 o2 : negb (opt_eqb o1 o2) = true <-> o1 <> o2.
Proof.
  rewrite negb_true_iff, <- not_true_iff_false. now rewrite opt_eqb_spec.
Qed.

Lemma logged_spec self c' m' w :
  In w (logged self c' m') <->
  (coords self <> None \/ metric self <> None) /\
  ((w = coords_warning /\ Some c' <> coords self) \/
   (w = metric_warning /\ Some m' <> metric self)).
Proof.
  unfold logged.
  destruct (negb (opt_eqb (coords self) None) || negb (opt_eqb (metric self) None)) eqn:E.
  - apply orb_true_iff in E. rewrite !opt_neqb_spec in E.
    rewrite in_app_iff.
    destruct (negb (opt_eqb (Some c') (coords self))) eqn:E1;
      destruct (negb (opt_eqb (Some m') (metric self))) eqn:E2;
      try (apply opt_neqb_spec in E1); try (apply opt_neqb_spec in E2);
      try (apply negb_false_iff, opt_eqb_spec in E1);
      try (apply negb_false_iff, opt_eqb_spec in E2);
      simpl; intuition congruence.
  - apply orb_false_iff in E. destruct E as [E1 E2].
    apply negb_false_iff, opt_eqb_spec in E1, E2.
    simpl. intuition congruence.
Qed.

(** X8: the warnings of a successful [_set_metric] are "change in
    coordinate systems" exactly when the object already had coordinates or
    a metric and the coordinates differ from the stored ones, and "change in
    metric" likewise; so a first call logs nothing, and repeating a
    successful call succeeds again, leaves the object as it is and logs
    nothing. *)
Theorem set_metric_warnings cfg self metric_arg coords1 coords2 after warnings :
  set_metric cfg self metric_arg coords1 coords2 = Ok (after, warnings) ->
  (forall w, In w warnings <->
     (coords self <> None \/ metric self <> None) /\
     ((w = coords_warning /\ coords after <> coords self) \/
      (w = metric_warning /\ metric after <> metric self))) /\
  (coords self = None -> metric self = None -> warnings = []) /\
  set_metric cfg after metric_arg coords1 coords2 = Ok (after, []).
Proof.
  intros H. apply set_metric_spec in H.
  destruct H as (c' & m' & Hp & Hacc & -> & ->).
  split; [|split].
  - intros w. apply logged_spec.
  - intros Hc Hm. unfold logged. now rewrite Hc, Hm.
  - apply set_metric_spec. exists c', m'.
    split; [assumption|]. split; [exact Hacc|]. split; [reflexivity|].
    unfold logged, with_metric. cbn [coords metric].
    cbn [opt_eqb negb orb]. now rewrite !String.eqb_refl.
Qed.

End WithEnvironment.

(** An environment for examples: [parse_metric] keeps the metric and takes
    the coordinates of the first catalog. *)
Definition parse_same (m c1 : string) (c2 : option string) : result (string * string) :=
  Ok (c1, m).

Definition flat_attrs : attrs :=
  {| sep_units := "arcmin"; min_rpar := - 1; max_rpar := 1;
     xperiod := 0; yperiod := 0; zperiod := 0;
     coords := None; metric := None; _coords := None; _metric := None |}.

Definition no_config : config :=
  {| cfg_metric := None; cfg_sep_units := None; cfg_min_rpar := None;
     cfg_max_rpar := None; cfg_period := None; cfg_xperiod := None;
     cfg_yperiod := None; cfg_zperiod := None |}.

Lemma flat_attrs_set :
  _set_metric 1 parse_same (fun _ => 0%Z) (fun _ => 0%Z) no_config flat_attrs None "flat" None =
  Ok (with_metric (fun _ => 0%Z) (fun _ => 0%Z) flat_attrs "flat" "Euclidean", []).
Proof.
  apply set_metric_spec. exists "flat"%string, "Euclidean"%string.
  split; [reflexivity|]. split; [|split; reflexivity].
  unfold accepted. cbn [flat_attrs min_rpar max_rpar sep_units xperiod yperiod zperiod].
  split; [right; split; lra|].
  split; [right; left; discriminate|].
  split; [discriminate | intros _; auto].
Qed.

(** X7 on [flat_attrs]: the Euclidean metric on flat coordinates is
    accepted. *)
Lemma set_metric_succeeds_iff_witness :
  exists warnings,
    _set_metric 1 parse_same (fun _ => 0%Z) (fun _ => 0%Z) no_config flat_attrs None "flat" None =
    Ok (with_metric (fun _ => 0%Z) (fun _ => 0%Z) flat_attrs "flat" "Euclidean", warnings).
Proof.
  apply (proj2 (set_metric_succeeds_iff 1 parse_same (fun _ => 0%Z) (fun _ => 0%Z)
                  no_config flat_attrs None "flat" None
                  (with_metric (fun _ => 0%Z) (fun _ => 0%Z) flat_attrs "flat" "Euclidean"))).
  exists "flat"%string, "Euclidean"%string.
  split; [reflexivity|]. split; [|reflexivity].
  unfold accepted. cbn [flat_attrs min_rpar max_rpar sep_units xperiod yperiod zperiod].
  split; [right; split; lra|].
  split; [right; left; discriminate|].
  split; [discriminate | intros _; auto].
Defined.

(** X8 on [flat_attrs]: the call can be repeated. *)
Lemma set_metric_warnings_witness :
  _set_metric 1 parse_same (fun _ => 0%Z) (fun _ => 0%Z) no_config
    (with_metric (fun _ => 0%Z) (fun _ => 0%Z) flat_attrs "flat" "Euclidean") None "flat" None =
  Ok (with_metric (fun _ => 0%Z) (fun _ => 0%Z) flat_attrs "flat" "Euclidean", []).
Proof.
  exact (proj2 (proj2 (set_metric_warnings 1 parse_same (fun _ => 0%Z) (fun _ => 0%Z)
                         no_config flat_attrs None "flat" None _ _ flat_attrs_set))).
Defined.

(** X9: for the Euclidean metric with [b >= 0] and
    [0 <= _min_sep <= _max_sep], [_get_minmax_size] returns sizes with
    [0 <= min_size <= max_size], where [max_size = _max_sep * b] and
    [min_size] is the size [s = b*d/2] of a cell at the distance [d] with
    [d + 3s = _min_sep], as the comment in the code derives it; for any
    other metric it returns [(0, 0)]. *)
Theorem minmax_size_bounds (self : attrs) (r : Binning.BinnedCorr2) :
  0 <= Binning.b r -> 0 <= Binning._min_sep r <= Binning._max_sep r ->
  exists min_size max_size,
    _get_minmax_size self r = Ok (min_size, max_size) /\
    0 <= min_size <= max_size /\
    (metric self = Some "Euclidean"%string ->
       max_size = Binning._max_sep r * Binning.b r /\
       exists d, d + 3 * min_size = Binning._min_sep r /\
                 min_size = Binning.b r * d / 2) /\
    (metric self <> Some "Euclidean"%string -> min_size = 0 /\ max_size = 0).
Proof.
  intros Hb [Hmin Hle]. unfold _get_minmax_size.
  set (b := Binning.b r) in *. set (mn := Binning._min_sep r) in *.
  set (mx := Binning._max_sep r) in *.
  destruct (opt_eqb (metric self) (Some "Euclidean"%string)) eqn:E.
  - apply opt_eqb_spec in E.
    rewrite py_div_ok by lra. cbn [bind].
    assert (Hpos : 0 < 2 + 3 * b) by lra.
    assert (Hq : 0 <= mn * b / (2 + 3 * b)).
    { apply Rmult_le_pos; [nra | left; now apply Rinv_0_lt_compat]. }
    assert (Hq2 : mn * b / (2 + 3 * b) <= mn * b).
    { apply (Rmult_le_reg_r (2 + 3 * b)); [assumption|].
      replace (mn * b / (2 + 3 * b) * (2 + 3 * b)) with (mn * b) by (field; lra).
      nra. }
    eexists _, _. split; [reflexivity|]. split; [|split].
    + split; [assumption | nra].
    + intros _. split; [reflexivity|].
      exists (2 * mn / (2 + 3 * b)). split; field; lra.
    + intros Hne. contradiction.
  - exists 0, 0. split; [reflexivity|]. split; [lra|]. split.
    + intros Hm. apply opt_eqb_spec in Hm. congruence.
    + intros _. split; reflexivity.
Qed.

(** An object with [_min_sep = 1], [_max_sep = 10] and [b = 1/10]. *)
Definition ten_to_one : Binning.BinnedCorr2 :=
  {| Binning.bin_type_of := Binning.Log;
     Binning.nbins := 5;
     Binning.bin_size := ln 10 / 5;
     Binning.min_sep := 1;
     Binning.max_sep := 10;
     Binning.geom := Binning.GeomLog [] [] [] [];
     Binning._nbins := 5;
     Binning._log_sep_units := 0;
     Binning._min_sep := 1;
     Binning._max_sep := 10;
     Binning._bin_size := ln 10 / 5;
     Binning.bin_slop := 1 / 10 / (ln 10 / 5);
     Binning.b := 1 / 10;
     Binning.slop_warning := false |}.

(** X9 on [ten_to_one], for the Euclidean metric. *)
Lemma minmax_size_bounds_witness :
  exists min_size max_size,
    _get_minmax_size (with_metric (fun _ => 0%Z) (fun _ => 0%Z) flat_attrs "flat" "Euclidean")
                     ten_to_one = Ok (min_size, max_size) /\
    0 <= min_size <= max_size.
Proof.
  destruct (minmax_size_bounds
              (with_metric (fun _ => 0%Z) (fun _ => 0%Z) flat_attrs "flat" "Euclidean")
              ten_to_one) as (mn & mx & H & Hb & _).
  - simpl. lra.
  - simpl. lra.
  - exists mn, mx. split; assumption.
Defined.

End MetricFacts.

(** * More on the covariance estimators *)

Module CovMore.
Import Cov CovFacts.

(** ** Shape and symmetry *)

(** An [n] by [n] array. *)
Definition is_square (n : nat) (C : xmatrix) : Prop :=
  length C = n /\ Forall (fun row => length row = n) C.

Lemma is_square_scale f n m : is_square n m -> is_square n (scale f m).
Proof.
  intros [Hl Hr]. unfold scale. split; [now rewrite length_map|].
  apply Forall_forall. intros row Hin. apply in_map_iff in Hin.
  destruct Hin as [row' [<- Hin']]. rewrite length_map.
  rewrite Forall_forall in Hr. now apply Hr.
Qed.

Lemma is_square_table (f : nat -> nat -> npfloat) n : is_square n (table f n).
Proof.
  unfold table. split; [now rewrite length_map, length_seq|].
  apply Forall_forall. intros row Hin. apply in_map_iff in Hin.
  destruct Hin as [a [<- _]]. now rewrite length_map, length_seq.
Qed.

Lemma is_square_scatter f n v : is_square n (scatter f n v).
Proof. rewrite scatter_table. apply is_square_table. Qed.

Lemma is_square_wgram n w v : is_square n (wgram n w v).
Proof. unfold wgram. apply (is_square_table (fun a b => dot (xvmul w (col v a)) (col v b))). Qed.

Lemma finite_np_diag_table v :
  finite (np_diag v) =
  table (fun i j => Finite (if (i =? j)%nat then nth i v 0 else 0)) (length v).
Proof.
  unfold finite, np_diag, table. rewrite map_map. apply map_ext. intros i.
  now rewrite map_map.
Qed.

Lemma is_square_np_diag v : is_square (length v) (finite (np_diag v)).
Proof. rewrite finite_np_diag_table. apply is_square_table. Qed.

Lemma weighted_dot_comm w x y : dot (xvmul w x) y = dot (xvmul w y) x.
Proof.
  unfold dot, xvmul, zip_with, xsum. revert x y.
  induction w as [|c w IH]; intros [|a x] [|b y]; simpl; try reflexivity.
  rewrite IH. f_equal. destruct c, a, b; simpl; try reflexivity. f_equal. lra.
Qed.

Lemma wgram_scaled n f w v :
  scale f (wgram n w v) =
  table (fun a b => xmul f (dot (xvmul w (col v a)) (col v b))) n.
Proof. unfold wgram. apply (scale_table f). Qed.

Lemma scaled_wgram_symmetric n f w v a b :
  entry (scale f (wgram n w v)) a b = entry (scale f (wgram n w v)) b a.
Proof.
  rewrite wgram_scaled. apply table_symmetric.
  intros a' b'. f_equal. apply weighted_dot_comm.
Qed.

Lemma np_diag_symmetric v a b :
  entry (finite (np_diag v)) a b = entry (finite (np_diag v)) b a.
Proof.
  rewrite finite_np_diag_table. apply table_symmetric.
  intros i j. destruct (Nat.eqb_spec i j) as [->|Hne].
  - now rewrite Nat.eqb_refl.
  - destruct (Nat.eqb_spec j i); [congruence | reflexivity].
Qed.

Lemma shot_vectors_length corrs vlist :
  mapM shot_vector corrs = Ok vlist -> length (concat vlist) = total_len corrs.
Proof.
  revert vlist. induction corrs as [|c corrs IH]; intros vlist H.
  - simpl in H. injection H as <-. reflexivity.
  - cbn [mapM] in H. unfold shot_vector at 1 in H.
    destruct (Nat.eqb_spec (length (Cov._getWeight c)) (_getStatLen c)) as [Hlen|Hlen];
      cbn [guard bind] in H; [|discriminate].
    destruct (mapM shot_vector corrs) as [rest|]; [|discriminate].
    cbn [bind] in H. injection H as <-.
    cbn [concat]. rewrite length_app, length_map, Hlen, (IH rest eq_refl).
    reflexivity.
Qed.

(** X10: whatever the method, a covariance that [estimate_multi_cov]
    returns for a non-empty list of correlation objects is a square array
    whose side is the total length of the statistic vectors, and it is
    symmetric. *)
Theorem covariance_square_symmetric corrs method rng C :
  corrs <> [] ->
  estimate_multi_cov corrs method rng = Ok C ->
  is_square (total_len corrs) C /\ forall a b, entry C a b = entry C b a.
Proof.
  intros _ H. unfold estimate_multi_cov in H.
  destruct (String.eqb method "shot").
  { unfold _cov_shot in H.
    destruct (mapM shot_vector corrs) as [vlist|] eqn:E; [|discriminate].
    cbn [bind] in H.
    destruct (np_concatenate vlist) as [v|] eqn:Ev; [|discriminate].
    cbn [bind] in H. injection H as <-.
    assert (Hv : v = concat vlist)
      by (destruct vlist; [discriminate | now injection Ev as <-]).
    rewrite <- (shot_vectors_length _ _ E), <- Hv.
    split; [apply is_square_np_diag | apply np_diag_symmetric]. }
  destruct (String.eqb method "jackknife").
  { unfold _cov_jackknife in H.
    destruct (_get_patch_nums corrs) as [[[[np l1] l2] ap]|]; [|discriminate].
    cbn [bind] in H.
    destruct (stacked_design _ _ _ _ _) as [[vnum vdenom]|]; [|discriminate].
    cbn [bind] in H.
    destruct (py_div 1 (INR np)); [|discriminate].
    cbn [bind] in H. injection H as <-.
    split; [apply is_square_scatter | intros; apply scatter_symmetric]. }
  destruct (String.eqb method "bootstrap").
  { unfold _cov_bootstrap in H.
    destruct (bootstrap_resamples corrs rng) as [[nboot v]|]; [|discriminate].
    cbn [bind] in H. injection H as <-.
    split; [apply is_square_scatter | intros; apply scatter_symmetric]. }
  destruct (String.eqb method "bootstrap2").
  { unfold _cov_bootstrap2 in H.
    destruct (bootstrap2_resamples corrs rng) as [[nboot v]|]; [|discriminate].
    cbn [bind] in H. injection H as <-.
    split; [apply is_square_scatter | intros; apply scatter_symmetric]. }
  destruct (String.eqb method "sample"); [|discriminate].
  unfold _cov_sample in H.
  destruct (_get_patch_nums corrs) as [[[[np l1] l2] ap]|]; [|discriminate].
  cbn [bind] in H.
  destruct (stacked_design _ _ _ _ _) as [[vnum vdenom]|]; [|discriminate].
  cbn [bind] in H.
  destruct (py_div 1 (INR (np - 1))); [|discriminate].
  cbn [bind] in H. injection H as <-.
  split.
  - apply is_square_scale, is_square_wgram.
  - intros i j. apply scaled_wgram_symmetric.
Qed.

(** A stored result with a one-component statistic. *)
Definition one_bin (s w : R) : PatchResult := {| stat := [s]; weight := [w] |}.

(** Two patches, in auto mode: the pairs [(0,0)], [(0,1)] and [(1,1)]. *)
Definition auto_two : Corr :=
  {| results := [((0, 0), one_bin 1 2); ((0, 1), one_bin 3 4); ((1, 1), one_bin 5 6)]%nat;
     _getStatLen := 1; Cov._getWeight := [12]; _var_num := 1; num_bootstrap := 2 |}.

Lemma auto_two_bootstrap :
  exists C, estimate_multi_cov [auto_two] "bootstrap" (fun _ => [0; 1]%nat) = Ok C.
Proof. eexists. run_model. reflexivity. Defined.

(** X10 on [auto_two], for the bootstrap. *)
Lemma covariance_square_symmetric_witness :
  exists C, estimate_multi_cov [auto_two] "bootstrap" (fun _ => [0; 1]%nat) = Ok C /\
            is_square 1 C /\ forall a b, entry C a b = entry C b a.
Proof.
  destruct auto_two_bootstrap as [C HC]. exists C. split; [exact HC|].
  apply (covariance_square_symmetric [auto_two] "bootstrap" (fun _ => [0; 1]%nat) C);
    [discriminate | exact HC].
Defined.

(** ** The patch numbers *)

Lemma other_patch_nums_spec npatch cs l1 l2 ap :
  other_patch_nums npatch cs = Ok (l1, l2, ap) ->
  l1 = map axis1 cs /\ l2 = map axis2 cs /\ ap = map store_keys cs /\
  Forall (fun c => (axis1 c = 1 \/ axis1 c = npatch) /\
                   (axis2 c = 1 \/ axis2 c = npatch))%nat cs.
Proof.
  revert l1 l2 ap. induction cs as [|c cs IH]; intros l1 l2 ap H.
  - simpl in H. injection H as <- <- <-. repeat split; constructor.
  - cbn [other_patch_nums] in H.
    change (dict_keys (results c)) with (store_keys c) in H.
    change (count_distinct (map fst (store_keys c))) with (axis1 c) in H.
    change (count_distinct (map snd (store_keys c))) with (axis2 c) in H.
    destruct (one_or npatch (axis1 c) && one_or npatch (axis2 c)) eqn:E;
      cbn [guard bind] in H; [|discriminate].
    destruct (other_patch_nums npatch cs) as [[[a1 a2] a3]|]; [|discriminate].
    cbn [bind] in H. injection H as <- <- <-.
    destruct (IH _ _ _ eq_refl) as (-> & -> & -> & Hall).
    repeat split. constructor; [|exact Hall].
    apply andb_true_iff in E. destruct E as [E1 E2].
    unfold one_or in E1, E2. rewrite orb_true_iff, !Nat.eqb_eq in E1, E2. tauto.
Qed.

(** X11: when [_get_patch_nums] returns, [npatch] is at least 1 and is the
    larger of the two patch counts of the first correlation object;
    [npatch1], [npatch2] and [all_pairs] hold, for every correlation object
    in order, the number of distinct first patch numbers, of distinct second
    patch numbers, and the keys of its results; and each of these counts is
    either 1 or [npatch]. *)
Theorem patch_nums_one_or_npatch corrs npatch npatch1 npatch2 all_pairs :
  _get_patch_nums corrs = Ok (npatch, npatch1, npatch2, all_pairs) ->
  (1 <= npatch)%nat /\
  (exists c0 rest, corrs = c0 :: rest /\ npatch = Nat.max (axis1 c0) (axis2 c0)) /\
  npatch1 = map axis1 corrs /\ npatch2 = map axis2 corrs /\
  all_pairs = map store_keys corrs /\
  Forall (fun c => (axis1 c = 1 \/ axis1 c = npatch) /\
                   (axis2 c = 1 \/ axis2 c = npatch))%nat corrs.
Proof.
  destruct corrs as [|c0 rest]; [discriminate|].
  unfold _get_patch_nums.
  change (dict_keys (results c0)) with (store_keys c0).
  change (count_distinct (map fst (store_keys c0))) with (axis1 c0).
  change (count_distinct (map snd (store_keys c0))) with (axis2 c0).
  intros H.
  destruct (Nat.eqb_spec (length (store_keys c0)) 0) as [Hz|Hnz];
    cbn [negb guard bind] in H; [discriminate|].
  destruct (is_range (map fst (store_keys c0)) (axis1 c0)); cbn [guard bind] in H;
    [|discriminate].
  destruct (is_range (map snd (store_keys c0)) (axis2 c0)); cbn [guard bind] in H;
    [|discriminate].
  destruct (negb (negb (axis1 c0 =? axis2 c0)%nat && negb (axis1 c0 =? 1)%nat
                  && negb (axis2 c0 =? 1)%nat)) eqn:Eax;
    cbn [guard bind] in H; [|discriminate].
  destruct (other_patch_nums _ rest) as [[[a1 a2] a3]|] eqn:Eo; [|discriminate].
  cbn [bind] in H. injection H as <- <- <- <-.
  destruct (other_patch_nums_spec _ _ _ _ _ Eo) as (-> & -> & -> & Hall).
  assert (Hpos : (1 <= axis1 c0)%nat).
  { apply count_distinct_pos. intros Hnil. apply map_eq_nil in Hnil.
    now rewrite Hnil in Hnz. }
  assert (Hpos2 : (1 <= axis2 c0)%nat).
  { apply count_distinct_pos. intros Hnil. apply map_eq_nil in Hnil.
    now rewrite Hnil in Hnz. }
  split; [lia|]. split; [exists c0, rest; auto|].
  repeat split. constructor; [|exact Hall].
  apply negb_true_iff in Eax. revert Eax.
  destruct (Nat.eqb_spec (axis1 c0) (axis2 c0)) as [He|He];
    destruct (Nat.eqb_spec (axis1 c0) 1) as [H1|H1];
    destruct (Nat.eqb_spec (axis2 c0) 1) as [H2|H2];
    cbn [negb andb]; intros Eax; try discriminate; lia.
Qed.

(** X11 on [auto_two]. *)
Lemma patch_nums_one_or_npatch_witness :
  _get_patch_nums [auto_two] =
    Ok (2, [2], [2], [[(0, 0); (0, 1); (1, 1)]])%nat /\ (1 <= 2)%nat.
Proof.
  split; [reflexivity|].
  exact (proj1 (patch_nums_one_or_npatch [auto_two] 2 [2%nat] [2%nat]
                  [[(0, 0); (0, 1); (1, 1)]%nat] eq_refl)).
Defined.

(** ** The sample covariance of one correlation object *)

(** The pairs of sample [i] of [_cov_sample] and [_cov_bootstrap]: the
    stored pairs whose first patch is [i]; when one axis has a single
    patch, patch [i] of the other axis paired with that patch 0. *)
Definition sample_of (c : Corr) (i : nat) : list key :=
  if (axis2 c =? 1)%nat then [(i, 0%nat)]
  else if (axis1 c =? 1)%nat then [(0%nat, i)]
  else filter (fun jk => (fst jk =? i)%nat) (store_keys c).

(** The statistic of each sample, and the stats and the weights of each
    sample summed over the pairs. *)
Definition sample_v (c : Corr) : xmatrix :=
  map (fun i => ratio_row c (sample_of c i)) (seq 0 (npatch_of c)).

Definition sample_nums (c : Corr) : matrix :=
  map (fun i => sum_rows (_getStatLen c) (map (stat_of c) (sample_of c i)))
      (seq 0 (npatch_of c)).

Definition sample_denoms (c : Corr) : matrix :=
  map (fun i => sum_rows (_getStatLen c) (map (weight_of c) (sample_of c i)))
      (seq 0 (npatch_of c)).

(** The total weight of sample [i]. *)
Definition sample_weight (c : Corr) (i : nat) : R :=
  Rsum (map (fun a => weight_sum c (sample_of c i) a) (seq 0 (_getStatLen c))).

(** The estimate of component [a] from sample [i], the mean of these
    estimates, and the fraction of the weight of all the samples that
    sample [i] holds, as numpy computes them. *)
Definition sample_estimate (c : Corr) (i a : nat) : npfloat := ratio c (sample_of c i) a.

Definition sample_estimate_mean (c : Corr) (a : nat) : npfloat :=
  xdivr (xsum (map (fun i => sample_estimate c i a) (seq 0 (npatch_of c))))
        (INR (npatch_of c)).

Definition sample_fraction (c : Corr) (i : nat) : npfloat :=
  np_div (sample_weight c i) (Rsum (map (sample_weight c) (seq 0 (npatch_of c)))).

(** The same as real numbers, for nonzero summed weights. *)
Definition sample_ratio (c : Corr) (i a : nat) : R :=
  stat_sum c (sample_of c i) a / weight_sum c (sample_of c i) a.

Definition sample_ratio_mean (c : Corr) (a : nat) : R :=
  Rsum (map (fun i => sample_ratio c i a) (seq 0 (npatch_of c))) / INR (npatch_of c).

Definition sample_share (c : Corr) (i : nat) : R :=
  sample_weight c i / Rsum (map (sample_weight c) (seq 0 (npatch_of c))).

Lemma weighted_dot_map {A : Type} (W X Y : A -> npfloat) (l : list A) :
  dot (xvmul (map W l) (map X l)) (map Y l) =
  xsum (map (fun i => xmul (xmul (W i) (X i)) (Y i)) l).
Proof.
  unfold dot, xvmul, zip_with, xsum.
  induction l as [|x l IH]; simpl; [reflexivity | now rewrite IH].
Qed.

Lemma list_as_nth (l : vec) : l = map (fun a => nth a l 0) (seq 0 (length l)).
Proof.
  apply nth_ext with (d := 0) (d' := 0).
  - now rewrite length_map, length_seq.
  - intros a Ha. rewrite (nth_map_lt _ _ _ 0%nat) by now rewrite length_seq.
    now rewrite seq_nth.
Qed.

Section Sample.

Variable c : Corr.
Hypothesis Hps : patch_structure c.

Local Abbreviation keys := (store_keys c).
Local Abbreviation n1 := (axis1 c).
Local Abbreviation n2 := (axis2 c).
Local Abbreviation npatch := (npatch_of c).
Local Abbreviation n := (_getStatLen c).

Lemma sample_pairs_ok :
  sample_pairs n1 n2 keys = Ok (map (sample_of c) (seq 0 npatch)).
Proof.
  pose proof (axis1_pos c Hps) as Hpos1. pose proof (axis2_pos c Hps) as Hpos2.
  unfold sample_pairs, sample_of, npatch_of.
  destruct (Nat.eqb_spec n2 1) as [Hn2|Hn2]; [|destruct (Nat.eqb_spec n1 1) as [Hn1|Hn1]].
  - replace (Nat.max n1 n2) with n1 by lia. reflexivity.
  - replace (Nat.max n1 n2) with n2 by lia. reflexivity.
  - assert (Heq : n1 = n2) by (destruct (ps_axes c Hps) as [H | [H | H]]; congruence).
    rewrite <- Heq, Nat.eqb_refl, Nat.max_id. reflexivity.
Qed.

Lemma sample_of_stored i : (i < npatch)%nat -> incl (sample_of c i) keys.
Proof.
  pose proof (axis1_pos c Hps) as Hpos1. pose proof (axis2_pos c Hps) as Hpos2.
  unfold sample_of, npatch_of. intros Hi [j k] Hin.
  destruct (Nat.eqb_spec n2 1) as [Hn2|Hn2]; [|destruct (Nat.eqb_spec n1 1) as [Hn1|Hn1]].
  - destruct Hin as [[= <- <-] | []].
    pose proof (ps_range1 c Hps) as Hr. rewrite is_range_spec in Hr.
    assert (Hi' : In i (map fst keys)) by (apply Hr; lia).
    apply in_map_iff in Hi'. destruct Hi' as [[j' k'] [Hfst Hin]]. simpl in Hfst. subst j'.
    now rewrite <- (second_is_0 c Hps i k' Hn2 Hin).
  - destruct Hin as [[= <- <-] | []].
    pose proof (ps_range2 c Hps) as Hr. rewrite is_range_spec in Hr.
    assert (Hi' : In i (map snd keys)) by (apply Hr; lia).
    apply in_map_iff in Hi'. destruct Hi' as [[j' k'] [Hsnd Hin]]. simpl in Hsnd. subst k'.
    now rewrite <- (first_is_0 c Hps j' i Hn1 Hin).
  - apply filter_In in Hin. tauto.
Qed.

Lemma sample_samples_stored :
  Forall (fun pairs => incl pairs (dict_keys (results c)))
         (map (sample_of c) (seq 0 npatch)).
Proof.
  apply Forall_forall. intros p Hp. apply in_map_iff in Hp.
  destruct Hp as [i [<- Hi]]. apply in_seq in Hi. apply sample_of_stored. lia.
Qed.

(** [vnum] and [vdenom] of [_cov_sample] and [_cov_bootstrap]. *)
Lemma sample_design :
  stacked_design sample_pairs [c] [n1] [n2] [keys] = Ok (sample_nums c, sample_denoms c).
Proof.
  unfold stacked_design. cbn [zip4 mapM bind].
  rewrite sample_pairs_ok. cbn [bind].
  rewrite design_matrix_ok by apply sample_samples_stored.
  cbn [bind map fst snd]. rewrite !hstack_single. cbn [bind].
  rewrite (map_map (sample_of c) (fun pairs => sum_rows n (map (weight_of c) pairs))).
  rewrite (map_map (sample_of c) (fun pairs => sum_rows n (map (stat_of c) pairs))).
  reflexivity.
Qed.

Lemma sample_v_ratio : zip_with vdiv (sample_nums c) (sample_denoms c) = sample_v c.
Proof.
  exact (zip_with_map vdiv
           (fun i => sum_rows n (map (stat_of c) (sample_of c i)))
           (fun i => sum_rows n (map (weight_of c) (sample_of c i)))
           (seq 0 npatch)).
Qed.

Lemma cov_sample_closed_form :
  _cov_sample [c] =
  (f <- py_div 1 (INR (npatch - 1)) ;;
   Ok (scale (Finite f)
         (wgram n
            (map (fun x => np_div x (Rsum (map Rsum (sample_denoms c))))
                 (map Rsum (sample_denoms c)))
            (center (sample_v c) (col_mean n (sample_v c)))))).
Proof.
  unfold _cov_sample. rewrite (get_patch_nums_single c Hps). cbn [bind].
  rewrite sample_design. cbn [bind].
  replace (total_len [c]) with n by (unfold total_len; simpl; lia).
  now rewrite sample_v_ratio.
Qed.

Lemma sample_v_shape : Forall (fun r => length r = n) (sample_v c).
Proof.
  unfold sample_v. apply Forall_forall. intros r Hr.
  apply in_map_iff in Hr. destruct Hr as [i [<- Hi]]. apply in_seq in Hi.
  apply length_ratio_row; [apply (ps_shaped c Hps) | apply sample_of_stored; lia].
Qed.

Lemma sample_denoms_weight i :
  (i < npatch)%nat ->
  Rsum (sum_rows n (map (weight_of c) (sample_of c i))) = sample_weight c i.
Proof.
  intros Hi.
  assert (Hrows : Forall (fun r => length r = n) (map (weight_of c) (sample_of c i))).
  { apply Forall_forall. intros r Hr. apply in_map_iff in Hr.
    destruct Hr as [k [<- Hk]].
    apply (stat_of_length c k (ps_shaped c Hps)). now apply (sample_of_stored i). }
  rewrite (list_as_nth (sum_rows n _)) at 1.
  rewrite length_sum_rows by assumption.
  unfold sample_weight, weight_sum. apply Rsum_map_ext. intros a Ha. apply in_seq in Ha.
  rewrite sum_rows_nth by (try assumption; lia).
  now rewrite map_map.
Qed.

Lemma sample_entry f a b :
  (a < n)%nat -> (b < n)%nat ->
  entry (scale (Finite f)
           (wgram n
              (map (fun x => np_div x (Rsum (map Rsum (sample_denoms c))))
                   (map Rsum (sample_denoms c)))
              (center (sample_v c) (col_mean n (sample_v c))))) a b =
  xmul (Finite f)
       (xsum (map (fun i =>
                     xmul (xmul (sample_fraction c i)
                                (xsub (sample_estimate c i a) (sample_estimate_mean c a)))
                          (xsub (sample_estimate c i b) (sample_estimate_mean c b)))
                  (seq 0 npatch))).
Proof.
  intros Ha Hb. rewrite wgram_scaled, entry_table.
  replace ((a <? n)%nat && (b <? n)%nat) with true
    by (symmetry; apply andb_true_iff; split; now apply Nat.ltb_lt).
  f_equal.
  assert (Hw : map Rsum (sample_denoms c) = map (sample_weight c) (seq 0 npatch)).
  { unfold sample_denoms. rewrite map_map. apply map_ext_in.
    intros i Hi. apply in_seq in Hi. apply sample_denoms_weight. lia. }
  rewrite Hw, map_map.
  unfold col, center. rewrite !map_map.
  set (vm := col_mean n (sample_v c)).
  unfold sample_v. rewrite !map_map. subst vm.
  rewrite weighted_dot_map.
  apply xsum_map_ext. intros i Hi. apply in_seq in Hi.
  assert (Hlen : length (ratio_row c (sample_of c i)) = n).
  { apply length_ratio_row; [apply (ps_shaped c Hps) | apply sample_of_stored; lia]. }
  assert (Hnth : forall x, (x < n)%nat ->
            nth x (ratio_row c (sample_of c i)) (Finite 0) = sample_estimate c i x).
  { intros x Hx. apply ratio_row_nth;
      [apply (ps_shaped c Hps) | apply sample_of_stored; lia | assumption]. }
  assert (Hmean : forall x, (x < n)%nat ->
            sample_mean (sample_v c) x = sample_estimate_mean c x).
  { intros x Hx. unfold sample_mean, sample_estimate_mean, sample_v, col.
    rewrite length_map, length_seq, map_map. f_equal.
    apply xsum_map_ext. intros i' Hi'. apply in_seq in Hi'.
    apply ratio_row_nth;
      [apply (ps_shaped c Hps) | apply sample_of_stored; lia | assumption]. }
  rewrite !(center_nth n) by (try apply sample_v_shape; assumption).
  rewrite !Hnth, !Hmean by assumption.
  reflexivity.
Qed.

Lemma sample_entry_finite f a b :
  (forall i, (i < npatch)%nat -> weight_sum c (sample_of c i) a <> 0) ->
  (forall i, (i < npatch)%nat -> weight_sum c (sample_of c i) b <> 0) ->
  Rsum (map (sample_weight c) (seq 0 npatch)) <> 0 ->
  xmul (Finite f)
       (xsum (map (fun i =>
                     xmul (xmul (sample_fraction c i)
                                (xsub (sample_estimate c i a) (sample_estimate_mean c a)))
                          (xsub (sample_estimate c i b) (sample_estimate_mean c b)))
                  (seq 0 npatch))) =
  Finite (f * Rsum (map (fun i => sample_share c i *
                                  (sample_ratio c i a - sample_ratio_mean c a) *
                                  (sample_ratio c i b - sample_ratio_mean c b))
                        (seq 0 npatch))).
Proof.
  intros Hwa Hwb Htot.
  assert (Hnp : INR npatch <> 0)
    by (apply not_0_INR; pose proof (npatch_pos c Hps); lia).
  assert (Hest : forall x, (forall i, (i < npatch)%nat -> weight_sum c (sample_of c i) x <> 0) ->
            (forall i, In i (seq 0 npatch) ->
               sample_estimate c i x = Finite (sample_ratio c i x)) /\
            sample_estimate_mean c x = Finite (sample_ratio_mean c x)).
  { intros x Hx.
    assert (H1 : forall i, In i (seq 0 npatch) ->
              sample_estimate c i x = Finite (sample_ratio c i x)).
    { intros i Hi. apply in_seq in Hi. apply ratio_finite. apply Hx. lia. }
    split; [exact H1|].
    unfold sample_estimate_mean.
    rewrite (map_ext_in _ (fun i => Finite (sample_ratio c i x)) _ H1), xsum_finite.
    cbn [xdivr]. now rewrite np_div_finite. }
  destruct (Hest a Hwa) as [Ha Hma], (Hest b Hwb) as [Hb Hmb].
  rewrite Hma, Hmb.
  rewrite (xsum_map_ext _
             (fun i => Finite (sample_share c i *
                               (sample_ratio c i a - sample_ratio_mean c a) *
                               (sample_ratio c i b - sample_ratio_mean c b)))).
  - now rewrite xsum_finite.
  - intros i Hi. rewrite (Ha i Hi), (Hb i Hi).
    unfold sample_fraction. rewrite np_div_finite by assumption. reflexivity.
Qed.

End Sample.

(** X12: on a store with a valid patch structure, the 'sample' method
    raises ZeroDivisionError when there is a single patch, and otherwise
    returns [C = 1/(npatch-1) * Sum_i w_i (v_i - vmean)(v_i - vmean)^T] in
    numpy's arithmetic, where [v_i] is the sum of the stats over the stored
    pairs whose first patch is [i] divided by the sum of their weights,
    [vmean] is the plain mean of the [v_i], and [w_i] is the fraction of
    the total weight that these pairs hold.  When no sample has a zero
    summed weight in the components [a] and [b] and the total weight is not
    zero, the entry [(a,b)] is the finite number that the formula gives on
    the reals. *)
Theorem sample_covariance (c : Corr) (rng : random_source) :
  patch_structure c ->
  (npatch_of c = 1%nat -> estimate_cov c "sample" rng = Raise ZeroDivisionError) /\
  (npatch_of c <> 1%nat ->
   exists C, estimate_cov c "sample" rng = Ok C /\
     (forall a b, (a < _getStatLen c)%nat -> (b < _getStatLen c)%nat ->
        entry C a b =
        xmul (Finite (1 / INR (npatch_of c - 1)))
             (xsum (map (fun i =>
                           xmul (xmul (sample_fraction c i)
                                      (xsub (sample_estimate c i a)
                                            (sample_estimate_mean c a)))
                                (xsub (sample_estimate c i b) (sample_estimate_mean c b)))
                        (seq 0 (npatch_of c))))) /\
     (forall a b, (a < _getStatLen c)%nat -> (b < _getStatLen c)%nat ->
        (forall i, (i < npatch_of c)%nat -> weight_sum c (sample_of c i) a <> 0) ->
        (forall i, (i < npatch_of c)%nat -> weight_sum c (sample_of c i) b <> 0) ->
        Rsum (map (sample_weight c) (seq 0 (npatch_of c))) <> 0 ->
        entry C a b =
        Finite (1 / INR (npatch_of c - 1) *
                Rsum (map (fun i => sample_share c i *
                                    (sample_ratio c i a - sample_ratio_mean c a) *
                                    (sample_ratio c i b - sample_ratio_mean c b))
                          (seq 0 (npatch_of c)))))).
Proof.
  intros Hps.
  change (estimate_cov c "sample" rng) with (_cov_sample [c]).
  rewrite (cov_sample_closed_form c Hps).
  split.
  - intros H1. rewrite H1. cbn [Nat.sub INR]. now rewrite py_div_zero.
  - intros Hne.
    rewrite py_div_ok
      by (apply not_0_INR; pose proof (npatch_pos c Hps); lia).
    cbn [bind]. eexists. split; [reflexivity|]. split.
    + intros a b Ha Hb. now apply sample_entry.
    + intros a b Ha Hb Hwa Hwb Htot.
      rewrite sample_entry by assumption.
      now apply sample_entry_finite.
Qed.

Lemma auto_two_structure : patch_structure auto_two.
Proof.
  split.
  - repeat constructor; simpl; intuition discriminate.
  - discriminate.
  - reflexivity.
  - reflexivity.
  - left. reflexivity.
  - repeat constructor.
Defined.

(** X12 on [auto_two]: two patches whose samples have the summed weights
    6 and 6, so the variance is returned and is finite. *)
Lemma sample_covariance_witness :
  exists C x, estimate_cov auto_two "sample" (fun _ => []) = Ok C /\
              entry C 0 0 = Finite x.
Proof.
  destruct (proj2 (sample_covariance auto_two (fun _ => []) auto_two_structure))
    as (C & HC & _ & Hfin).
  - discriminate.
  - exists C. eexists. split; [exact HC|].
    assert (Hw : forall i, (i < npatch_of auto_two)%nat ->
                   weight_sum auto_two (sample_of auto_two i) 0 <> 0).
    { intros i Hi. change (npatch_of auto_two) with 2%nat in Hi.
      destruct i as [|[|i]]; [| |lia]; cbv - [Rplus]; lra. }
    apply (Hfin 0%nat 0%nat); [simpl; lia | simpl; lia | exact Hw | exact Hw |].
    cbv - [Rplus]. lra.
Defined.

(** ** The design matrix *)

Lemma find_app {A : Type} (f : A -> bool) (l l' : list A) :
  find f (l ++ l') = match find f l with Some x => Some x | None => find f l' end.
Proof.
  induction l as [|x l IH]; simpl; [reflexivity|]. now destruct (f x).
Qed.

(** The first pair of [pairs] that the store does not hold. *)
Definition first_missing (c : Corr) (pairs : list key) : option key :=
  find (fun k => negb (key_in k (store_keys c))) pairs.

Lemma lookup_outcome c k :
  lookup c k =
  if key_in k (store_keys c)
  then Ok {| stat := stat_of c k; weight := weight_of c k |}
  else Raise (KeyError k).
Proof.
  unfold lookup, stat_of, weight_of.
  destruct (key_in k (store_keys c)) eqn:E.
  - apply key_in_spec in E. destruct (dict_get_some _ _ E) as [[st wt] ->]. reflexivity.
  - assert (Hn : ~ In k (store_keys c)) by (rewrite <- key_in_spec; congruence).
    now rewrite (dict_get_none _ _ Hn).
Qed.

Lemma design_row_outcome c pairs :
  design_row c pairs =
  match first_missing c pairs with
  | Some k => Raise (KeyError k)
  | None => Ok (sum_rows (_getStatLen c) (map (stat_of c) pairs),
                sum_rows (_getStatLen c) (map (weight_of c) pairs))
  end.
Proof.
  unfold design_row, first_missing.
  assert (H : mapM (lookup c) pairs =
              match find (fun k => negb (key_in k (store_keys c))) pairs with
              | Some k => Raise (KeyError k)
              | None => Ok (map (fun k => {| stat := stat_of c k; weight := weight_of c k |})
                                pairs)
              end).
  { induction pairs as [|k pairs IH]; [reflexivity|].
    cbn [mapM find map]. rewrite lookup_outcome.
    destruct (key_in k (store_keys c)); cbn [negb bind]; [|reflexivity].
    rewrite IH. now destruct (find _ pairs). }
  rewrite H. destruct (find _ pairs); [reflexivity|].
  cbn [bind]. now rewrite !map_map.
Qed.

(** X13: [_make_cov_design_matrix] raises [KeyError] for the first pair,
    in the order of the rows, that is not a key of the results, and raises
    nothing else; when every pair is stored, row [i] of [vnum] is the sum
    of the stats of the pairs of sample [i] and row [i] of [vdenom] the sum
    of their weights (a row of zeros for a sample without pairs). *)
Theorem design_matrix_outcome c all_pairs :
  _make_cov_design_matrix c all_pairs =
  match first_missing c (concat all_pairs) with
  | Some k => Raise (KeyError k)
  | None =>
      Ok (map (fun pairs => sum_rows (_getStatLen c) (map (stat_of c) pairs)) all_pairs,
          map (fun pairs => sum_rows (_getStatLen c) (map (weight_of c) pairs)) all_pairs)
  end.
Proof.
  unfold _make_cov_design_matrix.
  assert (H : mapM (design_row c) all_pairs =
              match first_missing c (concat all_pairs) with
              | Some k => Raise (KeyError k)
              | None =>
                  Ok (map (fun pairs =>
                             (sum_rows (_getStatLen c) (map (stat_of c) pairs),
                              sum_rows (_getStatLen c) (map (weight_of c) pairs)))
                          all_pairs)
              end).
  { induction all_pairs as [|pairs rest IH]; [reflexivity|].
    cbn [mapM concat map]. unfold first_missing in *. rewrite find_app.
    rewrite design_row_outcome. unfold first_missing.
    destruct (find _ pairs); [reflexivity|].
    cbn [bind]. rewrite IH. now destruct (find _ (concat rest)). }
  rewrite H. destruct (first_missing c (concat all_pairs)); [reflexivity|].
  cbn [bind]. now rewrite !map_map.
Qed.

(** ** The bootstrap covariance of one correlation object *)

Lemma vadd_zeros_l n v : length v = n -> vadd (zeros n) v = v.
Proof.
  intros <-. unfold vadd, zeros. rewrite zip_with_repeat.
  rewrite <- (map_id v) at 2. apply map_ext. intros x. lra.
Qed.

Lemma sum_rows_app n r1 r2 :
  Forall (fun r => length r = n) r2 ->
  sum_rows n (r1 ++ r2) = vadd (sum_rows n r1) (sum_rows n r2).
Proof.
  intros H2. induction r1 as [|r r1 IH]; simpl.
  - change (fold_right vadd (zeros n) r2) with (sum_rows n r2).
    symmetry. apply vadd_zeros_l. now apply length_sum_rows.
  - change (fold_right vadd (zeros n) (r1 ++ r2)) with (sum_rows n (r1 ++ r2)).
    change (fold_right vadd (zeros n) r1) with (sum_rows n r1).
    rewrite IH. apply vadd_assoc.
Qed.

Lemma sum_rows_flat_map {A B : Type} n (F : B -> vec) (S : A -> list B) (indx : list A) :
  (forall i k, In i indx -> In k (S i) -> length (F k) = n) ->
  sum_rows n (map (fun i => sum_rows n (map F (S i))) indx) =
  sum_rows n (map F (flat_map S indx)).
Proof.
  intros Hlen. induction indx as [|i indx IH]; [reflexivity|].
  cbn [map flat_map]. rewrite map_app, sum_rows_app.
  - rewrite <- IH by (intros i' k Hi' Hk; apply (Hlen i' k); [now right | assumption]).
    reflexivity.
  - apply Forall_forall. intros r Hr. apply in_map_iff in Hr.
    destruct Hr as [k [<- Hk]]. apply in_flat_map in Hk. destruct Hk as [i' [Hi' Hk]].
    apply (Hlen i' k); [now right | assumption].
Qed.

Lemma take_rows_map (N : nat -> vec) m indx :
  Forall (fun i => (i < m)%nat) indx ->
  take_rows (map N (seq 0 m)) indx = Ok (map N indx).
Proof.
  intros H. unfold take_rows. apply mapM_ok.
  eapply Forall_impl; [|exact H]. intros i Hi. cbv beta.
  rewrite (nth_error_nth' _ []) by now rewrite length_map, length_seq.
  rewrite (nth_map_lt _ _ _ 0%nat) by now rewrite length_seq.
  now rewrite seq_nth.
Qed.

Section Bootstrap.

Variable c : Corr.
Variable rng : random_source.

Local Abbreviation keys := (store_keys c).
Local Abbreviation npatch := (npatch_of c).
Local Abbreviation n := (_getStatLen c).
Local Abbreviation nboot := (Z.to_nat (num_bootstrap c)).

Hypothesis Hps : patch_structure c.
Hypothesis Hnb : (0 <= num_bootstrap c)%Z.
(** Every draw holds patch numbers, as [randint(npatch, ...)] gives. *)
Hypothesis Hdrawn : forall k i, (k < nboot)%nat -> In i (rng k) -> (i < npatch)%nat.

(** The pairs of resampling [k]: those of the samples of the drawn
    patches, a patch drawn several times counting as often. *)
Definition bootstrap_pairs (k : nat) : list key := flat_map (sample_of c) (rng k).

Definition bootstrap_v : xmatrix :=
  map (fun k => ratio_row c (bootstrap_pairs k)) (seq 0 nboot).

Lemma bootstrap_pairs_stored k : (k < nboot)%nat -> incl (bootstrap_pairs k) keys.
Proof.
  intros Hk jk Hin. apply in_flat_map in Hin. destruct Hin as [i [Hi Hin]].
  apply (sample_of_stored c Hps i); [now apply (Hdrawn k) | assumption].
Qed.

Lemma bootstrap_row k :
  (k < nboot)%nat ->
  (rn <- take_rows (sample_nums c) (rng k) ;;
   rd <- take_rows (sample_denoms c) (rng k) ;;
   Ok (vdiv (sum_rows n rn) (sum_rows n rd))) = Ok (ratio_row c (bootstrap_pairs k)).
Proof.
  intros Hk.
  assert (Hi : Forall (fun i => (i < npatch)%nat) (rng k))
    by (apply Forall_forall; intros i; apply (Hdrawn k i Hk)).
  unfold sample_nums, sample_denoms.
  rewrite !take_rows_map by assumption. cbn [bind].
  unfold ratio_row, bootstrap_pairs.
  rewrite !sum_rows_flat_map; [reflexivity | |];
    intros i j Hin Hj;
    apply (stat_of_length c j (ps_shaped c Hps));
    apply (sample_of_stored c Hps i); try assumption; now apply (Hdrawn k).
Qed.

Lemma bootstrap_resamples_closed_form :
  bootstrap_resamples [c] rng = Ok (num_bootstrap c, bootstrap_v).
Proof.
  unfold bootstrap_resamples. rewrite (get_patch_nums_single c Hps). cbn [bind].
  rewrite (sample_design c Hps). cbn [bind map np_max fold_left].
  replace (0 <=? num_bootstrap c)%Z with true by (symmetry; now apply Z.leb_le).
  cbn [guard bind].
  replace (total_len [c]) with n by (unfold total_len; simpl; lia).
  rewrite (mapM_ok _ (fun k => ratio_row c (bootstrap_pairs k))).
  - reflexivity.
  - apply Forall_forall. intros k Hk. apply in_seq in Hk. apply bootstrap_row. lia.
Qed.

Lemma bootstrap_v_shape : Forall (fun r => length r = n) bootstrap_v.
Proof.
  unfold bootstrap_v. apply Forall_forall. intros r Hr.
  apply in_map_iff in Hr. destruct Hr as [k [<- Hk]]. apply in_seq in Hk.
  apply length_ratio_row; [apply (ps_shaped c Hps)|].
  apply bootstrap_pairs_stored. lia.
Qed.

(** The statistic of resampling [k], component [a], and its mean over the
    resamplings, as numpy computes them. *)
Definition bootstrap_estimate (k a : nat) : npfloat := ratio c (bootstrap_pairs k) a.

Definition bootstrap_mean (a : nat) : npfloat :=
  xdivr (xsum (map (fun k => bootstrap_estimate k a) (seq 0 nboot))) (INR nboot).

(** The same as real numbers, for resamplings with a nonzero summed
    weight. *)
Definition bootstrap_ratio (k a : nat) : R :=
  stat_sum c (bootstrap_pairs k) a / weight_sum c (bootstrap_pairs k) a.

Definition bootstrap_ratio_mean (a : nat) : R :=
  Rsum (map (fun k => bootstrap_ratio k a) (seq 0 nboot)) / INR nboot.

Lemma bootstrap_entry a b :
  (a < n)%nat -> (b < n)%nat ->
  entry (scatter (np_div 1 (IZR (num_bootstrap c) - 1)) n bootstrap_v) a b =
  xmul (np_div 1 (IZR (num_bootstrap c) - 1))
       (xsum (map (fun k => xmul (xsub (bootstrap_estimate k a) (bootstrap_mean a))
                                 (xsub (bootstrap_estimate k b) (bootstrap_mean b)))
                  (seq 0 nboot))).
Proof.
  intros Ha Hb.
  rewrite entry_scatter by (try apply bootstrap_v_shape; assumption).
  f_equal.
  assert (Hnth : forall k x, In k (seq 0 nboot) -> (x < n)%nat ->
            nth x (ratio_row c (bootstrap_pairs k)) (Finite 0) = bootstrap_estimate k x).
  { intros k x Hk Hx. apply ratio_row_nth;
      [apply (ps_shaped c Hps) | | assumption].
    apply bootstrap_pairs_stored. apply in_seq in Hk. lia. }
  assert (Hmean : forall x, (x < n)%nat ->
                    sample_mean bootstrap_v x = bootstrap_mean x).
  { intros x Hx. unfold sample_mean, bootstrap_mean, bootstrap_v, col.
    rewrite length_map, length_seq, map_map. f_equal.
    apply xsum_map_ext. intros k Hk. now apply Hnth. }
  unfold bootstrap_v at 3. rewrite map_map.
  apply xsum_map_ext. intros k Hk.
  now rewrite !Hnth, !Hmean.
Qed.

Lemma bootstrap_entry_finite a b :
  (2 <= num_bootstrap c)%Z ->
  (forall k, (k < nboot)%nat -> weight_sum c (bootstrap_pairs k) a <> 0) ->
  (forall k, (k < nboot)%nat -> weight_sum c (bootstrap_pairs k) b <> 0) ->
  xmul (np_div 1 (IZR (num_bootstrap c) - 1))
       (xsum (map (fun k => xmul (xsub (bootstrap_estimate k a) (bootstrap_mean a))
                                 (xsub (bootstrap_estimate k b) (bootstrap_mean b)))
                  (seq 0 nboot))) =
  Finite (1 / (IZR (num_bootstrap c) - 1) *
          Rsum (map (fun k => (bootstrap_ratio k a - bootstrap_ratio_mean a) *
                              (bootstrap_ratio k b - bootstrap_ratio_mean b))
                    (seq 0 nboot))).
Proof.
  intros H2 Hwa Hwb. unfold bootstrap_mean.
  rewrite (deviations_finite (seq 0 nboot) _ _
             (fun k => bootstrap_ratio k a) (fun k => bootstrap_ratio k b)).
  - rewrite np_div_finite; [reflexivity|].
    apply IZR_le in H2. lra.
  - apply not_0_INR. lia.
  - intros k Hk. apply in_seq in Hk. apply ratio_finite. apply Hwa. lia.
  - intros k Hk. apply in_seq in Hk. apply ratio_finite. apply Hwb. lia.
Qed.

End Bootstrap.

(** X14: on a store with a valid patch structure, with a number of
    resamplings that is not negative and draws that hold patch numbers
    below [npatch], the 'bootstrap' method returns
    [C = 1/(nboot-1) * Sum_k (v_k - vmean)(v_k - vmean)^T] in numpy's
    arithmetic, where [v_k] is the summed stat divided by the summed weight
    over the pairs of all the patches of draw [k] (the stored pairs whose
    first patch was drawn, as often as it was drawn) and [vmean] is the mean
    of the [v_k].  With at least two resamplings, none of which has a zero
    summed weight in the components [a] and [b], the entry [(a,b)] is the
    finite number that the formula gives on the reals; with a single
    resampling the factor is infinite and no entry is finite. *)
Theorem bootstrap_covariance (c : Corr) (rng : random_source) :
  patch_structure c ->
  (0 <= num_bootstrap c)%Z ->
  (forall k i, (k < Z.to_nat (num_bootstrap c))%nat -> In i (rng k) ->
               (i < npatch_of c)%nat) ->
  exists C, estimate_cov c "bootstrap" rng = Ok C /\
    (forall a b, (a < _getStatLen c)%nat -> (b < _getStatLen c)%nat ->
       entry C a b =
       xmul (np_div 1 (IZR (num_bootstrap c) - 1))
            (xsum (map (fun k =>
                          xmul (xsub (bootstrap_estimate c rng k a) (bootstrap_mean c rng a))
                               (xsub (bootstrap_estimate c rng k b) (bootstrap_mean c rng b)))
                       (seq 0 (Z.to_nat (num_bootstrap c)))))) /\
    (forall a b, (a < _getStatLen c)%nat -> (b < _getStatLen c)%nat ->
       (2 <= num_bootstrap c)%Z ->
       (forall k, (k < Z.to_nat (num_bootstrap c))%nat ->
                  weight_sum c (bootstrap_pairs c rng k) a <> 0) ->
       (forall k, (k < Z.to_nat (num_bootstrap c))%nat ->
                  weight_sum c (bootstrap_pairs c rng k) b <> 0) ->
       entry C a b =
       Finite (1 / (IZR (num_bootstrap c) - 1) *
               Rsum (map (fun k =>
                            (bootstrap_ratio c rng k a - bootstrap_ratio_mean c rng a) *
                            (bootstrap_ratio c rng k b - bootstrap_ratio_mean c rng b))
                         (seq 0 (Z.to_nat (num_bootstrap c)))))) /\
    (forall a b, (a < _getStatLen c)%nat -> (b < _getStatLen c)%nat ->
       num_bootstrap c = 1%Z -> entry C a b = NonFinite).
Proof.
  intros Hps Hnb Hdrawn.
  change (estimate_cov c "bootstrap" rng) with (_cov_bootstrap [c] rng).
  unfold _cov_bootstrap.
  rewrite (bootstrap_resamples_closed_form c rng Hps Hnb Hdrawn). cbn [bind].
  replace (total_len [c]) with (_getStatLen c) by (unfold total_len; simpl; lia).
  eexists. split; [reflexivity|]. split; [|split].
  - intros a b Ha Hb. now apply bootstrap_entry.
  - intros a b Ha Hb H2 Hwa Hwb.
    rewrite (bootstrap_entry c rng Hps Hdrawn) by assumption.
    now apply bootstrap_entry_finite.
  - intros a b Ha Hb H1.
    rewrite (bootstrap_entry c rng Hps Hdrawn) by assumption.
    rewrite H1. replace (1 - 1) with 0 by lra. now rewrite np_div_zero.
Qed.

(** X14 on [auto_two], drawing patch 0 and patch 1, then patch 1 twice:
    the summed weights are 12 and 12, so the variance is finite. *)
Lemma bootstrap_covariance_witness :
  exists C x, estimate_cov auto_two "bootstrap"
                (fun k => match k with O => [0; 1] | _ => [1; 1] end)%nat = Ok C /\
              entry C 0 0 = Finite x.
Proof.
  destruct (bootstrap_covariance auto_two
              (fun k => match k with O => [0; 1] | _ => [1; 1] end)%nat
              auto_two_structure) as (C & HC & _ & Hfin & _).
  - simpl. lia.
  - intros k i _ Hin. change (npatch_of auto_two) with 2%nat.
    destruct k as [|k]; simpl in Hin; intuition lia.
  - exists C. eexists. split; [exact HC|].
    assert (Hw : forall k, (k < Z.to_nat (num_bootstrap auto_two))%nat ->
                   weight_sum auto_two
                     (bootstrap_pairs auto_two
                        (fun k => match k with O => [0; 1] | _ => [1; 1] end)%nat k) 0 <> 0).
    { intros k Hk. change (Z.to_nat (num_bootstrap auto_two)) with 2%nat in Hk.
      destruct k as [|[|k]]; [| |lia]; cbv - [Rplus]; lra. }
    apply (Hfin 0%nat 0%nat); [simpl; lia | simpl; lia | simpl; lia | exact Hw | exact Hw].
Defined.

End CovMore.

(** * More on the patched accumulation *)

Module AccumMore.
Import Accum AccumFacts.

Lemma dict_keys_set {V : Type} (d : dict V) k v k' :
  In k' (dict_keys (dict_set d k v)) <-> k' = k \/ In k' (dict_keys d).
Proof.
  unfold dict_keys. induction d as [|[k0 v0] d IH]; simpl.
  - intuition congruence.
  - destruct (key_eqb k k0) eqn:E; simpl.
    + apply CovFacts.key_eqb_eq in E. subst k0. intuition congruence.
    + rewrite IH. intuition congruence.
Qed.

(** A list holds exactly the numbers below [n]: it has [n] distinct
    values. *)
Lemma count_distinct_range l n :
  (forall x, In x l <-> (x < n)%nat) -> Cov.count_distinct l = n.
Proof.
  intros H. unfold Cov.count_distinct.
  transitivity (length (seq 0 n)); [|apply length_seq]. apply Permutation_length.
  apply NoDup_Permutation; [apply NoDup_nodup | apply seq_NoDup |].
  intros x. rewrite nodup_In, in_seq, H. lia.
Qed.

Section Loops.

Context {T Cat : Type} `{Correlation T Cat}.

(** [k in self.results] *)
Definition stored (st : @state T) (k : key) : Prop := In k (dict_keys (results st)).

Lemma store_events_keys (evs : list (key * T)) (d : dict T) k :
  In k (dict_keys (fold_left store_event evs d)) <->
  In k (dict_keys d) \/ exists r, In (k, r) evs /\ recorded k r = true.
Proof.
  revert d. induction evs as [|[k0 r0] evs IH]; intros d; cbn [fold_left].
  - split; [auto | intros [Hd | [r [[] _]]]; exact Hd].
  - rewrite IH. unfold store_event. cbn [fst snd].
    destruct (recorded k0 r0) eqn:E.
    + rewrite dict_keys_set. split.
      * intros [[-> | Hd] | [r [Hin Hr]]].
        -- right. exists r0. split; [now left | assumption].
        -- now left.
        -- right. exists r. split; [now right | assumption].
      * intros [Hd | [r [[[= <- <-] | Hin] Hr]]].
        -- left. now right.
        -- left. now left.
        -- right. exists r. split; assumption.
    + split.
      * intros [Hd | [r [Hin Hr]]]; [now left|].
        right. exists r. split; [now right | assumption].
      * intros [Hd | [r [[[= <- <-] | Hin] Hr]]]; [now left | congruence |].
        right. exists r. split; assumption.
Qed.

(** What a run of evaluations does to the keys of the store. *)
Lemma run_jobs_keys jobs st temp :
  let st' := fst (fold_left step jobs (st, temp)) in
  (forall k, stored st k -> stored st' k) /\
  (forall i, In (i, i) (map job_key jobs) -> stored st' (i, i)) /\
  (forall k, stored st' k -> stored st k \/ In k (map job_key jobs)).
Proof.
  cbv zeta. unfold stored.
  destruct (run_jobs_spec jobs st temp) as [_ Hres]. rewrite Hres.
  split; [|split].
  - intros k Hk. apply store_events_keys. now left.
  - intros i Hi. apply store_events_keys. right.
    rewrite <- (events_keys jobs temp) in Hi.
    apply in_map_iff in Hi. destruct Hi as [[k r] [Hk Hin]]. simpl in Hk. subst k.
    exists r. split; [assumption|].
    unfold recorded. cbn [fst snd]. now rewrite Nat.eqb_refl.
  - intros k Hk. apply store_events_keys in Hk.
    destruct Hk as [Hk | [r [Hin _]]]; [now left|].
    right. rewrite <- (events_keys jobs temp).
    change k with (fst (k, r)). now apply in_map.
Qed.

Lemma auto_store_keys st cat1 :
  length cat1 <> 1%nat ->
  let st' := _process_all_auto st cat1 in
  (forall k, stored st k -> stored st' k) /\
  (forall i, In i (patch_ids cat1) -> stored st' (i, i)) /\
  (forall i j, stored st' (i, j) ->
     stored st (i, j) \/
     (In i (patch_ids cat1) /\ In j (patch_ids cat1) /\ (i <= j)%nat)).
Proof.
  intros Hlen. cbv zeta.
  rewrite process_all_auto_jobs by assumption.
  destruct (run_jobs_keys (auto_jobs cat1) st (total st)) as (Hkeep & Hdiag & Hnew).
  rewrite auto_jobs_keys in Hdiag, Hnew.
  split; [exact Hkeep|]. split.
  - intros i Hi. apply Hdiag. apply auto_keys_spec. auto.
  - intros i j Hij. destruct (Hnew _ Hij) as [Hold | Hin]; [now left|].
    right. now apply auto_keys_spec.
Qed.

(** X15: the patch loops only add keys to [self.results].  With several
    catalogs (or none), [_process_all_auto] keeps every key that was
    there, stores [(i,i)] for every patch number [i], whatever its pair
    counts, and any other key it adds is a pair [(i,j)], [i < j], of patch
    numbers; [_process_all_cross] keeps every key, stores [(i,i)] for
    every patch number common to both lists, and adds only pairs [(i,j)]
    with [i] from the first list and [j] from the second.  With a single
    catalog on each side, both leave [self.results] as it was. *)
Theorem patch_loops_store_keys :
  (forall st cat1,
     length cat1 <> 1%nat ->
     let st' := _process_all_auto st cat1 in
     (forall k, stored st k -> stored st' k) /\
     (forall i, In i (patch_ids cat1) -> stored st' (i, i)) /\
     (forall i j, stored st' (i, j) ->
        stored st (i, j) \/
        (In i (patch_ids cat1) /\ In j (patch_ids cat1) /\ (i <= j)%nat))) /\
  (forall st cat1 cat2,
     ~ (length cat1 = 1%nat /\ length cat2 = 1%nat) ->
     exists st', _process_all_cross false st cat1 cat2 = Ok st' /\
     (forall k, stored st k -> stored st' k) /\
     (forall i, In i (patch_ids cat1) -> In i (patch_ids cat2) -> stored st' (i, i)) /\
     (forall i j, stored st' (i, j) ->
        stored st (i, j) \/ (In i (patch_ids cat1) /\ In j (patch_ids cat2)))) /\
  (forall st c, results (_process_all_auto st [c]) = results st) /\
  (forall st c1 c2,
     exists st', _process_all_cross false st [c1] [c2] = Ok st' /\
                 results st' = results st).
Proof.
  split; [|split; [|split]].
  - intros st cat1 Hlen. now apply auto_store_keys.
  - intros st cat1 cat2 Hlen.
    eexists. split; [now apply process_all_cross_jobs|].
    destruct (run_jobs_keys (cross_jobs cat1 cat2) st (total st)) as (Hkeep & Hdiag & Hnew).
    rewrite cross_jobs_keys in Hdiag, Hnew.
    split; [exact Hkeep|]. split.
    + intros i Hi1 Hi2. apply Hdiag. apply cross_keys_spec. auto.
    + intros i j Hij. destruct (Hnew _ Hij) as [Hold | Hin]; [now left|].
      right. now apply cross_keys_spec.
  - reflexivity.
  - intros st c1 c2. eexists. split; reflexivity.
Qed.

(** X16: in pairwise mode [_process_all_cross] raises [ValueError] when
    the two lists differ in length, or at the first pair of catalogs whose
    numbers of objects differ; otherwise it calls [process_pairwise] on the
    catalogs paired by position, in order, and leaves [self.results]
    alone. *)
Theorem pairwise_outcome st (cat1 cat2 : list Cat) :
  _process_all_cross true st cat1 cat2 =
  if negb (length cat1 =? length cat2)%nat then
    Raise (ValueError "Number of files for 1 and 2 must be equal for pairwise.")
  else if forallb (fun cc => (ntot (fst cc) =? ntot (snd cc))%nat) (combine cat1 cat2) then
    Ok {| total := fold_left (fun t cc => process_pairwise t (fst cc) (snd cc))
                             (combine cat1 cat2) (total st);
          results := results st |}
  else Raise (ValueError "Number of objects must be equal for pairwise.").
Proof.
  unfold _process_all_cross.
  destruct (length cat1 =? length cat2)%nat; cbn [negb guard bind]; [|reflexivity].
  generalize (combine cat1 cat2) as cs. intros cs. revert st.
  induction cs as [|[c1 c2] cs IH]; intros st.
  - destruct st. reflexivity.
  - cbn [pairwise_loop forallb fold_left fst snd].
    destruct (ntot c1 =? ntot c2)%nat; cbn [guard bind andb]; [|reflexivity].
    rewrite IH. reflexivity.
Qed.

(** X17: after [_process_all_auto] has run from an empty store over
    [n >= 2] catalogs whose patch numbers are [0 .. n-1] in some order (as
    they are when no catalog has a patch number), the keys of the store
    pass every check of [_get_patch_nums], which finds [n] patches on both
    axes. *)
Theorem auto_store_has_patch_structure st cat1 (n : nat) (c : Cov.Corr) :
  (2 <= n)%nat ->
  results st = [] ->
  Permutation (patch_ids cat1) (seq 0 n) ->
  dict_keys (Cov.results c) = dict_keys (results (_process_all_auto st cat1)) ->
  Cov._get_patch_nums [c] = Ok (n, [n], [n], [dict_keys (Cov.results c)]).
Proof.
  intros Hn Hempty Hperm Hkeys.
  assert (Hlen : length cat1 <> 1%nat).
  { apply Permutation_length in Hperm.
    unfold patch_ids, enumerate in Hperm.
    rewrite length_map, length_combine, !length_seq, Nat.min_id in Hperm. lia. }
  assert (Hid : forall i, In i (patch_ids cat1) <-> (i < n)%nat).
  { intros i. split; intros Hi.
    - apply (Permutation_in _ Hperm) in Hi. apply in_seq in Hi. lia.
    - apply (Permutation_in _ (Permutation_sym Hperm)). apply in_seq. lia. }
  destruct (auto_store_keys st cat1 Hlen) as (_ & Hdiag & Hnew).
  unfold stored in Hdiag, Hnew. rewrite <- Hkeys in Hdiag, Hnew.
  rewrite Hempty in Hnew.
  set (keys := dict_keys (Cov.results c)) in *.
  assert (H1 : forall x, In x (map fst keys) <-> (x < n)%nat).
  { intros x. split.
    - intros Hx. apply in_map_iff in Hx. destruct Hx as [[i j] [<- Hin]].
      destruct (Hnew _ _ Hin) as [[] | (Hi & _)]. now apply Hid.
    - intros Hx. change x with (fst (x, x)). apply in_map. apply Hdiag. now apply Hid. }
  assert (H2 : forall x, In x (map snd keys) <-> (x < n)%nat).
  { intros x. split.
    - intros Hx. apply in_map_iff in Hx. destruct Hx as [[i j] [<- Hin]].
      destruct (Hnew _ _ Hin) as [[] | (_ & Hj & _)]. now apply Hid.
    - intros Hx. change x with (snd (x, x)). apply in_map. apply Hdiag. now apply Hid. }
  unfold Cov._get_patch_nums. fold keys.
  rewrite (count_distinct_range _ _ H1), (count_distinct_range _ _ H2).
  assert (Hne : (length keys =? 0)%nat = false).
  { apply Nat.eqb_neq. intros Hz. apply length_zero_iff_nil in Hz.
    assert (Hin : In (0, 0)%nat keys) by (apply Hdiag, Hid; lia).
    now rewrite Hz in Hin. }
  rewrite Hne. cbn [negb guard bind].
  rewrite (proj2 (CovFacts.is_range_spec _ _) H1), (proj2 (CovFacts.is_range_spec _ _) H2).
  cbn [guard bind]. rewrite Nat.eqb_refl. cbn [negb andb guard bind Cov.other_patch_nums].
  now rewrite Nat.max_id.
Qed.

End Loops.

(** ** A correlation that only counts pairs *)

(** The correlation is its number of pairs; a catalog is its number of
    objects, and has no patch number. *)
#[local] Instance pair_counter : Correlation R nat := {
  clear := fun _ => 0;
  process_auto := fun t c => t + INR c * INR c;
  process_cross := fun t c1 c2 => t + INR c1 * INR c2;
  process_pairwise := fun t c1 c2 => t + INR c1;
  iadd := Rplus;
  _add_tot := fun s _ => s;
  npairs := fun t => [t];
  _getWeight := fun t => [t];
  patch := fun _ => None;
  ntot := fun c => c
}.

Definition nothing_yet : state := {| total := 0; results := [] |}.

(** The stored results as the covariance estimators read them. *)
Definition as_corr (st : @state R) : Cov.Corr :=
  {| Cov.results :=
       map (fun kv => (fst kv, {| Cov.stat := [snd kv]; Cov.weight := [snd kv] |}))
           (results st);
     Cov._getStatLen := 1;
     Cov._getWeight := [total st];
     Cov._var_num := 1;
     Cov.num_bootstrap := 500 |}.

(** X15 on two catalogs of one and two objects: the auto-correlation of the
    second one is stored under [(1,1)]. *)
Lemma patch_loops_store_keys_witness :
  stored (_process_all_auto nothing_yet [1; 2]%nat) (1, 1)%nat.
Proof.
  destruct (proj1 patch_loops_store_keys nothing_yet [1; 2]%nat) as (_ & Hdiag & _).
  - simpl. lia.
  - apply Hdiag. simpl. auto.
Defined.

(** X17 on the same two catalogs. *)
Lemma auto_store_has_patch_structure_witness :
  exists keys,
    Cov._get_patch_nums [as_corr (_process_all_auto nothing_yet [1; 2]%nat)] =
    Ok (2, [2], [2], [keys])%nat.
Proof.
  eexists.
  apply (auto_store_has_patch_structure nothing_yet [1; 2]%nat 2
           (as_corr (_process_all_auto nothing_yet [1; 2]%nat))).
  - lia.
  - reflexivity.
  - apply Permutation_refl.
  - unfold as_corr, dict_keys. cbn [Cov.results]. rewrite map_map. reflexivity.
Defined.

End AccumMore.
